(** * Turbulence generator (turbulence_generator.h): model and properties

    A shallow embedding of the Fourier-mode turbulence generator: the two
    Numerical-Recipes uniform generators, the Gaussian sampler, the
    Ornstein-Uhlenbeck phase update, the solenoidal/compressive
    decomposition, the field evaluation, the update controller and the
    mode set builder.

    Conventions of the embedding.
    - A C [int] is a [Z]; every arithmetic operation on it is wrapped to 32
      bits two's complement ([CInt.wrap]).
    - A C [double] is a real number of [R]: rounding, infinities and NaN
      are not represented.  [sin], [cos], [sqrt], [exp], [log], [acos],
      [floor], [ceil], [round], [fabs] and [pow] of libm are the real
      functions.
    - A C array is a total function from its index; an access outside the
      declared extent, undefined in C, reads or writes the function there.
    - [TurbGen_printf] only prints; the model drops every call of it, and
      with them the [debug] branches, which do nothing else. *)

From Stdlib Require Import Reals ZArith List Lia Lra Bool String Ascii.
From Stdlib Require Import FunctionalExtensionality.
Import ListNotations.

Local Open Scope Z_scope.

(** ** 32-bit signed integers *)

Module CInt.

Definition int_min : Z := - 2 ^ 31.
Definition int_max : Z := 2 ^ 31 - 1.

Definition in_int (z : Z) : Prop := int_min <= z <= int_max.

(** Reduction of an integer to the 32-bit two's complement range. *)
Definition wrap (z : Z) : Z := (z + 2 ^ 31) mod 2 ^ 32 - 2 ^ 31.

Definition add (a b : Z) : Z := wrap (a + b).
Definition sub (a b : Z) : Z := wrap (a - b).
Definition mul (a b : Z) : Z := wrap (a * b).
Definition neg (a : Z) : Z := wrap (- a).
(** C division truncates toward zero. *)
Definition div (a b : Z) : Z := wrap (Z.quot a b).

(** The macro [MAX(a,b) ((a) > (b) ? a : b)] on integers. *)
Definition MAX (a b : Z) : Z := if a >? b then a else b.

End CInt.

(** ** Doubles, read as real numbers *)

Module CMath.

Local Open Scope R_scope.

Definition M_PI : R := PI.
Definition DBL_EPSILON : R := powerRZ 2 (-52).

Definition leb (x y : R) : bool := if Rle_dec x y then true else false.
Definition ltb (x y : R) : bool := if Rlt_dec x y then true else false.
Definition geb (x y : R) : bool := leb y x.
Definition gtb (x y : R) : bool := ltb y x.

(** The macros [MIN] and [MAX] on doubles. *)
Definition MIN (a b : R) : R := if ltb a b then a else b.
Definition MAX (a b : R) : R := if gtb a b then a else b.

Definition floor (x : R) : R := IZR (Zfloor x).
Definition ceil (x : R) : R := IZR (Zceil x).
(** [round] rounds half-way cases away from zero. *)
Definition round (x : R) : R :=
  if leb 0 x then IZR (Zfloor (x + / 2)) else IZR (Zceil (x - / 2)).
Definition fabs (x : R) : R := Rabs x.
Definition log (x : R) : R := ln x.

Definition is_integer (y : R) : bool :=
  if Req_dec_T y (IZR (Zfloor y)) then true else false.

(** [pow x y]: for an integral exponent the repeated product (or its
    inverse); for any other exponent and a positive base the exponential
    of [y * ln x]; for any other exponent and a base that is not positive,
    where libm gives 0, an infinity or NaN, the model has 0. *)
Definition pow (x y : R) : R :=
  if is_integer y then powerRZ x (Zfloor y)
  else if ltb 0 x then Rpower x y
  else 0.

(** Truncation toward zero, as in the conversion of a double to an
    integer type. *)
Definition Ztrunc (x : R) : Z := if leb 0 x then Zfloor x else Zceil x.

(** Conversion [double -> int].  C leaves the conversion undefined when the
    truncated value is not representable; the model reduces it to 32
    bits. *)
Definition to_int (x : R) : Z := CInt.wrap (Ztrunc x).

(** Conversion [int -> double]. *)
Definition of_int (z : Z) : R := IZR z.

End CMath.

(** ** Arrays and loops *)

Definition array (A : Type) : Type := Z -> A.

Definition aset {A : Type} (a : array A) (i : Z) (v : A) : array A :=
  fun j => if j =? i then v else a j.

Definition aset2 {A : Type} (a : Z -> array A) (r i : Z) (v : A) : Z -> array A :=
  fun r' => if r' =? r then aset (a r') i v else a r'.

(** [for (i = lo; i < hi; i++) body]: the body runs for [i = lo], [lo+1],
    ... while [i < hi]. *)
Fixpoint for_count {St : Type} (n : nat) (i : Z) (body : Z -> St -> St) (s : St) : St :=
  match n with
  | O => s
  | S n' => for_count n' (i + 1) body (body i s)
  end.

Definition for_loop {St : Type} (lo hi : Z) (body : Z -> St -> St) (s : St) : St :=
  for_count (Z.to_nat (hi - lo)) lo body s.

(** [for (j = n-1; j >= 0; j--) body]. *)
Fixpoint for_down {St : Type} (n : nat) (body : Z -> St -> St) (s : St) : St :=
  match n with
  | O => s
  | S n' => for_down n' body (body (Z.of_nat n') s)
  end.

(** Outcome of a routine that may call [exit(-1)]. *)
Inductive result (A : Type) : Type :=
| Ok : A -> result A
| Exit : result A.
Arguments Ok {A} _.
Arguments Exit {A}.

Definition bind {A B : Type} (r : result A) (f : A -> result B) : result B :=
  match r with
  | Ok a => f a
  | Exit => Exit
  end.

Notation "x <- c ;; k" := (bind c (fun x => k))
  (at level 61, c at next level, right associativity).

Fixpoint for_countM {St : Type} (n : nat) (i : Z) (body : Z -> St -> result St) (s : St)
  : result St :=
  match n with
  | O => Ok s
  | S n' => s' <- body i s ;; for_countM n' (i + 1) body s'
  end.

Definition for_loopM {St : Type} (lo hi : Z) (body : Z -> St -> result St) (s : St)
  : result St :=
  for_countM (Z.to_nat (hi - lo)) lo body s.

(** ** The generator's data

    [struct TurbGenData], the single global [tgd].  The arrays [mode],
    [aka] and [akb] are indexed by axis, then by mode. *)

Module Axis.
Definition X : BinNums.Z := 0.
Definition Y : BinNums.Z := 1.
Definition Z : BinNums.Z := 2.
End Axis.

Definition tgd_max_n_modes : Z := 100000.

Record TurbGenData : Type := mkTurbGenData {
  debug : bool;
  PE : Z;
  parameter_file : string;
  n_modes : Z;
  OUvar : R;
  mode : Z -> array R;
  aka : Z -> array R;
  akb : Z -> array R;
  OUphases : array R;
  ampl : array R;
  ndim : Z;
  random_seed : Z;
  seed : Z;
  spect_form : Z;
  nsteps_per_turnover_time : Z;
  step : Z;
  xmin : R;
  xmax : R;
  ymin : R;
  ymax : R;
  zmin : R;
  zmax : R;
  Lx : R;
  decay : R;
  dt : R;
  energy : R;
  stir_min : R;
  stir_max : R;
  sol_weight : R;
  sol_weight_norm : R;
  velocity : R;
  power_law_exp : R;
  angles_exp : R
}.

(** Assignment to one field of [tgd]. *)
Definition set_n_modes (t : TurbGenData) (v : Z) : TurbGenData :=
  {|
    debug := debug t; PE := PE t; parameter_file := parameter_file t;
    n_modes := v; OUvar := OUvar t; mode := mode t; aka := aka t;
    akb := akb t; OUphases := OUphases t; ampl := ampl t; ndim := ndim t;
    random_seed := random_seed t; seed := seed t; spect_form := spect_form t;
    nsteps_per_turnover_time := nsteps_per_turnover_time t; step := step t;
    xmin := xmin t; xmax := xmax t; ymin := ymin t; ymax := ymax t;
    zmin := zmin t; zmax := zmax t; Lx := Lx t; decay := decay t; dt := dt t;
    energy := energy t; stir_min := stir_min t; stir_max := stir_max t;
    sol_weight := sol_weight t; sol_weight_norm := sol_weight_norm t;
    velocity := velocity t; power_law_exp := power_law_exp t;
    angles_exp := angles_exp t
  |}.

Definition set_mode (t : TurbGenData) (v : Z -> array R) : TurbGenData :=
  {|
    debug := debug t; PE := PE t; parameter_file := parameter_file t;
    n_modes := n_modes t; OUvar := OUvar t; mode := v; aka := aka t;
    akb := akb t; OUphases := OUphases t; ampl := ampl t; ndim := ndim t;
    random_seed := random_seed t; seed := seed t; spect_form := spect_form t;
    nsteps_per_turnover_time := nsteps_per_turnover_time t; step := step t;
    xmin := xmin t; xmax := xmax t; ymin := ymin t; ymax := ymax t;
    zmin := zmin t; zmax := zmax t; Lx := Lx t; decay := decay t; dt := dt t;
    energy := energy t; stir_min := stir_min t; stir_max := stir_max t;
    sol_weight := sol_weight t; sol_weight_norm := sol_weight_norm t;
    velocity := velocity t; power_law_exp := power_law_exp t;
    angles_exp := angles_exp t
  |}.

Definition set_aka (t : TurbGenData) (v : Z -> array R) : TurbGenData :=
  {|
    debug := debug t; PE := PE t; parameter_file := parameter_file t;
    n_modes := n_modes t; OUvar := OUvar t; mode := mode t; aka := v;
    akb := akb t; OUphases := OUphases t; ampl := ampl t; ndim := ndim t;
    random_seed := random_seed t; seed := seed t; spect_form := spect_form t;
    nsteps_per_turnover_time := nsteps_per_turnover_time t; step := step t;
    xmin := xmin t; xmax := xmax t; ymin := ymin t; ymax := ymax t;
    zmin := zmin t; zmax := zmax t; Lx := Lx t; decay := decay t; dt := dt t;
    energy := energy t; stir_min := stir_min t; stir_max := stir_max t;
    sol_weight := sol_weight t; sol_weight_norm := sol_weight_norm t;
    velocity := velocity t; power_law_exp := power_law_exp t;
    angles_exp := angles_exp t
  |}.

Definition set_akb (t : TurbGenData) (v : Z -> array R) : TurbGenData :=
  {|
    debug := debug t; PE := PE t; parameter_file := parameter_file t;
    n_modes := n_modes t; OUvar := OUvar t; mode := mode t; aka := aka t;
    akb := v; OUphases := OUphases t; ampl := ampl t; ndim := ndim t;
    random_seed := random_seed t; seed := seed t; spect_form := spect_form t;
    nsteps_per_turnover_time := nsteps_per_turnover_time t; step := step t;
    xmin := xmin t; xmax := xmax t; ymin := ymin t; ymax := ymax t;
    zmin := zmin t; zmax := zmax t; Lx := Lx t; decay := decay t; dt := dt t;
    energy := energy t; stir_min := stir_min t; stir_max := stir_max t;
    sol_weight := sol_weight t; sol_weight_norm := sol_weight_norm t;
    velocity := velocity t; power_law_exp := power_law_exp t;
    angles_exp := angles_exp t
  |}.

Definition set_OUphases (t : TurbGenData) (v : array R) : TurbGenData :=
  {|
    debug := debug t; PE := PE t; parameter_file := parameter_file t;
    n_modes := n_modes t; OUvar := OUvar t; mode := mode t; aka := aka t;
    akb := akb t; OUphases := v; ampl := ampl t; ndim := ndim t;
    random_seed := random_seed t; seed := seed t; spect_form := spect_form t;
    nsteps_per_turnover_time := nsteps_per_turnover_time t; step := step t;
    xmin := xmin t; xmax := xmax t; ymin := ymin t; ymax := ymax t;
    zmin := zmin t; zmax := zmax t; Lx := Lx t; decay := decay t; dt := dt t;
    energy := energy t; stir_min := stir_min t; stir_max := stir_max t;
    sol_weight := sol_weight t; sol_weight_norm := sol_weight_norm t;
    velocity := velocity t; power_law_exp := power_law_exp t;
    angles_exp := angles_exp t
  |}.

Definition set_ampl (t : TurbGenData) (v : array R) : TurbGenData :=
  {|
    debug := debug t; PE := PE t; parameter_file := parameter_file t;
    n_modes := n_modes t; OUvar := OUvar t; mode := mode t; aka := aka t;
    akb := akb t; OUphases := OUphases t; ampl := v; ndim := ndim t;
    random_seed := random_seed t; seed := seed t; spect_form := spect_form t;
    nsteps_per_turnover_time := nsteps_per_turnover_time t; step := step t;
    xmin := xmin t; xmax := xmax t; ymin := ymin t; ymax := ymax t;
    zmin := zmin t; zmax := zmax t; Lx := Lx t; decay := decay t; dt := dt t;
    energy := energy t; stir_min := stir_min t; stir_max := stir_max t;
    sol_weight := sol_weight t; sol_weight_norm := sol_weight_norm t;
    velocity := velocity t; power_law_exp := power_law_exp t;
    angles_exp := angles_exp t
  |}.

Definition set_seed (t : TurbGenData) (v : Z) : TurbGenData :=
  {|
    debug := debug t; PE := PE t; parameter_file := parameter_file t;
    n_modes := n_modes t; OUvar := OUvar t; mode := mode t; aka := aka t;
    akb := akb t; OUphases := OUphases t; ampl := ampl t; ndim := ndim t;
    random_seed := random_seed t; seed := v; spect_form := spect_form t;
    nsteps_per_turnover_time := nsteps_per_turnover_time t; step := step t;
    xmin := xmin t; xmax := xmax t; ymin := ymin t; ymax := ymax t;
    zmin := zmin t; zmax := zmax t; Lx := Lx t; decay := decay t; dt := dt t;
    energy := energy t; stir_min := stir_min t; stir_max := stir_max t;
    sol_weight := sol_weight t; sol_weight_norm := sol_weight_norm t;
    velocity := velocity t; power_law_exp := power_law_exp t;
    angles_exp := angles_exp t
  |}.

Definition set_step (t : TurbGenData) (v : Z) : TurbGenData :=
  {|
    debug := debug t; PE := PE t; parameter_file := parameter_file t;
    n_modes := n_modes t; OUvar := OUvar t; mode := mode t; aka := aka t;
    akb := akb t; OUphases := OUphases t; ampl := ampl t; ndim := ndim t;
    random_seed := random_seed t; seed := seed t; spect_form := spect_form t;
    nsteps_per_turnover_time := nsteps_per_turnover_time t; step := v;
    xmin := xmin t; xmax := xmax t; ymin := ymin t; ymax := ymax t;
    zmin := zmin t; zmax := zmax t; Lx := Lx t; decay := decay t; dt := dt t;
    energy := energy t; stir_min := stir_min t; stir_max := stir_max t;
    sol_weight := sol_weight t; sol_weight_norm := sol_weight_norm t;
    velocity := velocity t; power_law_exp := power_law_exp t;
    angles_exp := angles_exp t
  |}.

(** ** Random number generators

    The two generators receive a pointer [idum] to their integer state; in
    the model they take the value stored there and return the new one,
    which the caller stores back.  [TurbGen_ran2] keeps [idum2], [iy] and
    the shuffle table [iv] in function-local statics. *)

Inductive rng_call : Type :=
| call_ran1s
| call_ran2.

Record Ran2Static : Type := mkRan2Static {
  idum2 : Z;
  iy : Z;
  iv : array Z
}.

(** The state of the program: the global [tgd], the statics of
    [TurbGen_ran2], and the sequence of calls made to the two uniform
    generators (oldest first), which records the call sequence and takes no
    part in any computation. *)
Record World : Type := mkWorld {
  tgd : TurbGenData;
  ran2_static : Ran2Static;
  rng_calls : list rng_call
}.

Definition set_tgd (w : World) (t : TurbGenData) : World :=
  {| tgd := t; ran2_static := ran2_static w; rng_calls := rng_calls w |}.

Definition set_ran2_static (w : World) (s : Ran2Static) : World :=
  {| tgd := tgd w; ran2_static := s; rng_calls := rng_calls w |}.

Definition record_call (w : World) (c : rng_call) : World :=
  {| tgd := tgd w; ran2_static := ran2_static w; rng_calls := rng_calls w ++ [c] |}.

(** Statics as the C initialisers leave them: [idum2 = 123456789],
    [iy = 0], [iv] zero-filled. *)
Definition ran2_static_init : Ran2Static :=
  {| idum2 := 123456789; iy := 0; iv := fun _ => 0 |}.

Module Ran1s.
Definition IA : Z := 16807.
Definition IM : Z := 2147483647.
Definition IQ : Z := 127773.
Definition IR : Z := 2836.
Definition NTAB : Z := 32.
Definition AM : R := (1 / IZR IM)%R.
Definition EPS : R := (12 / 100000000)%R.
Definition RNMX : R := (1 - EPS)%R.

(** The integer state transition of the generator. *)
Definition next (idum : Z) : Z :=
  let idum := if idum <=? 0 then CInt.MAX (CInt.neg idum) 1 else idum in
  let k := CInt.div idum IQ in
  let idum := CInt.sub (CInt.mul IA (CInt.sub idum (CInt.mul k IQ))) (CInt.mul IR k) in
  if idum <? 0 then CInt.add idum IM else idum.
End Ran1s.

(** [double TurbGen_ran1s(int * idum)] *)
Definition TurbGen_ran1s (idum : Z) (w : World) : R * Z * World :=
  let idum := Ran1s.next idum in
  let iy := idum in
  let ret := CMath.MIN (Ran1s.AM * CMath.of_int iy)%R Ran1s.RNMX in
  (ret, idum, record_call w call_ran1s).

Module Ran2.
Definition IM1 : Z := 2147483563.
Definition IM2 : Z := 2147483399.
Definition IMM1 : Z := CInt.sub IM1 1.
Definition IA1 : Z := 40014.
Definition IA2 : Z := 40692.
Definition IQ1 : Z := 53668.
Definition IQ2 : Z := 52774.
Definition IR1 : Z := 12211.
Definition IR2 : Z := 3791.
Definition NTAB : Z := 32.
Definition NDIV : Z := CInt.add 1 (CInt.div IMM1 NTAB).
Definition AM : R := (1 / IZR IM1)%R.
Definition EPS : R := (12 / 100000000)%R.
Definition RNMX : R := (1 - EPS)%R.

(** One step of the first congruential sequence (Schrage's method). *)
Definition step1 (idum : Z) : Z :=
  let k := CInt.div idum IQ1 in
  let idum := CInt.sub (CInt.mul IA1 (CInt.sub idum (CInt.mul k IQ1))) (CInt.mul k IR1) in
  if idum <? 0 then CInt.add idum IM1 else idum.

(** One step of the second congruential sequence. *)
Definition step2 (idum2 : Z) : Z :=
  let k := CInt.div idum2 IQ2 in
  let idum2 := CInt.sub (CInt.mul IA2 (CInt.sub idum2 (CInt.mul k IQ2))) (CInt.mul k IR2) in
  if idum2 <? 0 then CInt.add idum2 IM2 else idum2.

(** Body of the warm-up loop [for (j = NTAB+7; j >= 0; j--)]: the state is
    the pair of [*idum] and [iv]. *)
Definition warm_body (j : Z) (s : Z * array Z) : Z * array Z :=
  let idum := step1 (fst s) in
  (idum, if j <? NTAB then aset (snd s) j idum else snd s).
End Ran2.

(** [double TurbGen_ran2(int * idum)] *)
Definition TurbGen_ran2 (idum : Z) (w : World) : R * Z * World :=
  let st := ran2_static w in
  let '(idum, st) :=
    if idum <=? 0 then
      let idum := CInt.MAX (CInt.neg idum) 1 in
      let idum2' := idum in
      let '(idum, iv') :=
        for_down (Z.to_nat (CInt.add Ran2.NTAB 7 + 1)) Ran2.warm_body (idum, iv st) in
      (idum, {| idum2 := idum2'; iy := iv' 0; iv := iv' |})
    else (idum, st) in
  let idum := Ran2.step1 idum in
  let idum2' := Ran2.step2 (idum2 st) in
  let j := CInt.div (iy st) Ran2.NDIV in
  let iy' := CInt.sub (iv st j) idum2' in
  let iv' := aset (iv st) j idum in
  let iy' := if iy' <? 1 then CInt.add iy' Ran2.IMM1 else iy' in
  let ret := CMath.MIN (Ran2.AM * CMath.of_int iy')%R Ran2.RNMX in
  (ret, idum,
   record_call
     (set_ran2_static w {| idum2 := idum2'; iy := iy'; iv := iv' |}) call_ran2).

(** A call [TurbGen_ran1s(&tgd.seed)], respectively
    [TurbGen_ran2(&tgd.seed)]: the new state is stored back in
    [tgd.seed]. *)
Definition ran1s_tgd_seed (w : World) : R * World :=
  let '(r, s, w1) := TurbGen_ran1s (seed (tgd w)) w in
  (r, set_tgd w1 (set_seed (tgd w1) s)).

Definition ran2_tgd_seed (w : World) : R * World :=
  let '(r, s, w1) := TurbGen_ran2 (seed (tgd w)) w in
  (r, set_tgd w1 (set_seed (tgd w1) s)).

(** ** Gaussian sampler *)

(** [double TurbGen_grn(void)] *)
Definition TurbGen_grn (w : World) : R * World :=
  let '(r1, w1) := ran1s_tgd_seed w in
  let '(r2, w2) := ran1s_tgd_seed w1 in
  let g1 := (sqrt (2 * CMath.log (1 / r1)) * cos (2 * CMath.M_PI * r2))%R in
  (g1, w2).

(** ** Ornstein-Uhlenbeck phases *)

(** Body of the loop of [TurbGen_OU_noise_init]. *)
Definition OU_noise_init_body (i : Z) (w : World) : World :=
  let '(g, w1) := TurbGen_grn w in
  set_tgd w1 (set_OUphases (tgd w1)
                (aset (OUphases (tgd w1)) i (OUvar (tgd w1) * g)%R)).

(** [void TurbGen_OU_noise_init(void)] *)
Definition TurbGen_OU_noise_init (w : World) : World :=
  for_loop 0 (CInt.mul 6 (n_modes (tgd w))) OU_noise_init_body w.

(** Body of the loop of [TurbGen_OU_noise_update]. *)
Definition OU_noise_update_body (damping_factor : R) (i : Z) (w : World) : World :=
  let '(g, w1) := TurbGen_grn w in
  let t := tgd w1 in
  set_tgd w1 (set_OUphases t
                (aset (OUphases t) i
                   (OUphases t i * damping_factor +
                    sqrt (1 - damping_factor * damping_factor) * OUvar t * g)%R)).

(** [void TurbGen_OU_noise_update(void)].  The loop bound [6*tgd.n_modes]
    is read once: the body does not assign [n_modes]. *)
Definition TurbGen_OU_noise_update (w : World) : World :=
  let damping_factor := exp (- dt (tgd w) / decay (tgd w)) in
  let w1 := for_loop 0 (CInt.mul 6 (n_modes (tgd w)))
              (OU_noise_update_body damping_factor) w in
  set_tgd w1 (set_step (tgd w1) (CInt.add (step (tgd w1)) 1)).

(** ** Decomposition into solenoidal and compressive parts *)

(** Index [6*i+2*j+p] of a phase slot in [OUphases]. *)
Definition phase_index (i j p : Z) : Z :=
  CInt.add (CInt.add (CInt.mul 6 i) (CInt.mul 2 j)) p.

(** First inner loop of [TurbGen_get_decomposition_coeffs]: the state is
    the triple [(ka, kb, kk)]. *)
Definition decomp_proj_body (t : TurbGenData) (i j : Z) (acc : R * R * R) : R * R * R :=
  let '(ka, kb, kk) := acc in
  let kk := (kk + mode t j i * mode t j i)%R in
  let ka := (ka + mode t j i * OUphases t (phase_index i j 1))%R in
  let kb := (kb + mode t j i * OUphases t (phase_index i j 0))%R in
  (ka, kb, kk).

(** Second inner loop: assignment of [aka[j][i]] and [akb[j][i]]. *)
Definition decomp_coeff_body (ka kb kk : R) (i j : Z) (t : TurbGenData) : TurbGenData :=
  let diva := (mode t j i * ka / kk)%R in
  let divb := (mode t j i * kb / kk)%R in
  let curla := (OUphases t (phase_index i j 0) - divb)%R in
  let curlb := (OUphases t (phase_index i j 1) - diva)%R in
  let t := set_aka t (aset2 (aka t) j i
                        (sol_weight t * curla + (1 - sol_weight t) * divb)%R) in
  set_akb t (aset2 (akb t) j i
               (sol_weight t * curlb + (1 - sol_weight t) * diva)%R).

(** Body of the loop over the modes. *)
Definition decomp_mode_body (i : Z) (t : TurbGenData) : TurbGenData :=
  let '(ka, kb, kk) := for_loop 0 (ndim t) (decomp_proj_body t i) (0, 0, 0)%R in
  for_loop 0 (ndim t) (decomp_coeff_body ka kb kk i) t.

(** [void TurbGen_get_decomposition_coeffs(void)], on [tgd] alone. *)
Definition get_decomposition_coeffs (t : TurbGenData) : TurbGenData :=
  for_loop 0 (n_modes t) decomp_mode_body t.

Definition TurbGen_get_decomposition_coeffs (w : World) : World :=
  set_tgd w (get_decomposition_coeffs (tgd w)).

(** ** Update controller *)

(** [bool TurbGen_check_for_update(double time)] *)
Definition TurbGen_check_for_update (time : R) (w : World) : bool * World :=
  let step_requested := CMath.to_int (CMath.floor (time / dt (tgd w))) in
  if step_requested <=? step (tgd w) then (false, w)
  else
    let w1 := for_loop (step (tgd w)) step_requested
                (fun _ w' => TurbGen_OU_noise_update w') w in
    (true, TurbGen_get_decomposition_coeffs w1).

(** ** Field evaluation *)

(** The six local arrays of [TurbGen_get_turb_vector]. *)
Record TrigTables : Type := mkTrigTables {
  sinx : array R; cosx : array R;
  siny : array R; cosy : array R;
  sinz : array R; cosz : array R
}.

(** Body of the loop that fills the tables. *)
Definition trig_body (t : TurbGenData) (x y z : R) (m : Z) (tb : TrigTables) : TrigTables :=
  {| sinx := aset (sinx tb) m (sin (mode t Axis.X m * x));
     cosx := aset (cosx tb) m (cos (mode t Axis.X m * x));
     siny := aset (siny tb) m (sin (mode t Axis.Y m * y));
     cosy := aset (cosy tb) m (cos (mode t Axis.Y m * y));
     sinz := aset (sinz tb) m (sin (mode t Axis.Z m * z));
     cosz := aset (cosz tb) m (cos (mode t Axis.Z m * z)) |}.

(** The locals [real] and [imag] of mode [m], from the tables. *)
Definition real_part (tb : TrigTables) (m : Z) : R :=
  ((cosx tb m * cosy tb m - sinx tb m * siny tb m) * cosz tb m
   - (sinx tb m * cosy tb m + cosx tb m * siny tb m) * sinz tb m)%R.

Definition imag_part (tb : TrigTables) (m : Z) : R :=
  (cosx tb m * (cosy tb m * sinz tb m + siny tb m * cosz tb m)
   + sinx tb m * (cosy tb m * cosz tb m - siny tb m * sinz tb m))%R.

(** Body of the loop over all modes: the state is [( *vx, *vy, *vz )]. *)
Definition turb_vector_body (t : TurbGenData) (tb : TrigTables) (m : Z) (v : R * R * R)
  : R * R * R :=
  let '(vx, vy, vz) := v in
  let real := real_part tb m in
  let imag := imag_part tb m in
  ((vx + 2 * sol_weight_norm t * ampl t m
           * (aka t Axis.X m * real - akb t Axis.X m * imag))%R,
   (vy + 2 * sol_weight_norm t * ampl t m
           * (aka t Axis.Y m * real - akb t Axis.Y m * imag))%R,
   (vz + 2 * sol_weight_norm t * ampl t m
           * (aka t Axis.Z m * real - akb t Axis.Z m * imag))%R).

(** The loop that pre-computes the trigonometry. *)
Definition fill_tables (tb0 : TrigTables) (x y z : R) (t : TurbGenData) : TrigTables :=
  for_loop 0 (n_modes t) (trig_body t x y z) tb0.

(** [void TurbGen_get_turb_vector(x, y, z, *vx, *vy, *vz)]: the result is
    the triple stored through the three pointers.  The local tables are
    not initialised in C; [tb0] is their content on entry. *)
Definition TurbGen_get_turb_vector_from (tb0 : TrigTables) (x y z : R) (t : TurbGenData)
  : R * R * R :=
  let tb := fill_tables tb0 x y z t in
  for_loop 0 (n_modes t) (turb_vector_body t tb) (0, 0, 0)%R.

Definition zero_tables : TrigTables :=
  let z : array R := fun _ => 0%R in
  {| sinx := z; cosx := z; siny := z; cosy := z; sinz := z; cosz := z |}.

Definition TurbGen_get_turb_vector (x y z : R) (t : TurbGenData) : R * R * R :=
  TurbGen_get_turb_vector_from zero_tables x y z t.

(** ** Mode set builder *)

(** The test [(k >= tgd.stir_min) && (k <= tgd.stir_max)]. *)
Definition in_band (t : TurbGenData) (k : R) : bool :=
  CMath.geb k (stir_min t) && CMath.leb k (stir_max t).

(** [2*M_PI * ik / L] *)
Definition wavenumber (L : R) (ik : Z) : R :=
  (2 * CMath.M_PI * CMath.of_int ik / L)%R.

Definition magnitude (kx ky kz : R) : R :=
  sqrt (kx * kx + ky * ky + kz * kz).

(** Innermost body of the counting pass. *)
Definition count_body (kx ky Lz : R) (ikz : Z) (t : TurbGenData) : TurbGenData :=
  let kz := wavenumber Lz ikz in
  let k := magnitude kx ky kz in
  if in_band t k then
    let t := set_n_modes t (CInt.add (n_modes t) 1) in
    let t := if ndim t >? 1 then set_n_modes t (CInt.add (n_modes t) 1) else t in
    if ndim t >? 2 then set_n_modes t (CInt.add (n_modes t) 2) else t
  else t.

(** The three nested loops of the counting pass. *)
Definition count_pass (Lx Ly Lz : R) (ikxmax ikymax ikzmax : Z) (t : TurbGenData)
  : TurbGenData :=
  for_loop 0 (ikxmax + 1)
    (fun ikx t =>
       let kx := wavenumber Lx ikx in
       for_loop 0 (ikymax + 1)
         (fun iky t =>
            let ky := wavenumber Ly iky in
            for_loop 0 (ikzmax + 1) (count_body kx ky Lz) t) t) t.

(** The statements that append one mode:
    [tgd.n_modes++; tgd.ampl[tgd.n_modes] = amplitude;
     tgd.mode[X][tgd.n_modes] = kx; ... ]. *)
Definition store_mode (t : TurbGenData) (amplitude kx ky kz : R) : TurbGenData :=
  let t := set_n_modes t (CInt.add (n_modes t) 1) in
  let t := set_ampl t (aset (ampl t) (n_modes t) amplitude) in
  let t := set_mode t (aset2 (mode t) Axis.X (n_modes t) kx) in
  let t := set_mode t (aset2 (mode t) Axis.Y (n_modes t) ky) in
  set_mode t (aset2 (mode t) Axis.Z (n_modes t) kz).

(** Innermost body of the generation pass for Band and Parabola.  The
    local [amplitude] is assigned only when [spect_form] is 0 or 1 and
    otherwise keeps its previous value, so it is part of the loop state. *)
Definition gen_body (parab_prefact kc kx ky Lz : R) (ikz : Z) (s : TurbGenData * R)
  : TurbGenData * R :=
  let '(t, amplitude) := s in
  let kz := wavenumber Lz ikz in
  let k := magnitude kx ky kz in
  if in_band t k then
    let amplitude := if spect_form t =? 0 then 1%R else amplitude in
    let amplitude :=
      if spect_form t =? 1
      then CMath.fabs (parab_prefact * CMath.pow (k - kc) 2 + 1)%R
      else amplitude in
    let amplitude :=
      (sqrt amplitude
       * CMath.pow (kc / k) (CMath.of_int (CInt.sub (ndim t) 1) / 2))%R in
    let t := store_mode t amplitude kx ky kz in
    let t := if ndim t >? 1 then store_mode t amplitude kx (- ky)%R kz else t in
    let t :=
      if ndim t >? 2
      then store_mode (store_mode t amplitude kx ky (- kz)%R)
             amplitude kx (- ky)%R (- kz)%R
      else t in
    (t, amplitude)
  else s.

(** The three nested loops of the generation pass. *)
Definition gen_pass (parab_prefact kc Lx Ly Lz : R) (ikxmax ikymax ikzmax : Z)
  (s : TurbGenData * R) : TurbGenData * R :=
  for_loop 0 (ikxmax + 1)
    (fun ikx s =>
       let kx := wavenumber Lx ikx in
       for_loop 0 (ikymax + 1)
         (fun iky s =>
            let ky := wavenumber Ly iky in
            for_loop 0 (ikzmax + 1) (gen_body parab_prefact kc kx ky Lz) s) s) s.

(** The guard [n + pow(2.0,tgd.ndim-1) > tgd_max_n_modes]. *)
Definition too_many_modes (t : TurbGenData) (n : Z) : bool :=
  CMath.gtb
    (CMath.of_int n + CMath.pow 2 (CMath.of_int (CInt.sub (ndim t) 1)))%R
    (CMath.of_int tgd_max_n_modes).

(** Body of the loop over the angles of the power-law sampling, for the
    shell [ik] with [nang] angles. *)
Definition powerlaw_angle_body (kc Lx Ly Lz : R) (ik nang : Z) (iang : Z) (w : World)
  : result World :=
  let '(u, w) := ran2_tgd_seed w in
  let phi := (2 * CMath.M_PI * u)%R in
  let phi :=
    if ndim (tgd w) =? 1 then
      let phi := if CMath.ltb phi CMath.M_PI then 0%R else phi in
      if CMath.geb phi CMath.M_PI then CMath.M_PI else phi
    else phi in
  let theta := (CMath.M_PI / 2)%R in
  let '(theta, w) :=
    if ndim (tgd w) >? 2 then
      let '(u, w) := ran2_tgd_seed w in (acos (1 - 2 * u), w)
    else (theta, w) in
  let '(u, w) := ran2_tgd_seed w in
  let rand := (CMath.of_int ik + u - / 2)%R in
  let kx := (2 * CMath.M_PI * CMath.round (rand * sin theta * cos phi) / Lx)%R in
  let ky :=
    if ndim (tgd w) >? 1
    then (2 * CMath.M_PI * CMath.round (rand * sin theta * sin phi) / Ly)%R
    else 0%R in
  let kz :=
    if ndim (tgd w) >? 2
    then (2 * CMath.M_PI * CMath.round (rand * cos theta) / Lz)%R
    else 0%R in
  let k := magnitude kx ky kz in
  if in_band (tgd w) k then
    if too_many_modes (tgd w) (n_modes (tgd w)) then Exit
    else
      let t := tgd w in
      let amplitude := CMath.pow (k / kc) (power_law_exp t) in
      let amplitude :=
        (sqrt (amplitude
               * CMath.pow (CMath.of_int ik) (CMath.of_int (CInt.sub (ndim t) 1))
               / CMath.of_int nang * 4 * sqrt 3)
         * CMath.pow (kc / k) (CMath.of_int (CInt.sub (ndim t) 1) / 2))%R in
      Ok (set_tgd w (store_mode t amplitude kx ky kz))
  else Ok w.

(** Body of the loop over the shells [ik]. *)
Definition powerlaw_shell_body (kc Lx Ly Lz : R) (ik : Z) (w : World) : result World :=
  let nang :=
    CMath.to_int (CMath.pow 2 (CMath.of_int (ndim (tgd w)))
                  * CMath.ceil (CMath.pow (CMath.of_int ik) (angles_exp (tgd w))))%R in
  for_loopM 1 (nang + 1) (powerlaw_angle_body kc Lx Ly Lz ik nang) w.

(** The [spect_form == 2] block. *)
Definition powerlaw_pass (kc Lx Ly Lz : R) (w : World) : result World :=
  let seed := CInt.neg (seed (tgd w)) in
  let '(_, _, w) := TurbGen_ran2 seed w in
  let t := tgd w in
  let ikmin := CMath.to_int (CMath.MAX 1 (CMath.round (stir_min t * Lx / (2 * CMath.M_PI)))) in
  let ikmax := CMath.to_int (CMath.round (stir_max t * Lx / (2 * CMath.M_PI))) in
  for_loopM ikmin (ikmax + 1) (powerlaw_shell_body kc Lx Ly Lz) w.

(** [int TurbGen_init_modes(void)]; [amplitude0] is the content of the
    uninitialised local [amplitude] on entry. *)
Definition TurbGen_init_modes_from (amplitude0 : R) (w : World) : result World :=
  let t := tgd w in
  let parab_prefact := (- 4 / CMath.pow (stir_max t - stir_min t) 2)%R in
  let kc := stir_min t in
  let kc := if spect_form t =? 1 then (/ 2 * (stir_min t + stir_max t))%R else kc in
  let ikxmax := 256 in
  let ikymax := if ndim t >? 1 then 256 else 0 in
  let ikzmax := if ndim t >? 2 then 256 else 0 in
  let Lx := (xmax t - xmin t)%R in
  let Ly := (ymax t - ymin t)%R in
  let Lz := (zmax t - zmin t)%R in
  let t := set_n_modes t 0 in
  let t := count_pass Lx Ly Lz ikxmax ikymax ikzmax t in
  let tot_n_modes := n_modes t in
  if negb (spect_form t =? 2) && too_many_modes t tot_n_modes then Exit
  else
    let t := set_n_modes t (-1) in
    let t :=
      if negb (spect_form t =? 2)
      then fst (gen_pass parab_prefact kc Lx Ly Lz ikxmax ikymax ikzmax (t, amplitude0))
      else t in
    let w := set_tgd w t in
    w <- (if spect_form t =? 2 then powerlaw_pass kc Lx Ly Lz w else Ok w) ;;
    Ok (set_tgd w (set_n_modes (tgd w) (CInt.add (n_modes (tgd w)) 1))).

Definition TurbGen_init_modes (w : World) : result World :=
  TurbGen_init_modes_from 0%R w.

(** The count [tot_n_modes] of the preliminary pass, as
    [TurbGen_init_modes] computes it. *)
Definition tot_n_modes (t : TurbGenData) : Z :=
  n_modes
    (count_pass (xmax t - xmin t) (ymax t - ymin t) (zmax t - zmin t)
       256 (if ndim t >? 1 then 256 else 0) (if ndim t >? 2 then 256 else 0)
       (set_n_modes t 0)).

(** ** Initialisation *)

(** The values that the calls of [TurbGen_read_from_parameter_file] store,
    in the order of the calls.  Opening and parsing the file is input
    handling outside the model; a missing file or key ends the process
    before any of the code below runs. *)
Record ParameterFile : Type := mkParameterFile {
  p_ndim : Z;
  p_xmin : R; p_xmax : R;
  p_ymin : R; p_ymax : R;
  p_zmin : R; p_zmax : R;
  p_velocity : R;
  p_k_driv : R; p_k_min : R; p_k_max : R;
  p_sol_weight : R;
  p_spect_form : Z;
  p_power_law_exp : R;
  p_angles_exp : R;
  p_energy_coeff : R;
  p_random_seed : Z;
  p_nsteps_per_turnover_time : Z
}.

(** [tgd.sol_weight_norm], assigned only for [ndim] 3, 2 or 1. *)
Definition sol_weight_norm_of (ndim : Z) (sol_weight old : R) : R :=
  let n3 :=
    if ndim =? 3
    then (sqrt (3 / 3) * sqrt 3 * 1
          / sqrt (1 - 2 * sol_weight + 3 * CMath.pow sol_weight 2))%R
    else old in
  let n2 :=
    if ndim =? 2
    then (sqrt (3 / 2) * sqrt 3 * 1
          / sqrt (1 - 2 * sol_weight + 2 * CMath.pow sol_weight 2))%R
    else n3 in
  if ndim =? 1
  then (sqrt (3 / 1) * sqrt 3 * 1
        / sqrt (1 - 2 * sol_weight + 1 * CMath.pow sol_weight 2))%R
  else n2.

(** The assignments of [TurbGen_init_turbulence_generator] up to the call
    of [TurbGen_init_modes]. *)
Definition init_parameters (file : string) (pe : Z) (p : ParameterFile) (t : TurbGenData)
  : TurbGenData :=
  let Lx' := (p_xmax p - p_xmin p)%R in
  let decay' := (Lx' / p_k_driv p / p_velocity p)%R in
  let energy' := (p_energy_coeff p * CMath.pow (p_velocity p) 3 / Lx')%R in
  {|
    debug := debug t; PE := pe; parameter_file := file;
    n_modes := n_modes t; OUvar := sqrt (energy' / decay');
    mode := mode t; aka := aka t; akb := akb t;
    OUphases := OUphases t; ampl := ampl t;
    ndim := p_ndim p;
    random_seed := p_random_seed p; seed := p_random_seed p;
    spect_form := p_spect_form p;
    nsteps_per_turnover_time := p_nsteps_per_turnover_time p;
    step := -1;
    xmin := p_xmin p; xmax := p_xmax p;
    ymin := p_ymin p; ymax := p_ymax p;
    zmin := p_zmin p; zmax := p_zmax p;
    Lx := Lx';
    decay := decay';
    dt := (decay' / CMath.of_int (p_nsteps_per_turnover_time p))%R;
    energy := energy';
    stir_min := ((p_k_min p - CMath.DBL_EPSILON) * 2 * CMath.M_PI / Lx')%R;
    stir_max := ((p_k_max p + CMath.DBL_EPSILON) * 2 * CMath.M_PI / Lx')%R;
    sol_weight := p_sol_weight p;
    sol_weight_norm :=
      sol_weight_norm_of (p_ndim p) (p_sol_weight p) (sol_weight_norm t);
    velocity := p_velocity p;
    power_law_exp := p_power_law_exp p;
    angles_exp := p_angles_exp p
  |}.

(** [int TurbGen_init_turbulence_generator(char * parameter_file, const int PE)] *)
Definition TurbGen_init_turbulence_generator
  (file : string) (pe : Z) (p : ParameterFile) (w : World) : result World :=
  let w := set_tgd w (init_parameters file pe p (tgd w)) in
  w <- TurbGen_init_modes w ;;
  let w := TurbGen_OU_noise_init w in
  Ok (TurbGen_get_decomposition_coeffs w).

(** A sequence of calls of [TurbGen_check_for_update], one per entry of
    [times], in order. *)
Fixpoint check_for_update_seq (times : list R) (w : World) : World :=
  match times with
  | [] => w
  | time :: rest => check_for_update_seq rest (snd (TurbGen_check_for_update time w))
  end.

(** Sum of [f 0], ..., [f (n-1)]. *)
Fixpoint sum_upto (n : nat) (f : Z -> R) : R :=
  match n with
  | O => 0%R
  | S n' => (sum_upto n' f + f (Z.of_nat n'))%R
  end.

(** Sum over the first [ndim] axes. *)
Definition sum_axes (ndim : Z) (f : Z -> R) : R := sum_upto (Z.to_nat ndim) f.

(** The sum [k_sq] over the first [ndim] axes of the squared components of
    the wavevector of mode [i]. *)
Definition k_sq (t : TurbGenData) (i : Z) : R :=
  sum_axes (ndim t) (fun j => mode t j i * mode t j i)%R.

(** The Gaussian deviates drawn in succession from a state [w]: the
    [n]-th one and the state after [n] draws. *)
Fixpoint after_grn (n : nat) (w : World) : World :=
  match n with
  | O => w
  | S n' => snd (TurbGen_grn (after_grn n' w))
  end.

Definition nth_grn (n : nat) (w : World) : R := fst (TurbGen_grn (after_grn n w)).

(** The phase [kx*x + ky*y + kz*z] of mode [m] at a position, and the
    contribution of the mode to component [c] of the field. *)
Definition mode_phase (t : TurbGenData) (m : Z) (x y z : R) : R :=
  (mode t Axis.X m * x + mode t Axis.Y m * y + mode t Axis.Z m * z)%R.

Definition fourier_term (t : TurbGenData) (c : Z) (x y z : R) (m : Z) : R :=
  (2 * sol_weight_norm t * ampl t m
   * (aka t c m * cos (mode_phase t m x y z)
      - akb t c m * sin (mode_phase t m x y z)))%R.

(** Entry [m] of the tables holds the sines and cosines of mode [m] at the
    position [(x,y,z)]. *)
Definition table_entry_ok (t : TurbGenData) (x y z : R) (tb : TrigTables) (m : Z)
  : Prop :=
  (sinx tb m = sin (mode t Axis.X m * x) /\ cosx tb m = cos (mode t Axis.X m * x) /\
   siny tb m = sin (mode t Axis.Y m * y) /\ cosy tb m = cos (mode t Axis.Y m * y) /\
   sinz tb m = sin (mode t Axis.Z m * z) /\ cosz tb m = cos (mode t Axis.Z m * z))%R.

(** [w] with [tgd.OUphases] replaced. *)
Definition with_phases (w : World) (ph : array R) : World :=
  set_tgd w (set_OUphases (tgd w) ph).

(** The value that an OU update with damping factor [f], started in [w],
    assigns to phase slot [i]: the deviate used is the one of the [i]-th
    call of [TurbGen_grn], counted from 0. *)
Definition updated_phase (w : World) (f : R) (i : Z) : R :=
  (OUphases (tgd w) i * f
   + sqrt (1 - f * f) * OUvar (tgd w) * nth_grn (Z.to_nat i) w)%R.

(** The calls of the uniform generators made while [f] runs from [w]. *)
Definition calls_during (f : World -> World) (w : World) : list rng_call :=
  skipn (List.length (rng_calls w)) (rng_calls (f w)).

(** ** A concrete state

    One dimension, unit box, Band spectrum, band [[1, 10]], one mode of
    wavevector [(2 pi, 0, 0)], seed 140281, at OU step 0. *)
Definition example_tgd : TurbGenData :=
  {|
    debug := false; PE := 0; parameter_file := "turbulence_generator.inp"%string;
    n_modes := 1; OUvar := 1%R;
    mode := fun c m => if (c =? 0) && (m =? 0) then (2 * PI)%R else 0%R;
    aka := fun _ _ => 0%R; akb := fun _ _ => 0%R;
    OUphases := fun _ => 0%R; ampl := fun _ => 1%R;
    ndim := 1; random_seed := 140281; seed := 140281; spect_form := 0;
    nsteps_per_turnover_time := 10; step := 0;
    xmin := 0%R; xmax := 1%R; ymin := 0%R; ymax := 1%R; zmin := 0%R; zmax := 1%R;
    Lx := 1%R; decay := 1%R; dt := (/ 10)%R; energy := 1%R;
    stir_min := 1%R; stir_max := 10%R;
    sol_weight := 1%R; sol_weight_norm := 3%R;
    velocity := 1%R; power_law_exp := (-2)%R; angles_exp := 2%R
  |}.

Definition example_world : World :=
  {| tgd := example_tgd; ran2_static := ran2_static_init; rng_calls := [] |}.

(** [t] with [tgd.aka] and [tgd.akb] replaced. *)
Definition with_coeffs (t : TurbGenData) (a b : Z -> array R) : TurbGenData :=
  set_akb (set_aka t a) b.

(** The projections of the phases of mode [i] on its wavevector, over the
    first [ndim] axes: [proj_a] uses the slots [6*i+2*j+1], [proj_b] the
    slots [6*i+2*j+0]. *)
Definition proj_a (t : TurbGenData) (i : Z) : R :=
  sum_axes (ndim t) (fun j => mode t j i * OUphases t (phase_index i j 1))%R.

Definition proj_b (t : TurbGenData) (i : Z) : R :=
  sum_axes (ndim t) (fun j => mode t j i * OUphases t (phase_index i j 0))%R.

(** The coefficients that the decomposition assigns to axis [j] of mode
    [i]. *)
Definition aka_of (t : TurbGenData) (i j : Z) : R :=
  let divb := (mode t j i * proj_b t i / k_sq t i)%R in
  let curla := (OUphases t (phase_index i j 0) - divb)%R in
  (sol_weight t * curla + (1 - sol_weight t) * divb)%R.

Definition akb_of (t : TurbGenData) (i j : Z) : R :=
  let diva := (mode t j i * proj_a t i / k_sq t i)%R in
  let curlb := (OUphases t (phase_index i j 1) - diva)%R in
  (sol_weight t * curlb + (1 - sol_weight t) * diva)%R.

(** ** The mode set as a sequence

    One entry of the mode table: amplitude and wavevector. *)
Record Mode : Type := mkMode {
  m_ampl : R;
  m_kx : R;
  m_ky : R;
  m_kz : R
}.

Definition no_mode : Mode := mkMode 0 0 0 0.

(** [t] with [tgd.n_modes], [tgd.ampl] and [tgd.mode] replaced. *)
Definition with_modes (t : TurbGenData) (n : Z) (am : array R) (md : Z -> array R)
  : TurbGenData :=
  set_mode (set_ampl (set_n_modes t n) am) md.

(** The arrays [am] and [md] hold the sequence [l] in their first
    [length l] entries and are those of [t] everywhere else. *)
Definition holds_modes (t : TurbGenData) (l : list Mode) (am : array R)
  (md : Z -> array R) : Prop :=
  (forall i, 0 <= i < Z.of_nat (List.length l) ->
     am i = m_ampl (nth (Z.to_nat i) l no_mode) /\
     md Axis.X i = m_kx (nth (Z.to_nat i) l no_mode) /\
     md Axis.Y i = m_ky (nth (Z.to_nat i) l no_mode) /\
     md Axis.Z i = m_kz (nth (Z.to_nat i) l no_mode)) /\
  (forall i, ~ 0 <= i < Z.of_nat (List.length l) ->
     am i = ampl t i /\ forall c, md c i = mode t c i).

(** The sequence of modes that the Band/Parabola enumeration retains, in
    the order of the enumeration, built by appending: the innermost body,
    with the local [amplitude] carried along as in [gen_body]. *)
Definition seq_body (t : TurbGenData) (parab_prefact kc kx ky Lz : R) (ikz : Z)
  (s : list Mode * R) : list Mode * R :=
  let '(l, amplitude) := s in
  let kz := wavenumber Lz ikz in
  let k := magnitude kx ky kz in
  if in_band t k then
    let amplitude := if spect_form t =? 0 then 1%R else amplitude in
    let amplitude :=
      if spect_form t =? 1
      then CMath.fabs (parab_prefact * CMath.pow (k - kc) 2 + 1)%R
      else amplitude in
    let amplitude :=
      (sqrt amplitude
       * CMath.pow (kc / k) (CMath.of_int (CInt.sub (ndim t) 1) / 2))%R in
    let l := l ++ [mkMode amplitude kx ky kz] in
    let l := if ndim t >? 1 then l ++ [mkMode amplitude kx (- ky) kz] else l in
    let l :=
      if ndim t >? 2
      then l ++ [mkMode amplitude kx ky (- kz); mkMode amplitude kx (- ky) (- kz)]
      else l in
    (l, amplitude)
  else s.

Definition seq_pass (t : TurbGenData) (parab_prefact kc Lx Ly Lz : R)
  (ikxmax ikymax ikzmax : Z) (s : list Mode * R) : list Mode * R :=
  for_loop 0 (ikxmax + 1)
    (fun ikx s =>
       let kx := wavenumber Lx ikx in
       for_loop 0 (ikymax + 1)
         (fun iky s =>
            let ky := wavenumber Ly iky in
            for_loop 0 (ikzmax + 1) (seq_body t parab_prefact kc kx ky Lz) s) s) s.

(** The locals of [TurbGen_init_modes] that depend on [tgd] only. *)
Definition parab_prefact_of (t : TurbGenData) : R :=
  (- 4 / CMath.pow (stir_max t - stir_min t) 2)%R.

Definition kc_of (t : TurbGenData) : R :=
  if spect_form t =? 1 then (/ 2 * (stir_min t + stir_max t))%R else stir_min t.

Definition ikymax_of (t : TurbGenData) : Z := if ndim t >? 1 then 256 else 0.
Definition ikzmax_of (t : TurbGenData) : Z := if ndim t >? 2 then 256 else 0.

(** The sequence of modes of the Band/Parabola enumeration for [t]. *)
Definition mode_sequence (amplitude0 : R) (t : TurbGenData) : list Mode :=
  fst (seq_pass t (parab_prefact_of t) (kc_of t)
         (xmax t - xmin t) (ymax t - ymin t) (zmax t - zmin t)
         256 (ikymax_of t) (ikzmax_of t) ([], amplitude0)).

(** A wavevector as the mode set builder produces it for [t]: its
    magnitude passes the band test, and its components on the axes beyond
    [ndim] are zero. *)
Definition mode_ok (t : TurbGenData) (kx ky kz : R) : Prop :=
  in_band t (magnitude kx ky kz) = true /\
  (ndim t <= 1 -> ky = 0%R) /\
  (ndim t <= 2 -> kz = 0%R).

(** Result of the counting body on the count [c], for a wavevector of
    magnitude [k]. *)
Definition count_next (t : TurbGenData) (k : R) (c : Z) : Z :=
  if in_band t k then
    let c := CInt.add c 1 in
    let c := if ndim t >? 1 then CInt.add c 1 else c in
    if ndim t >? 2 then CInt.add c 2 else c
  else c.

(** The state [tg] of the generation pass holds the sequence [l]: it is
    the initial [t] with [n_modes] the index of the last entry of [l] and
    with [l] stored in the arrays. *)
Definition arrays_hold (t : TurbGenData) (l : list Mode) (tg : TurbGenData) : Prop :=
  exists am md,
    tg = with_modes t (Z.of_nat (List.length l) - 1) am md /\ holds_modes t l am md.

Definition modes_ok (t : TurbGenData) (l : list Mode) : Prop :=
  Forall (fun m => mode_ok t (m_kx m) (m_ky m) (m_kz m)) l.

(** The relation kept between the counting pass, the generation pass and
    the sequence builder while they run over the same lattice points: the
    count is the length of the sequence, the arrays hold the sequence, the
    length is at most [B], and every entry is a mode as produced for
    [t]. *)
Definition enum_inv (t : TurbGenData) (B : Z) (tc : TurbGenData)
  (sg : TurbGenData * R) (sl : list Mode * R) : Prop :=
  snd sg = snd sl /\
  tc = set_n_modes t (Z.of_nat (List.length (fst sl))) /\
  arrays_hold t (fst sl) (fst sg) /\
  Z.of_nat (List.length (fst sl)) <= B /\
  modes_ok t (fst sl).

(** The invariant of the power-law sampling, started from [t]: the state
    differs from [t] in the seed and in the mode table only, the index
    [n_modes] of the last entry stays below the capacity, and every entry
    up to it is a mode as produced for [t]. *)
Definition powerlaw_inv (t : TurbGenData) (w : World) : Prop :=
  exists n am md s,
    tgd w = set_seed (with_modes t n am md) s /\
    -1 <= n <= tgd_max_n_modes /\
    forall i, 0 <= i <= n -> mode_ok t (md Axis.X i) (md Axis.Y i) (md Axis.Z i).

(** The global [tgd] before initialisation: static storage, zero-filled. *)
Definition tgd_zero : TurbGenData :=
  {|
    debug := false; PE := 0; parameter_file := EmptyString;
    n_modes := 0; OUvar := 0%R;
    mode := fun _ _ => 0%R; aka := fun _ _ => 0%R; akb := fun _ _ => 0%R;
    OUphases := fun _ => 0%R; ampl := fun _ => 0%R;
    ndim := 0; random_seed := 0; seed := 0; spect_form := 0;
    nsteps_per_turnover_time := 0; step := 0;
    xmin := 0%R; xmax := 0%R; ymin := 0%R; ymax := 0%R; zmin := 0%R; zmax := 0%R;
    Lx := 0%R; decay := 0%R; dt := 0%R; energy := 0%R;
    stir_min := 0%R; stir_max := 0%R;
    sol_weight := 0%R; sol_weight_norm := 0%R;
    velocity := 0%R; power_law_exp := 0%R; angles_exp := 0%R
  |}.

Definition world_start : World :=
  {| tgd := tgd_zero; ran2_static := ran2_static_init; rng_calls := [] |}.

(** A parameter file: one dimension, unit box, Band spectrum with
    [k_min = 1], [k_max = 3], seed 140281. *)
Definition example_parameters : ParameterFile :=
  {|
    p_ndim := 1;
    p_xmin := 0%R; p_xmax := 1%R;
    p_ymin := 0%R; p_ymax := 1%R;
    p_zmin := 0%R; p_zmax := 1%R;
    p_velocity := 1%R;
    p_k_driv := 2%R; p_k_min := 1%R; p_k_max := 3%R;
    p_sol_weight := (/ 2)%R;
    p_spect_form := 0;
    p_power_law_exp := (-2)%R;
    p_angles_exp := 2%R;
    p_energy_coeff := (5 / 1000)%R;
    p_random_seed := 140281;
    p_nsteps_per_turnover_time := 10
  |}.

(** The number of modes that one retained lattice point contributes: the
    point itself, its mirror in y when [ndim > 1], and the two mirrors in z
    when [ndim > 2]. *)
Definition mirror_multiplicity (t : TurbGenData) : Z :=
  1 + (if ndim t >? 1 then 1 else 0) + (if ndim t >? 2 then 2 else 0).

(** The number of lattice points of the enumeration whose wavevector
    passes the band test. *)
Definition retained_body (t : TurbGenData) (kx ky Lz : R) (ikz : Z) (c : Z) : Z :=
  if in_band t (magnitude kx ky (wavenumber Lz ikz)) then c + 1 else c.

Definition retained_points (t : TurbGenData) : Z :=
  for_loop 0 (256 + 1)
    (fun ikx c =>
       let kx := wavenumber (xmax t - xmin t) ikx in
       for_loop 0 (ikymax_of t + 1)
         (fun iky c =>
            let ky := wavenumber (ymax t - ymin t) iky in
            for_loop 0 (ikzmax_of t + 1)
              (retained_body t kx ky (zmax t - zmin t)) c) c) 0.

(** ** Further notions used in the properties *)

(** The statics of [TurbGen_ran2] are in the range that the generator
    maintains: [idum2] is a state of the second congruential sequence,
    [iy] is zero (as initialised) or a former output, and the 32 entries of
    the shuffle table are zero or states of the first sequence. *)
Definition ran2_state_ok (st : Ran2Static) : Prop :=
  1 <= idum2 st <= Ran2.IM2 - 1 /\
  0 <= iy st <= Ran2.IMM1 /\
  forall j, 0 <= j < Ran2.NTAB -> 0 <= iv st j <= Ran2.IM1 - 1.

(** [w] with [tgd.aka] and [tgd.akb] replaced. *)
Definition world_with_coeffs (w : World) (a b : Z -> array R) : World :=
  set_tgd w (with_coeffs (tgd w) a b).

(** The concrete state [example_tgd] after the assignments of the
    initialisation for [example_parameters]: natural mixture
    ([sol_weight = 1/2]), band [[1, 3]]. *)
Definition example_mix_tgd : TurbGenData :=
  init_parameters "turbulence_generator.inp" 0 example_parameters example_tgd.

(** The coefficients of [t] are the decomposition of its current phases,
    on every mode below [n_modes] and every axis below [ndim]. *)
Definition coeffs_current (t : TurbGenData) : Prop :=
  forall i j, 0 <= i < n_modes t -> 0 <= j < ndim t ->
    aka t j i = aka_of t i j /\ akb t j i = akb_of t i j.

(** The amplitude that the Band/Parabola enumeration gives to a wavevector
    of magnitude [k]; [amplitude] is the value that the local variable
    holds before. *)
Definition mode_amplitude (t : TurbGenData) (parab_prefact kc k amplitude : R) : R :=
  let amplitude := if spect_form t =? 0 then 1%R else amplitude in
  let amplitude :=
    if spect_form t =? 1
    then CMath.fabs (parab_prefact * CMath.pow (k - kc) 2 + 1)%R
    else amplitude in
  (sqrt amplitude * CMath.pow (kc / k) (CMath.of_int (CInt.sub (ndim t) 1) / 2))%R.

(** A wavevector of the lattice of the box of [t]: each component is an
    integer multiple of [2 pi / L] for the box length [L] of its axis. *)
Definition lattice_vector (t : TurbGenData) (kx ky kz : R) : Prop :=
  exists ix iy iz : Z,
    kx = wavenumber (xmax t - xmin t) ix /\
    ky = wavenumber (ymax t - ymin t) iy /\
    kz = wavenumber (zmax t - zmin t) iz.

(** [t] with the five fields that evolve in time replaced: the phases, the
    coefficients, the seed and the step counter. *)
Definition with_dynamic (t : TurbGenData) (ph : array R) (a b : Z -> array R)
  (s stp : Z) : TurbGenData :=
  set_step (set_seed (with_coeffs (set_OUphases t ph) a b) s) stp.

(** The state of the generators during the power-law sampling started in
    [w0]: only [TurbGen_ran2] has been called, [k + 1] times; its statics
    are in range; and [tgd.seed] has advanced by [k] steps of the first
    congruential sequence. *)
Definition powerlaw_rng_inv (w0 w : World) : Prop :=
  exists k : nat,
    rng_calls w = rng_calls w0 ++ repeat call_ran2 (S k) /\
    ran2_state_ok (ran2_static w) /\
    seed (tgd w) = Nat.iter k Ran2.step1 (seed (tgd w0)).

(** A state with a power-law spectrum in one dimension whose band
    [[6, 8]] holds one shell, [ik = 1], in the unit box: the wavenumber of
    that shell is [2 pi], and [nang = 2 * ceil(1^2) = 2] angles are
    sampled. *)
Definition example_powerlaw_tgd : TurbGenData :=
  {|
    debug := false; PE := 0; parameter_file := "turbulence_generator.inp"%string;
    n_modes := 0; OUvar := 1%R;
    mode := fun _ _ => 0%R; aka := fun _ _ => 0%R; akb := fun _ _ => 0%R;
    OUphases := fun _ => 0%R; ampl := fun _ => 0%R;
    ndim := 1; random_seed := 140281; seed := 140281; spect_form := 2;
    nsteps_per_turnover_time := 10; step := -1;
    xmin := 0%R; xmax := 1%R; ymin := 0%R; ymax := 1%R; zmin := 0%R; zmax := 1%R;
    Lx := 1%R; decay := 1%R; dt := (/ 10)%R; energy := 1%R;
    stir_min := 6%R; stir_max := 8%R;
    sol_weight := (/ 2)%R; sol_weight_norm := 3%R;
    velocity := 1%R; power_law_exp := (-2)%R; angles_exp := 2%R
  |}.

Definition example_powerlaw_world : World :=
  {| tgd := example_powerlaw_tgd; ran2_static := ran2_static_init; rng_calls := [] |}.

(** The state during the power-law sampling of the shell [ik] in one
    dimension, after [c] angular samples.  The sampling of the shell
    started with the parameters of [t], with [n0] as index of the last
    entry of the mode table and with the calls [calls] made so far.  Each
    sample has drawn twice from [TurbGen_ran2] and has stored one mode,
    [+-2 pi ik / Lx] along x. *)
Definition powerlaw_1d_inv (t : TurbGenData) (Lx : R) (ik n0 : Z)
  (calls : list rng_call) (c : nat) (w : World) : Prop :=
  exists am md s,
    tgd w = set_seed (with_modes t (n0 + Z.of_nat c) am md) s /\
    1 <= s <= Ran2.IM1 - 1 /\
    ran2_state_ok (ran2_static w) /\
    rng_calls w = calls ++ repeat call_ran2 (2 * c) /\
    forall i, n0 < i <= n0 + Z.of_nat c ->
      Rabs (md Axis.X i) = wavenumber Lx ik /\
      md Axis.Y i = 0%R /\ md Axis.Z i = 0%R.

(** The mode table during the power-law sampling started from [t]: the
    state differs from [t] in the seed and the mode table only, the index
    [n_modes] of the last entry is at most
    [tgd_max_n_modes - 2^(ndim-1) + 1], and the entries beyond it are
    those of [t]. *)
Definition powerlaw_bound_inv (t : TurbGenData) (w : World) : Prop :=
  exists n am md s,
    tgd w = set_seed (with_modes t n am md) s /\
    -1 <= n <= tgd_max_n_modes - 2 ^ (ndim t - 1) + 1 /\
    forall i, ~ 0 <= i <= n -> am i = ampl t i /\ forall c, md c i = mode t c i.

(** ** Reading the parameter file

    [TurbGen_init_turbulence_generator] above takes the eighteen values of
    the parameter file as its argument; this part is how the code reads
    them.  A text is a [string] without the terminating NUL.  The content
    of a file is the list of its lines as [getline] returns them, each
    with its newline if it has one; a file that cannot be opened is
    [None].  The conversions [atoi] and [atof] of the C library are
    parameters of the model. *)

(** Outcome of a routine that may call [exit(-1)] or run into undefined
    behaviour. *)
Inductive outcome (A : Type) : Type :=
| Returns : A -> outcome A
| Exits : outcome A
| Undefined : outcome A.
Arguments Returns {A} _.
Arguments Exits {A}.
Arguments Undefined {A}.

(** [strstr(haystack, needle)]: the first suffix of [haystack] that starts
    with [needle], or [None] for the null pointer. *)
Fixpoint strstr (haystack needle : string) : option string :=
  if String.prefix needle haystack then Some haystack
  else match haystack with
       | EmptyString => None
       | String _ rest => strstr rest needle
       end.

(** The macro [MAX] on [size_t]. *)
Definition MAX_size (a b : nat) : nat := if (b <? a)%nat then a else b.

(** The statements from [strstr(line, "=")] to [strncpy]: the content of
    [dest], and the number of characters copied into it.  A line without
    ['='] passes a null pointer to [strstr]; a count that is negative or
    above 100 writes outside [dest]. *)
Definition extract_value (line : string) : outcome (string * Z) :=
  match strstr line "=" with
  | None => Undefined
  | Some substr1 =>
    let substr2 := strstr substr1 "!" in
    let substr3 := strstr substr1 "#" in
    let end_index := CInt.wrap (Z.of_nat (String.length substr1)) in
    let end_index :=
      match substr2, substr3 with
      | Some s2, Some s3 =>
        CInt.wrap (end_index - Z.of_nat (MAX_size (String.length s2) (String.length s3)))
      | _, _ =>
        let end_index :=
          match substr2 with
          | Some s2 => CInt.wrap (end_index - Z.of_nat (String.length s2))
          | None => end_index
          end in
        match substr3 with
        | Some s3 => CInt.wrap (end_index - Z.of_nat (String.length s3))
        | None => end_index
        end
      end in
    let count := CInt.sub end_index 1 in
    if (count <? 0) || (100 <? count) then Undefined
    else Returns (substring 1 (Z.to_nat count) substr1, count)
  end.

(** What a call stores through [ret]. *)
Inductive parameter_value : Type :=
| int_value : Z -> parameter_value
| double_value : R -> parameter_value
| no_value : parameter_value.

Section ParameterFileReading.

Variable atoi : string -> Z.
Variable atof : string -> R.

(** The body of the [if (strncmp(...) == 0)] block.  With 100 characters
    copied, [dest] has no terminating NUL and the conversion reads past its
    end. *)
Definition convert_value (type : ascii) (line : string) : outcome parameter_value :=
  match extract_value line with
  | Returns (dest, count) =>
    if Ascii.eqb type "i" then
      if count =? 100 then Undefined else Returns (int_value (atoi dest))
    else if Ascii.eqb type "d" then
      if count =? 100 then Undefined else Returns (double_value (atof dest))
    else Returns no_value
  | Exits => Exits
  | Undefined => Undefined
  end.

(** The [while (getline ...)] loop: the first line that starts with
    [search] is converted and ends the loop; without such a line the
    routine exits. *)
Fixpoint read_lines (lines : list string) (search : string) (type : ascii)
  : outcome parameter_value :=
  match lines with
  | [] => Exits
  | line :: rest =>
    if String.prefix search line then convert_value type line
    else read_lines rest search type
  end.

(** [int TurbGen_read_from_parameter_file(char * search, char type, void * ret)],
    for the content [file] of [tgd.parameter_file]. *)
Definition TurbGen_read_from_parameter_file (file : option (list string))
  (search : string) (type : ascii) : outcome parameter_value :=
  match file with
  | None => Exits
  | Some lines => read_lines lines search type
  end.

End ParameterFileReading.

(** The character [c] occurs in [s]. *)
Fixpoint occurs (c : ascii) (s : string) : bool :=
  match s with
  | EmptyString => false
  | String a rest => Ascii.eqb a c || occurs c rest
  end.

(** The text of [s] up to its first ['!'] or ['#']. *)
Fixpoint value_text (s : string) : string :=
  match s with
  | EmptyString => EmptyString
  | String a rest =>
    if Ascii.eqb a "!" || Ascii.eqb a "#" then EmptyString
    else String a (value_text rest)
  end.

Definition bind_outcome {A B : Type} (o : outcome A) (f : A -> outcome B) : outcome B :=
  match o with
  | Returns a => f a
  | Exits => Exits
  | Undefined => Undefined
  end.

(** The content of an [int], respectively [double], variable after a call
    that was given its address: the value stored, or its former content
    [old] when the call stored nothing. *)
Definition stored_int (v : parameter_value) (old : Z) : Z :=
  match v with
  | int_value z => z
  | _ => old
  end.

Definition stored_double (v : parameter_value) (old : R) : R :=
  match v with
  | double_value x => x
  | _ => old
  end.

(** The names that [TurbGen_init_turbulence_generator] looks up, in the
    order of the calls, each with its type character. *)
Definition parameter_names : list (string * ascii) :=
  [ ("ndim"%string, "i"%char); ("xmin"%string, "d"%char); ("xmax"%string, "d"%char);
    ("ymin"%string, "d"%char); ("ymax"%string, "d"%char); ("zmin"%string, "d"%char);
    ("zmax"%string, "d"%char); ("velocity"%string, "d"%char);
    ("k_driv"%string, "d"%char); ("k_min"%string, "d"%char); ("k_max"%string, "d"%char);
    ("sol_weight"%string, "d"%char); ("spect_form"%string, "i"%char);
    ("power_law_exp"%string, "d"%char); ("angles_exp"%string, "d"%char);
    ("energy_coeff"%string, "d"%char); ("random_seed"%string, "i"%char);
    ("nsteps_per_turnover_time"%string, "i"%char) ].

Section Initialisation.

Variable atoi : string -> Z.
Variable atof : string -> R.

(** The eighteen calls of [TurbGen_read_from_parameter_file] in
    [TurbGen_init_turbulence_generator]: [t] is [tgd] before the calls and
    [local0] the content of the uninitialised locals [k_driv], [k_min],
    [k_max] and [energy_coeff]. *)
Definition read_parameters (file : option (list string)) (t : TurbGenData) (local0 : R)
  : outcome ParameterFile :=
  let read := TurbGen_read_from_parameter_file atoi atof file in
  bind_outcome (read "ndim"%string "i"%char) (fun v_ndim =>
  bind_outcome (read "xmin"%string "d"%char) (fun v_xmin =>
  bind_outcome (read "xmax"%string "d"%char) (fun v_xmax =>
  bind_outcome (read "ymin"%string "d"%char) (fun v_ymin =>
  bind_outcome (read "ymax"%string "d"%char) (fun v_ymax =>
  bind_outcome (read "zmin"%string "d"%char) (fun v_zmin =>
  bind_outcome (read "zmax"%string "d"%char) (fun v_zmax =>
  bind_outcome (read "velocity"%string "d"%char) (fun v_velocity =>
  bind_outcome (read "k_driv"%string "d"%char) (fun v_k_driv =>
  bind_outcome (read "k_min"%string "d"%char) (fun v_k_min =>
  bind_outcome (read "k_max"%string "d"%char) (fun v_k_max =>
  bind_outcome (read "sol_weight"%string "d"%char) (fun v_sol_weight =>
  bind_outcome (read "spect_form"%string "i"%char) (fun v_spect_form =>
  bind_outcome (read "power_law_exp"%string "d"%char) (fun v_power_law_exp =>
  bind_outcome (read "angles_exp"%string "d"%char) (fun v_angles_exp =>
  bind_outcome (read "energy_coeff"%string "d"%char) (fun v_energy_coeff =>
  bind_outcome (read "random_seed"%string "i"%char) (fun v_random_seed =>
  bind_outcome (read "nsteps_per_turnover_time"%string "i"%char) (fun v_nsteps =>
  Returns
    {| p_ndim := stored_int v_ndim (ndim t);
       p_xmin := stored_double v_xmin (xmin t);
       p_xmax := stored_double v_xmax (xmax t);
       p_ymin := stored_double v_ymin (ymin t);
       p_ymax := stored_double v_ymax (ymax t);
       p_zmin := stored_double v_zmin (zmin t);
       p_zmax := stored_double v_zmax (zmax t);
       p_velocity := stored_double v_velocity (velocity t);
       p_k_driv := stored_double v_k_driv local0;
       p_k_min := stored_double v_k_min local0;
       p_k_max := stored_double v_k_max local0;
       p_sol_weight := stored_double v_sol_weight (sol_weight t);
       p_spect_form := stored_int v_spect_form (spect_form t);
       p_power_law_exp := stored_double v_power_law_exp (power_law_exp t);
       p_angles_exp := stored_double v_angles_exp (angles_exp t);
       p_energy_coeff := stored_double v_energy_coeff local0;
       p_random_seed := stored_int v_random_seed (random_seed t);
       p_nsteps_per_turnover_time :=
         stored_int v_nsteps (nsteps_per_turnover_time t) |})))))))))))))))))).

(** [int TurbGen_init_turbulence_generator(char * parameter_file, const int PE)]
    from the opening of the file on: [files] gives the content of each
    file by name, and does not change during the call. *)
Definition TurbGen_init_turbulence_generator_file
  (files : string -> option (list string)) (parameter_file : string) (pe : Z)
  (local0 : R) (w : World) : outcome World :=
  match files parameter_file with
  | None => Exits
  | Some _ =>
    bind_outcome (read_parameters (files parameter_file) (tgd w) local0) (fun p =>
    match TurbGen_init_turbulence_generator parameter_file pe p w with
    | Ok w' => Returns w'
    | Exit => Exits
    end)
  end.

End Initialisation.

(** A complete parameter file. *)
Definition example_parameter_file : list string :=
  map (fun s => String.append s (String "010" EmptyString))
    [ "# turbulence generator parameters"%string;
      "ndim = 1 ! number of dimensions"%string;
      "xmin = 0.0"%string; "xmax = 1.0"%string;
      "ymin = 0.0"%string; "ymax = 1.0"%string;
      "zmin = 0.0"%string; "zmax = 1.0"%string;
      "velocity = 1.0 # velocity dispersion"%string;
      "k_driv = 2.0"%string; "k_min = 1.0"%string; "k_max = 3.0"%string;
      "sol_weight = 0.5"%string;
      "spect_form = 1"%string;
      "power_law_exp = -2.0"%string;
      "angles_exp = 1.0"%string;
      "energy_coeff = 5e-3"%string;
      "random_seed = 140281"%string;
      "nsteps_per_turnover_time = 10"%string ].

(** * Properties *)

(** ** Integers *)

Lemma wrap_id (z : Z) : CInt.in_int z -> CInt.wrap z = z.
Proof.
  unfold CInt.in_int, CInt.int_min, CInt.int_max, CInt.wrap. intros H.
  rewrite Z.mod_small; lia.
Qed.

Lemma wrap_in_int (z : Z) : CInt.in_int (CInt.wrap z).
Proof.
  unfold CInt.in_int, CInt.int_min, CInt.int_max, CInt.wrap.
  pose proof (Z.mod_pos_bound (z + 2 ^ 31) (2 ^ 32) ltac:(lia)). lia.
Qed.

Lemma Ztrunc_IZR (z : Z) : CMath.Ztrunc (IZR z) = z.
Proof.
  unfold CMath.Ztrunc. destruct (CMath.leb 0 (IZR z)).
  - apply ZfloorZ.
  - replace (IZR z) with (- IZR (- z))%R by (rewrite opp_IZR; lra).
    rewrite ZceilN, ZfloorZ. lia.
Qed.

Lemma to_int_floor (x : R) :
  CInt.in_int (Zfloor x) -> CMath.to_int (CMath.floor x) = Zfloor x.
Proof.
  intros H. unfold CMath.to_int, CMath.floor. rewrite Ztrunc_IZR.
  now apply wrap_id.
Qed.

Lemma leb_true_iff (x y : R) : CMath.leb x y = true <-> (x <= y)%R.
Proof. unfold CMath.leb. destruct (Rle_dec x y); split; intros; congruence || easy. Qed.

(** ** Loops *)

Lemma for_count_ind {St : Type} (P : Z -> St -> Prop) (body : Z -> St -> St) (n : nat) :
  forall (i : Z) (s : St),
    P i s ->
    (forall j s', i <= j < i + Z.of_nat n -> P j s' -> P (j + 1) (body j s')) ->
    P (i + Z.of_nat n) (for_count n i body s).
Proof.
  induction n as [|n IH]; intros i s H0 Hstep.
  - simpl. now rewrite Z.add_0_r.
  - cbn [for_count].
    replace (i + Z.of_nat (S n)) with ((i + 1) + Z.of_nat n) by lia.
    apply IH.
    + apply Hstep; [lia | exact H0].
    + intros j s' Hj. apply Hstep. lia.
Qed.

Lemma for_loop_ind {St : Type} (P : Z -> St -> Prop) (body : Z -> St -> St) (lo hi : Z) (s : St) :
  lo <= hi ->
  P lo s ->
  (forall j s', lo <= j < hi -> P j s' -> P (j + 1) (body j s')) ->
  P hi (for_loop lo hi body s).
Proof.
  intros Hle H0 Hstep. unfold for_loop.
  replace hi with (lo + Z.of_nat (Z.to_nat (hi - lo))) at 1 by lia.
  apply for_count_ind; [exact H0 |].
  intros j s' Hj. apply Hstep. lia.
Qed.

Lemma for_loop_empty {St : Type} (body : Z -> St -> St) (lo hi : Z) (s : St) :
  hi <= lo -> for_loop lo hi body s = s.
Proof.
  intros H. unfold for_loop. replace (Z.to_nat (hi - lo)) with O by lia. reflexivity.
Qed.

(** An invariant that does not mention the index. *)
Lemma for_loop_inv {St : Type} (P : St -> Prop) (body : Z -> St -> St) (lo hi : Z) (s : St) :
  P s ->
  (forall j s', lo <= j < hi -> P s' -> P (body j s')) ->
  P (for_loop lo hi body s).
Proof.
  intros H0 Hstep. destruct (Z_le_gt_dec lo hi) as [Hle|Hgt].
  - apply (for_loop_ind (fun _ => P)); auto.
  - rewrite for_loop_empty by lia. exact H0.
Qed.

(** ** Field evaluation *)

Section FieldEvaluation.

Local Open Scope R_scope.

Variables (t : TurbGenData) (x y z : R).

Lemma fill_tables_ok (tb0 : TrigTables) (m : Z) :
  (0 <= m < n_modes t)%Z -> table_entry_ok t x y z (fill_tables tb0 x y z t) m.
Proof.
  intros Hm. unfold fill_tables.
  refine (for_loop_ind
            (fun j tb => forall m', (0 <= m' < j)%Z -> table_entry_ok t x y z tb m')
            _ 0%Z (n_modes t) tb0 _ _ _ m Hm); [lia | intros; lia |].
  intros j tb Hj IH m' Hm'.
  unfold table_entry_ok, trig_body, aset; cbn.
  destruct (Z.eqb_spec m' j) as [->|Hne].
  - repeat split; reflexivity.
  - apply IH. lia.
Qed.

Lemma real_imag_of_entry (tb : TrigTables) (m : Z) :
  table_entry_ok t x y z tb m ->
  real_part tb m = cos (mode_phase t m x y z) /\
  imag_part tb m = sin (mode_phase t m x y z).
Proof.
  intros (Hsx & Hcx & Hsy & Hcy & Hsz & Hcz).
  unfold real_part, imag_part, mode_phase.
  rewrite Hsx, Hcx, Hsy, Hcy, Hsz, Hcz.
  rewrite !cos_plus, !sin_plus, !cos_plus. split; ring.
Qed.

Lemma accumulate_modes (tb : TrigTables) :
  (forall m, (0 <= m < n_modes t)%Z -> table_entry_ok t x y z tb m) ->
  for_loop 0 (n_modes t) (turb_vector_body t tb) (0, 0, 0) =
  (sum_upto (Z.to_nat (n_modes t)) (fourier_term t Axis.X x y z),
   sum_upto (Z.to_nat (n_modes t)) (fourier_term t Axis.Y x y z),
   sum_upto (Z.to_nat (n_modes t)) (fourier_term t Axis.Z x y z)).
Proof.
  intros Htb. destruct (Z_le_gt_dec 0 (n_modes t)) as [Hle|Hgt].
  - apply (for_loop_ind
             (fun j v => v = (sum_upto (Z.to_nat j) (fourier_term t Axis.X x y z),
                              sum_upto (Z.to_nat j) (fourier_term t Axis.Y x y z),
                              sum_upto (Z.to_nat j) (fourier_term t Axis.Z x y z))));
      [exact Hle | reflexivity |].
    intros j v Hj ->.
    replace (Z.to_nat (j + 1)) with (S (Z.to_nat j)) by lia.
    cbn [sum_upto turb_vector_body]. rewrite Z2Nat.id by lia.
    destruct (real_imag_of_entry tb j (Htb j Hj)) as [-> ->].
    reflexivity.
  - rewrite for_loop_empty by lia.
    replace (Z.to_nat (n_modes t)) with O by lia. reflexivity.
Qed.

End FieldEvaluation.

(** C1.  At every position [(x,y,z)], whatever the local tables hold on
    entry, [TurbGen_get_turb_vector] returns in each component [c] the sum
    over the modes [m < n_modes] of
    [2*sol_weight_norm*ampl[m]*(aka[c][m]*cos(k_m.x) - akb[c][m]*sin(k_m.x))],
    and for each such mode the angle-addition expressions [real] and [imag]
    computed from the per-axis tables are [cos] and [sin] of
    [kx*x + ky*y + kz*z]. *)
Theorem C1_turb_vector_is_fourier_sum (tb0 : TrigTables) (x y z : R) (t : TurbGenData) :
  TurbGen_get_turb_vector_from tb0 x y z t =
    (sum_upto (Z.to_nat (n_modes t)) (fourier_term t Axis.X x y z),
     sum_upto (Z.to_nat (n_modes t)) (fourier_term t Axis.Y x y z),
     sum_upto (Z.to_nat (n_modes t)) (fourier_term t Axis.Z x y z))
  /\ TurbGen_get_turb_vector x y z t = TurbGen_get_turb_vector_from tb0 x y z t
  /\ forall m, 0 <= m < n_modes t ->
       real_part (fill_tables tb0 x y z t) m = cos (mode_phase t m x y z) /\
       imag_part (fill_tables tb0 x y z t) m = sin (mode_phase t m x y z).
Proof.
  assert (Hsum : forall tb,
             TurbGen_get_turb_vector_from tb x y z t =
             (sum_upto (Z.to_nat (n_modes t)) (fourier_term t Axis.X x y z),
              sum_upto (Z.to_nat (n_modes t)) (fourier_term t Axis.Y x y z),
              sum_upto (Z.to_nat (n_modes t)) (fourier_term t Axis.Z x y z))).
  { intros tb. unfold TurbGen_get_turb_vector_from.
    apply accumulate_modes. intros m Hm. now apply fill_tables_ok. }
  split; [apply Hsum | split].
  - unfold TurbGen_get_turb_vector. now rewrite !Hsum.
  - intros m Hm. apply real_imag_of_entry. now apply fill_tables_ok.
Qed.

(** ** Random number generators: the published sequences *)

(** The minimal-standard generator from state 1: 16807, 282475249, ... *)
Example ran1s_from_1 :
  Ran1s.next 1 = 16807 /\ Ran1s.next 16807 = 282475249
  /\ Ran1s.next 282475249 = 1622650073.
Proof. repeat split; reflexivity. Qed.

(** A state that is not positive is replaced before the step: 0 by 1, a
    negative state by its opposite. *)
Example ran1s_reseed :
  Ran1s.next 0 = Ran1s.next 1 /\ Ran1s.next (-5) = Ran1s.next 5.
Proof. split; reflexivity. Qed.

(** After 10000 steps from state 1 the minimal-standard generator is in
    state 1043618065 (Park and Miller's check value). *)
Example ran1s_check_value :
  Nat.iter (Z.to_nat 10000) Ran1s.next 1 = 1043618065.
Proof. vm_compute. reflexivity. Qed.

(** The first call of [TurbGen_ran2] with [idum = -1] and fresh statics
    leaves [iy = 612850790], that is the deviate 0.285381. *)
Example ran2_first_call :
  iy (ran2_static (snd (TurbGen_ran2 (-1) world_start))) = 612850790.
Proof. lazy. reflexivity. Qed.

(** ** Gaussian sampler and OU update *)

(** Unfolding of the record plumbing, and nothing else. *)
Ltac unfold_state :=
  lazy beta iota zeta delta
    [TurbGen_grn ran1s_tgd_seed TurbGen_ran1s record_call set_tgd set_seed
     set_OUphases set_step set_n_modes set_aka set_akb set_ampl set_mode
     with_phases fst snd tgd ran2_static rng_calls
     OU_noise_update_body OU_noise_init_body TurbGen_get_decomposition_coeffs
     debug PE parameter_file n_modes OUvar mode aka akb OUphases ampl ndim
     random_seed seed spect_form nsteps_per_turnover_time step xmin xmax ymin
     ymax zmin zmax Lx decay dt energy stir_min stir_max sol_weight
     sol_weight_norm velocity power_law_exp angles_exp].

Lemma grn_snd (w : World) :
  snd (TurbGen_grn w) =
  {| tgd := set_seed (tgd w) (Ran1s.next (Ran1s.next (seed (tgd w))));
     ran2_static := ran2_static w;
     rng_calls := rng_calls w ++ [call_ran1s; call_ran1s] |}.
Proof.
  unfold_state. rewrite <- app_assoc. reflexivity.
Qed.

Lemma grn_with_phases_fst (w : World) (ph : array R) :
  fst (TurbGen_grn (with_phases w ph)) = fst (TurbGen_grn w).
Proof. unfold_state. reflexivity. Qed.

Lemma grn_with_phases_snd (w : World) (ph : array R) :
  snd (TurbGen_grn (with_phases w ph)) = with_phases (snd (TurbGen_grn w)) ph.
Proof. unfold_state. reflexivity. Qed.

Lemma with_phases_twice (w : World) (ph ph' : array R) :
  with_phases (with_phases w ph) ph' = with_phases w ph'.
Proof. reflexivity. Qed.

Lemma with_phases_self (w : World) : with_phases w (OUphases (tgd w)) = w.
Proof. destruct w as [t r c]. destruct t. reflexivity. Qed.

Lemma OUphases_with_phases (w : World) (ph : array R) :
  OUphases (tgd (with_phases w ph)) = ph.
Proof. reflexivity. Qed.

Lemma OUvar_with_phases (w : World) (ph : array R) :
  OUvar (tgd (with_phases w ph)) = OUvar (tgd w).
Proof. reflexivity. Qed.

Lemma OU_noise_update_body_spec (f : R) (i : Z) (w : World) :
  OU_noise_update_body f i w =
  with_phases (snd (TurbGen_grn w))
    (aset (OUphases (tgd w)) i
       (OUphases (tgd w) i * f
        + sqrt (1 - f * f) * OUvar (tgd w) * fst (TurbGen_grn w))%R).
Proof. unfold_state. reflexivity. Qed.

Lemma after_grn_shape (n : nat) (w : World) :
  after_grn n w =
  {| tgd := set_seed (tgd w) (Nat.iter (2 * n) Ran1s.next (seed (tgd w)));
     ran2_static := ran2_static w;
     rng_calls := rng_calls w ++ repeat call_ran1s (2 * n) |}.
Proof.
  induction n as [|n IH].
  - destruct w as [t r c]. destruct t. cbn [after_grn]. unfold_state.
    cbn [Nat.mul Nat.iter repeat nat_rect]. now rewrite app_nil_r.
  - cbn [after_grn]. rewrite grn_snd, IH.
    replace (2 * S n)%nat with (S (S (2 * n))) by lia.
    cbn [Nat.iter repeat nat_rect].
    unfold_state. rewrite <- app_assoc.
    replace (repeat call_ran1s (2 * n) ++ [call_ran1s; call_ran1s])
      with (call_ran1s :: call_ran1s :: repeat call_ran1s (2 * n)).
    + reflexivity.
    + change [call_ran1s; call_ran1s] with (repeat call_ran1s 2).
      rewrite <- repeat_app.
      replace (2 * n + 2)%nat with (S (S (2 * n))) by lia. reflexivity.
Qed.

Lemma OUvar_after_grn (n : nat) (w : World) :
  OUvar (tgd (after_grn n w)) = OUvar (tgd w).
Proof. rewrite after_grn_shape. reflexivity. Qed.

Lemma step_after_grn (n : nat) (w : World) :
  step (tgd (after_grn n w)) = step (tgd w).
Proof. rewrite after_grn_shape. reflexivity. Qed.

(** The loop of the OU update, run over [n] slots: the generator state is
    the one after [n] Gaussian draws, and exactly the slots below [n] hold
    their updated value. *)
Lemma OU_update_loop (w : World) (f : R) (n : Z) :
  exists ph,
    for_loop 0 n (OU_noise_update_body f) w
    = with_phases (after_grn (Z.to_nat n) w) ph /\
    (forall i, 0 <= i < n -> ph i = updated_phase w f i) /\
    (forall i, ~ 0 <= i < n -> ph i = OUphases (tgd w) i).
Proof.
  destruct (Z_le_gt_dec 0 n) as [Hn|Hn].
  - apply (for_loop_ind
             (fun j s => exists ph,
                  s = with_phases (after_grn (Z.to_nat j) w) ph /\
                  (forall i, 0 <= i < j -> ph i = updated_phase w f i) /\
                  (forall i, ~ 0 <= i < j -> ph i = OUphases (tgd w) i)));
      [exact Hn | |].
    + exists (OUphases (tgd w)).
      change (after_grn (Z.to_nat 0) w) with w.
      rewrite with_phases_self.
      split; [reflexivity | split; [intros; lia | reflexivity]].
    + intros j s Hj (ph & -> & Hin & Hout).
      rewrite OU_noise_update_body_spec.
      rewrite grn_with_phases_fst, grn_with_phases_snd, with_phases_twice.
      rewrite OUphases_with_phases, OUvar_with_phases, OUvar_after_grn.
      replace (Z.to_nat (j + 1)) with (S (Z.to_nat j)) by lia.
      change (after_grn (S (Z.to_nat j)) w)
        with (snd (TurbGen_grn (after_grn (Z.to_nat j) w))).
      exists (aset ph j
           (ph j * f + sqrt (1 - f * f) * OUvar (tgd w)
                       * fst (TurbGen_grn (after_grn (Z.to_nat j) w)))%R).
      split; [reflexivity | split].
      * intros i Hi. unfold aset. destruct (Z.eqb_spec i j) as [->|Hne].
        -- unfold updated_phase, nth_grn. rewrite (Hout j) by lia. reflexivity.
        -- apply Hin. lia.
      * intros i Hi. unfold aset. destruct (Z.eqb_spec i j) as [->|Hne]; [lia|].
        apply Hout. lia.
  - rewrite for_loop_empty by lia.
    replace (Z.to_nat n) with O by lia.
    exists (OUphases (tgd w)). change (after_grn 0 w) with w.
    rewrite with_phases_self.
    split; [reflexivity | split; [intros; lia | reflexivity]].
Qed.

(** [TurbGen_OU_noise_update] as one assignment of the phases, the
    Gaussian draws, and the increment of [step]. *)
Lemma OU_noise_update_shape (w : World) :
  exists ph,
    TurbGen_OU_noise_update w =
    (let w1 := with_phases
                 (after_grn (Z.to_nat (CInt.mul 6 (n_modes (tgd w)))) w) ph in
     set_tgd w1 (set_step (tgd w1) (CInt.add (step (tgd w)) 1))) /\
    (forall i, 0 <= i < CInt.mul 6 (n_modes (tgd w)) ->
               ph i = updated_phase w (exp (- dt (tgd w) / decay (tgd w))) i) /\
    (forall i, ~ 0 <= i < CInt.mul 6 (n_modes (tgd w)) ->
               ph i = OUphases (tgd w) i).
Proof.
  destruct (OU_update_loop w (exp (- dt (tgd w) / decay (tgd w)))
              (CInt.mul 6 (n_modes (tgd w)))) as (ph & Heq & Hin & Hout).
  exists ph. split; [| split; assumption].
  unfold TurbGen_OU_noise_update. rewrite Heq.
  cbv zeta.
  replace (step (tgd (with_phases
                        (after_grn (Z.to_nat (CInt.mul 6 (n_modes (tgd w)))) w) ph)))
    with (step (tgd w)); [reflexivity |].
  symmetry. apply step_after_grn.
Qed.

Lemma mul6_n_modes (n : Z) :
  0 <= n <= tgd_max_n_modes -> CInt.mul 6 n = 6 * n.
Proof.
  unfold tgd_max_n_modes. intros H. unfold CInt.mul. apply wrap_id.
  unfold CInt.in_int, CInt.int_min, CInt.int_max. lia.
Qed.

Lemma add_one_no_overflow (s : Z) :
  CInt.in_int s -> s < CInt.int_max -> CInt.add s 1 = s + 1.
Proof.
  unfold CInt.in_int, CInt.add. intros H1 H2. apply wrap_id.
  unfold CInt.in_int. lia.
Qed.

(** C5.  One call of [TurbGen_OU_noise_update], in a state whose mode
    count is within the array capacity and whose step counter can be
    incremented as an [int], replaces each of the [6*n_modes] phase slots
    [i] by [phase*f + sqrt(1-f^2)*OUvar*g_i], where [f = exp(-dt/decay)] and
    [g_i] is the deviate returned by the [i]-th successive call of
    [TurbGen_grn]; it leaves every other slot as it was, and it increments
    [step] by exactly 1. *)
Theorem C5_OU_noise_update_step (w : World) :
  0 <= n_modes (tgd w) <= tgd_max_n_modes ->
  CInt.in_int (step (tgd w)) ->
  step (tgd w) < CInt.int_max ->
  let f := exp (- dt (tgd w) / decay (tgd w)) in
  let w' := TurbGen_OU_noise_update w in
  (forall i, 0 <= i < 6 * n_modes (tgd w) ->
     OUphases (tgd w') i =
     (OUphases (tgd w) i * f
      + sqrt (1 - f * f) * OUvar (tgd w) * nth_grn (Z.to_nat i) w)%R) /\
  (forall i, ~ 0 <= i < 6 * n_modes (tgd w) ->
     OUphases (tgd w') i = OUphases (tgd w) i) /\
  step (tgd w') = step (tgd w) + 1.
Proof.
  intros Hn Hs Hmax f w'.
  destruct (OU_noise_update_shape w) as (ph & Heq & Hin & Hout).
  rewrite (mul6_n_modes _ Hn) in Heq, Hin, Hout.
  subst w'. rewrite Heq. cbv zeta.
  split; [| split].
  - intros i Hi. transitivity (ph i); [reflexivity |].
    rewrite (Hin i Hi). reflexivity.
  - intros i Hi. transitivity (ph i); [reflexivity |]. exact (Hout i Hi).
  - transitivity (CInt.add (step (tgd w)) 1); [reflexivity |].
    exact (add_one_no_overflow _ Hs Hmax).
Qed.

Lemma C5_OU_noise_update_step_witness :
  OUphases (tgd (TurbGen_OU_noise_update example_world)) 3 =
    (OUphases (tgd example_world) 3%Z
       * exp (- dt (tgd example_world) / decay (tgd example_world))
     + sqrt (1 - exp (- dt (tgd example_world) / decay (tgd example_world))
                 * exp (- dt (tgd example_world) / decay (tgd example_world)))
       * OUvar (tgd example_world) * nth_grn 3%nat example_world)%R
  /\ step (tgd (TurbGen_OU_noise_update example_world)) = 1.
Proof.
  assert (Hn : 0 <= n_modes (tgd example_world) <= tgd_max_n_modes)
    by (vm_compute; split; discriminate).
  assert (Hs : CInt.in_int (step (tgd example_world)))
    by (vm_compute; split; discriminate).
  assert (Hmax : step (tgd example_world) < CInt.int_max) by reflexivity.
  destruct (C5_OU_noise_update_step example_world Hn Hs Hmax) as (Hin & _ & Hstep).
  split.
  - apply (Hin 3). vm_compute. split; [discriminate | reflexivity].
  - exact Hstep.
Defined.

(** The calls made by one OU update: two calls of [TurbGen_ran1s] for each
    phase slot, and nothing else; the statics of [TurbGen_ran2] are not
    touched. *)
Lemma OU_noise_update_calls (w : World) :
  calls_during TurbGen_OU_noise_update w
  = repeat call_ran1s (2 * Z.to_nat (CInt.mul 6 (n_modes (tgd w)))) /\
  ran2_static (TurbGen_OU_noise_update w) = ran2_static w.
Proof.
  destruct (OU_noise_update_shape w) as (ph & Heq & _ & _).
  unfold calls_during. rewrite Heq. cbv zeta.
  set (N := Z.to_nat (CInt.mul 6 (n_modes (tgd w)))).
  split.
  - transitivity (skipn (List.length (rng_calls w)) (rng_calls (after_grn N w)));
      [reflexivity |].
    rewrite after_grn_shape. cbn [rng_calls].
    rewrite skipn_app, skipn_all, Nat.sub_diag. reflexivity.
  - transitivity (ran2_static (after_grn N w)); [reflexivity |].
    rewrite after_grn_shape. reflexivity.
Qed.

(** C9, as stated, fails.  In the concrete state [example_world] (one
    mode), the calls made by [TurbGen_OU_noise_update] are twelve calls of
    [TurbGen_ran1s] and include no call of the long-period generator
    [TurbGen_ran2]. *)
Lemma C9_counterexample :
  calls_during TurbGen_OU_noise_update example_world = repeat call_ran1s 12 /\
  ~ In call_ran2 (calls_during TurbGen_OU_noise_update example_world).
Proof.
  rewrite (proj1 (OU_noise_update_calls example_world)).
  split; [reflexivity |].
  intros H. apply repeat_spec in H. discriminate H.
Qed.

(** C9, amended.  Every OU advance draws its noise through the Gaussian
    sampler alone, which calls the fast generator [TurbGen_ran1s] twice per
    deviate: the calls made by one [TurbGen_OU_noise_update] are exactly two
    calls of [TurbGen_ran1s] for each of the [6*n_modes] phase slots, none
    of them is a call of the long-period generator [TurbGen_ran2], and the
    static state of [TurbGen_ran2] is unchanged. *)
Theorem C9_OU_update_uses_fast_generator (w : World) :
  calls_during TurbGen_OU_noise_update w
  = repeat call_ran1s (2 * Z.to_nat (CInt.mul 6 (n_modes (tgd w)))) /\
  ~ In call_ran2 (calls_during TurbGen_OU_noise_update w) /\
  ran2_static (TurbGen_OU_noise_update w) = ran2_static w.
Proof.
  destruct (OU_noise_update_calls w) as [Hcalls Hstatic].
  split; [exact Hcalls | split; [| exact Hstatic]].
  rewrite Hcalls. intros H. apply repeat_spec in H. discriminate H.
Qed.

(** ** Decomposition *)

Lemma with_coeffs_self (t : TurbGenData) : with_coeffs t (aka t) (akb t) = t.
Proof. destruct t. reflexivity. Qed.

Lemma sum_upto_ext (n : nat) (f g : Z -> R) :
  (forall j, 0 <= j < Z.of_nat n -> f j = g j) -> sum_upto n f = sum_upto n g.
Proof.
  induction n as [|n IH]; intros H; [reflexivity |].
  cbn [sum_upto]. rewrite IH, (H (Z.of_nat n)) by (intros; try apply H; lia).
  reflexivity.
Qed.

Lemma sum_upto_plus (n : nat) (f g : Z -> R) :
  sum_upto n (fun j => f j + g j)%R = (sum_upto n f + sum_upto n g)%R.
Proof.
  induction n as [|n IH]; cbn [sum_upto]; [ring | rewrite IH; ring].
Qed.

Lemma sum_upto_scal (n : nat) (c : R) (f : Z -> R) :
  sum_upto n (fun j => c * f j)%R = (c * sum_upto n f)%R.
Proof.
  induction n as [|n IH]; cbn [sum_upto]; [ring | rewrite IH; ring].
Qed.

(** The first inner loop computes the three sums. *)
Lemma decomp_proj_loop (t : TurbGenData) (i : Z) :
  for_loop 0 (ndim t) (decomp_proj_body t i) (0, 0, 0)%R
  = (proj_a t i, proj_b t i, k_sq t i).
Proof.
  unfold proj_a, proj_b, k_sq, sum_axes.
  destruct (Z_le_gt_dec 0 (ndim t)) as [Hle|Hgt].
  - apply (for_loop_ind
             (fun j acc =>
                acc =
                (sum_upto (Z.to_nat j)
                   (fun j => mode t j i * OUphases t (phase_index i j 1))%R,
                 sum_upto (Z.to_nat j)
                   (fun j => mode t j i * OUphases t (phase_index i j 0))%R,
                 sum_upto (Z.to_nat j) (fun j => mode t j i * mode t j i)%R)));
      [exact Hle | reflexivity |].
    intros j acc Hj ->.
    replace (Z.to_nat (j + 1)) with (S (Z.to_nat j)) by lia.
    cbn [sum_upto decomp_proj_body]. rewrite Z2Nat.id by lia. reflexivity.
  - rewrite for_loop_empty by lia.
    replace (Z.to_nat (ndim t)) with O by lia. reflexivity.
Qed.

Lemma decomp_coeff_body_spec (ka kb kk : R) (i j : Z) (t : TurbGenData)
  (a b : Z -> array R) :
  decomp_coeff_body ka kb kk i j (with_coeffs t a b) =
  with_coeffs t
    (aset2 a j i
       (sol_weight t * (OUphases t (phase_index i j 0) - mode t j i * kb / kk)
        + (1 - sol_weight t) * (mode t j i * kb / kk))%R)
    (aset2 b j i
       (sol_weight t * (OUphases t (phase_index i j 1) - mode t j i * ka / kk)
        + (1 - sol_weight t) * (mode t j i * ka / kk))%R).
Proof. reflexivity. Qed.

Lemma aset2_eq {A : Type} (a : Z -> array A) (j i : Z) (v : A) :
  aset2 a j i v j i = v.
Proof. unfold aset2, aset. now rewrite !Z.eqb_refl. Qed.

Lemma aset2_neq {A : Type} (a : Z -> array A) (j i j' i' : Z) (v : A) :
  ~ (j' = j /\ i' = i) -> aset2 a j i v j' i' = a j' i'.
Proof.
  intros H. unfold aset2, aset.
  destruct (Z.eqb_spec j' j); [| reflexivity].
  destruct (Z.eqb_spec i' i); [| reflexivity]. tauto.
Qed.

(** The second inner loop, for mode [i], over [n] axes. *)
Lemma decomp_coeff_loop (ka kb kk : R) (i : Z) (t : TurbGenData)
  (a0 b0 : Z -> array R) (n : Z) :
  exists a b,
    for_loop 0 n (decomp_coeff_body ka kb kk i) (with_coeffs t a0 b0)
    = with_coeffs t a b /\
    (forall j, 0 <= j < n ->
       a j i = (sol_weight t * (OUphases t (phase_index i j 0) - mode t j i * kb / kk)
                + (1 - sol_weight t) * (mode t j i * kb / kk))%R /\
       b j i = (sol_weight t * (OUphases t (phase_index i j 1) - mode t j i * ka / kk)
                + (1 - sol_weight t) * (mode t j i * ka / kk))%R) /\
    (forall j i', ~ (0 <= j < n /\ i' = i) -> a j i' = a0 j i' /\ b j i' = b0 j i').
Proof.
  destruct (Z_le_gt_dec 0 n) as [Hle|Hgt].
  - apply (for_loop_ind
             (fun m s => exists a b,
                  s = with_coeffs t a b /\
                  (forall j, 0 <= j < m ->
                     a j i = (sol_weight t
                              * (OUphases t (phase_index i j 0) - mode t j i * kb / kk)
                              + (1 - sol_weight t) * (mode t j i * kb / kk))%R /\
                     b j i = (sol_weight t
                              * (OUphases t (phase_index i j 1) - mode t j i * ka / kk)
                              + (1 - sol_weight t) * (mode t j i * ka / kk))%R) /\
                  (forall j i', ~ (0 <= j < m /\ i' = i) ->
                                a j i' = a0 j i' /\ b j i' = b0 j i')));
      [exact Hle | |].
    + exists a0, b0. split; [reflexivity | split; [intros; lia | tauto]].
    + intros m s Hm (a & b & -> & Hin & Hout).
      rewrite decomp_coeff_body_spec.
      eexists _, _. split; [reflexivity | split].
      * intros j Hj. destruct (Z.eq_dec j m) as [->|Hne].
        -- rewrite !aset2_eq. split; reflexivity.
        -- rewrite !aset2_neq by tauto. apply Hin. lia.
      * intros j i' Hji. rewrite !aset2_neq by (intros [-> ->]; apply Hji; lia).
        apply Hout. intros [? ?]. apply Hji. lia.
  - rewrite for_loop_empty by lia. exists a0, b0.
    split; [reflexivity | split; [intros; lia | tauto]].
Qed.

Lemma decomp_mode_body_spec (i : Z) (t : TurbGenData) (a0 b0 : Z -> array R) :
  exists a b,
    decomp_mode_body i (with_coeffs t a0 b0) = with_coeffs t a b /\
    (forall j, 0 <= j < ndim t -> a j i = aka_of t i j /\ b j i = akb_of t i j) /\
    (forall j i', ~ (0 <= j < ndim t /\ i' = i) ->
                  a j i' = a0 j i' /\ b j i' = b0 j i').
Proof.
  unfold decomp_mode_body.
  change (ndim (with_coeffs t a0 b0)) with (ndim t).
  change (decomp_proj_body (with_coeffs t a0 b0) i) with (decomp_proj_body t i).
  rewrite decomp_proj_loop.
  apply decomp_coeff_loop.
Qed.

(** [TurbGen_get_decomposition_coeffs] assigns [aka] and [akb] of every
    mode below [n_modes] on the first [ndim] axes, and nothing else. *)
Lemma get_decomposition_coeffs_spec (t : TurbGenData) :
  exists a b,
    get_decomposition_coeffs t = with_coeffs t a b /\
    (forall i j, 0 <= i < n_modes t -> 0 <= j < ndim t ->
       a j i = aka_of t i j /\ b j i = akb_of t i j) /\
    (forall i j, ~ (0 <= i < n_modes t /\ 0 <= j < ndim t) ->
       a j i = aka t j i /\ b j i = akb t j i).
Proof.
  unfold get_decomposition_coeffs.
  destruct (Z_le_gt_dec 0 (n_modes t)) as [Hle|Hgt].
  - apply (for_loop_ind
             (fun m s => exists a b,
                  s = with_coeffs t a b /\
                  (forall i j, 0 <= i < m -> 0 <= j < ndim t ->
                     a j i = aka_of t i j /\ b j i = akb_of t i j) /\
                  (forall i j, ~ (0 <= i < m /\ 0 <= j < ndim t) ->
                     a j i = aka t j i /\ b j i = akb t j i)));
      [exact Hle | |].
    + exists (aka t), (akb t). rewrite with_coeffs_self.
      split; [reflexivity | split; [intros; lia | tauto]].
    + intros m s Hm (a0 & b0 & -> & Hin & Hout).
      destruct (decomp_mode_body_spec m t a0 b0) as (a & b & Heq & Hnew & Hold).
      exists a, b. split; [exact Heq | split].
      * intros i j Hi Hj. destruct (Z.eq_dec i m) as [->|Hne].
        -- apply Hnew, Hj.
        -- destruct (Hold j i) as [-> ->]; [lia |]. apply Hin; lia.
      * intros i j Hij.
        destruct (Hold j i) as [-> ->]; [lia |]. apply Hout. lia.
  - rewrite for_loop_empty by lia. exists (aka t), (akb t).
    rewrite with_coeffs_self.
    split; [reflexivity | split; [intros; lia | tauto]].
Qed.

Section Boundary.

Local Open Scope R_scope.

Variables (t : TurbGenData) (i : Z).

(** With weight 1 the coefficients are orthogonal to the wavevector. *)
Lemma solenoidal_orthogonal :
  sol_weight t = 1 -> k_sq t i <> 0 ->
  sum_axes (ndim t) (fun j => mode t j i * aka_of t i j) = 0 /\
  sum_axes (ndim t) (fun j => mode t j i * akb_of t i j) = 0.
Proof.
  intros Hw Hk. unfold aka_of, akb_of. rewrite Hw. unfold sum_axes.
  split.
  - rewrite (sum_upto_ext _ _
               (fun j => mode t j i * OUphases t (phase_index i j 0)
                         + (- (proj_b t i / k_sq t i)) * (mode t j i * mode t j i)))
      by (intros; cbv zeta; field; exact Hk).
    rewrite sum_upto_plus, sum_upto_scal.
    fold (sum_axes (ndim t) (fun j => mode t j i * OUphases t (phase_index i j 0))).
    fold (sum_axes (ndim t) (fun j => mode t j i * mode t j i)).
    fold (proj_b t i). fold (k_sq t i). field. exact Hk.
  - rewrite (sum_upto_ext _ _
               (fun j => mode t j i * OUphases t (phase_index i j 1)
                         + (- (proj_a t i / k_sq t i)) * (mode t j i * mode t j i)))
      by (intros; cbv zeta; field; exact Hk).
    rewrite sum_upto_plus, sum_upto_scal.
    fold (sum_axes (ndim t) (fun j => mode t j i * OUphases t (phase_index i j 1))).
    fold (sum_axes (ndim t) (fun j => mode t j i * mode t j i)).
    fold (proj_a t i). fold (k_sq t i). field. exact Hk.
Qed.

(** With weight 0 the coefficients are multiples of the wavevector. *)
Lemma compressive_parallel (j : Z) :
  sol_weight t = 0 ->
  aka_of t i j = proj_b t i / k_sq t i * mode t j i /\
  akb_of t i j = proj_a t i / k_sq t i * mode t j i.
Proof.
  intros Hw. unfold aka_of, akb_of. rewrite Hw. cbv zeta.
  unfold Rdiv. split; ring.
Qed.

End Boundary.

(** C4.  For every state of the phases and every mode [i < n_modes] whose
    wavevector has [k_sq <> 0] over the first [ndim] axes, the output of
    [TurbGen_get_decomposition_coeffs] satisfies: if [sol_weight = 1], the
    sums over the first [ndim] axes of [k_axis*aka[axis]] and of
    [k_axis*akb[axis]] are 0; if [sol_weight = 0], [aka] and [akb] are, on
    those axes, scalar multiples of the wavevector.  (Doubles are read as
    real numbers.) *)
Theorem C4_decomposition_boundary_weights (t : TurbGenData) (i : Z) :
  0 <= i < n_modes t ->
  k_sq t i <> 0%R ->
  let t' := get_decomposition_coeffs t in
  (sol_weight t = 1%R ->
     sum_axes (ndim t) (fun j => mode t' j i * aka t' j i)%R = 0%R /\
     sum_axes (ndim t) (fun j => mode t' j i * akb t' j i)%R = 0%R) /\
  (sol_weight t = 0%R ->
     exists la lb : R,
       forall j, 0 <= j < ndim t ->
         aka t' j i = (la * mode t' j i)%R /\ akb t' j i = (lb * mode t' j i)%R).
Proof.
  intros Hi Hk t'.
  destruct (get_decomposition_coeffs_spec t) as (a & b & Heq & Hin & _).
  subst t'. rewrite Heq.
  change (mode (with_coeffs t a b)) with (mode t).
  change (aka (with_coeffs t a b)) with a.
  change (akb (with_coeffs t a b)) with b.
  split.
  - intros Hw. destruct (solenoidal_orthogonal t i Hw Hk) as [Ha Hb].
    unfold sum_axes in *. split.
    + rewrite <- Ha. apply sum_upto_ext. intros j Hj.
      destruct (Hin i j Hi) as [-> _]; [lia | reflexivity].
    + rewrite <- Hb. apply sum_upto_ext. intros j Hj.
      destruct (Hin i j Hi) as [_ ->]; [lia | reflexivity].
  - intros Hw. exists (proj_b t i / k_sq t i)%R, (proj_a t i / k_sq t i)%R.
    intros j Hj. destruct (Hin i j Hi Hj) as [-> ->].
    apply compressive_parallel, Hw.
Qed.

Lemma k_sq_example : k_sq example_tgd 0 = (2 * PI * (2 * PI))%R.
Proof.
  unfold k_sq, sum_axes.
  change (Z.to_nat (ndim example_tgd)) with 1%nat. cbn [sum_upto].
  change (mode example_tgd (Z.of_nat 0) 0) with (2 * PI)%R. ring.
Qed.

Lemma C4_decomposition_boundary_weights_witness :
  sum_axes (ndim example_tgd)
    (fun j => mode (get_decomposition_coeffs example_tgd) j 0%Z
              * aka (get_decomposition_coeffs example_tgd) j 0%Z)%R = 0%R.
Proof.
  assert (Hi : 0 <= 0 < n_modes example_tgd) by (vm_compute; split; [discriminate | reflexivity]).
  assert (Hk : k_sq example_tgd 0 <> 0%R).
  { rewrite k_sq_example. pose proof PI_RGT_0. nra. }
  destruct (C4_decomposition_boundary_weights example_tgd 0 Hi Hk) as [Hsol _].
  exact (proj1 (Hsol eq_refl)).
Defined.

(** ** Update controller *)

Lemma dt_after_grn (n : nat) (w : World) : dt (tgd (after_grn n w)) = dt (tgd w).
Proof. rewrite after_grn_shape. reflexivity. Qed.

Lemma step_OU_noise_update (w : World) :
  step (tgd (TurbGen_OU_noise_update w)) = CInt.add (step (tgd w)) 1.
Proof.
  destruct (OU_noise_update_shape w) as (ph & -> & _). reflexivity.
Qed.

Lemma dt_OU_noise_update (w : World) :
  dt (tgd (TurbGen_OU_noise_update w)) = dt (tgd w).
Proof.
  destruct (OU_noise_update_shape w) as (ph & -> & _). cbv zeta.
  transitivity (dt (tgd (after_grn (Z.to_nat (CInt.mul 6 (n_modes (tgd w)))) w)));
    [reflexivity | apply dt_after_grn].
Qed.

Lemma step_get_decomposition_coeffs (w : World) :
  step (tgd (TurbGen_get_decomposition_coeffs w)) = step (tgd w).
Proof.
  unfold TurbGen_get_decomposition_coeffs.
  destruct (get_decomposition_coeffs_spec (tgd w)) as (a & b & -> & _).
  reflexivity.
Qed.

Lemma dt_get_decomposition_coeffs (w : World) :
  dt (tgd (TurbGen_get_decomposition_coeffs w)) = dt (tgd w).
Proof.
  unfold TurbGen_get_decomposition_coeffs.
  destruct (get_decomposition_coeffs_spec (tgd w)) as (a & b & -> & _).
  reflexivity.
Qed.

(** A loop whose body ignores the index iterates the body. *)
Lemma for_count_const {St : Type} (g : St -> St) (n : nat) :
  forall (i : Z) (s : St), for_count n i (fun _ s' => g s') s = Nat.iter n g s.
Proof.
  induction n as [|n IH]; intros i s; [reflexivity |].
  cbn [for_count]. rewrite IH. symmetry. apply Nat.iter_succ_r.
Qed.

(** [k] OU updates in a row advance [step] by [k], as long as the result is
    an [int]. *)
Lemma step_iter_OU_noise_update (k : nat) (w : World) :
  CInt.in_int (step (tgd w)) ->
  step (tgd w) + Z.of_nat k <= CInt.int_max ->
  step (tgd (Nat.iter k TurbGen_OU_noise_update w)) = step (tgd w) + Z.of_nat k.
Proof.
  intros Hs. induction k as [|k IH]; intros Hk.
  - change (Nat.iter 0 TurbGen_OU_noise_update w) with w. lia.
  - rewrite Nat.iter_succ, step_OU_noise_update, IH by lia.
    unfold CInt.add. rewrite wrap_id; [lia |].
    unfold CInt.in_int in *. lia.
Qed.

Lemma dt_iter_OU_noise_update (k : nat) (w : World) :
  dt (tgd (Nat.iter k TurbGen_OU_noise_update w)) = dt (tgd w).
Proof.
  induction k as [|k IH]; [reflexivity |].
  rewrite Nat.iter_succ. now rewrite dt_OU_noise_update.
Qed.

(** [TurbGen_check_for_update] in terms of the requested step [q]. *)
Lemma check_for_update_cases (time : R) (w : World) :
  let q := CMath.to_int (CMath.floor (time / dt (tgd w))) in
  (q <= step (tgd w) /\ TurbGen_check_for_update time w = (false, w)) \/
  (step (tgd w) < q /\
   TurbGen_check_for_update time w =
   (true, TurbGen_get_decomposition_coeffs
            (Nat.iter (Z.to_nat (q - step (tgd w))) TurbGen_OU_noise_update w))).
Proof.
  intros q. unfold TurbGen_check_for_update. fold q.
  destruct (Z.leb_spec q (step (tgd w))) as [Hle|Hlt].
  - left. split; [exact Hle | reflexivity].
  - right. split; [exact Hlt |].
    unfold for_loop. rewrite for_count_const. reflexivity.
Qed.

Lemma step_after_check_for_update (time : R) (w : World) :
  CInt.in_int (step (tgd w)) ->
  let q := CMath.to_int (CMath.floor (time / dt (tgd w))) in
  step (tgd (snd (TurbGen_check_for_update time w))) = Z.max (step (tgd w)) q.
Proof.
  intros Hs q.
  destruct (check_for_update_cases time w) as [[Hle ->]|[Hlt ->]]; fold q in Hle || fold q in Hlt.
  - cbn [snd]. lia.
  - cbn [snd]. rewrite step_get_decomposition_coeffs.
    assert (Hq : CInt.in_int q) by apply wrap_in_int.
    rewrite step_iter_OU_noise_update; [lia | exact Hs |].
    unfold CInt.in_int in Hq. lia.
Qed.

(** C2.  Let [r = floor(t/dt)] be representable as an [int], as is the
    step counter.  [TurbGen_check_for_update(t)] returns true iff [r] is
    strictly greater than the step counter.  When it does, the new state is
    that of [r - step] successive calls of [TurbGen_OU_noise_update], each
    starting from the state (seed included) left by the previous one,
    followed by one [TurbGen_get_decomposition_coeffs], and the step counter
    is [r].  When it returns false the state is unchanged. *)
Theorem C2_check_for_update_advances (time : R) (w : World) :
  CInt.in_int (Zfloor (time / dt (tgd w))) ->
  CInt.in_int (step (tgd w)) ->
  let r := Zfloor (time / dt (tgd w)) in
  let res := TurbGen_check_for_update time w in
  (fst res = true <-> step (tgd w) < r) /\
  (step (tgd w) < r ->
     snd res = TurbGen_get_decomposition_coeffs
                 (Nat.iter (Z.to_nat (r - step (tgd w))) TurbGen_OU_noise_update w)
     /\ step (tgd (snd res)) = r) /\
  (r <= step (tgd w) -> fst res = false /\ snd res = w).
Proof.
  intros Hr Hs r res.
  pose proof (step_after_check_for_update time w Hs) as Hstep.
  destruct (check_for_update_cases time w) as [[Hle Heq]|[Hlt Heq]];
    cbv zeta in Hstep; rewrite (to_int_floor _ Hr) in *; fold r in Hle || fold r in Hlt;
    fold r in Heq, Hstep; subst res; rewrite Heq in *; cbn [fst snd] in *.
  - split; [split; [discriminate | lia] | split; [lia | auto]].
  - split; [split; [lia | reflexivity] | split; [| lia]].
    intros _. split; [reflexivity | lia].
Qed.

Lemma Zfloor_example : Zfloor (/ 4 / dt (tgd example_world)) = 2.
Proof.
  apply Zfloor_eq. change (dt (tgd example_world)) with (/ 10)%R. lra.
Qed.

Lemma in_int_small (z : Z) : -1 <= z <= 1000 -> CInt.in_int z.
Proof. unfold CInt.in_int, CInt.int_min, CInt.int_max. lia. Qed.

Lemma C2_check_for_update_advances_witness :
  fst (TurbGen_check_for_update (/ 4) example_world) = true /\
  step (tgd (snd (TurbGen_check_for_update (/ 4) example_world))) = 2.
Proof.
  assert (Hr : CInt.in_int (Zfloor (/ 4 / dt (tgd example_world))))
    by (rewrite Zfloor_example; apply in_int_small; lia).
  assert (Hs : CInt.in_int (step (tgd example_world)))
    by (apply in_int_small; vm_compute; split; discriminate).
  destruct (C2_check_for_update_advances (/ 4) example_world Hr Hs)
    as (Hiff & Hadv & _).
  rewrite Zfloor_example in Hiff, Hadv.
  assert (Hlt : step (tgd example_world) < 2) by reflexivity.
  split.
  - apply Hiff, Hlt.
  - apply (Hadv Hlt).
Defined.

Lemma dt_after_check_for_update (time : R) (w : World) :
  dt (tgd (snd (TurbGen_check_for_update time w))) = dt (tgd w).
Proof.
  destruct (check_for_update_cases time w) as [[_ ->]|[_ ->]]; cbn [snd].
  - reflexivity.
  - now rewrite dt_get_decomposition_coeffs, dt_iter_OU_noise_update.
Qed.

Lemma in_int_after_check_for_update (time : R) (w : World) :
  CInt.in_int (step (tgd w)) ->
  CInt.in_int (step (tgd (snd (TurbGen_check_for_update time w)))).
Proof.
  intros Hs. rewrite step_after_check_for_update by exact Hs. cbv zeta.
  pose proof (wrap_in_int (CMath.Ztrunc (CMath.floor (time / dt (tgd w))))) as Hq.
  fold (CMath.to_int (CMath.floor (time / dt (tgd w)))) in Hq.
  unfold CInt.in_int in *. lia.
Qed.

(** C6.  After a call [TurbGen_check_for_update(t)], a second call with
    the same [t] returns false and leaves the state as the first call left
    it: it performs no OU advance, so that over the two calls the advance to
    the requested step is made at most once. *)
Theorem C6_check_for_update_idempotent (time : R) (w : World) :
  CInt.in_int (step (tgd w)) ->
  let w1 := snd (TurbGen_check_for_update time w) in
  TurbGen_check_for_update time w1 = (false, w1) /\
  calls_during (fun w' => snd (TurbGen_check_for_update time w')) w1 = [] /\
  check_for_update_seq [time; time] w = check_for_update_seq [time] w.
Proof.
  intros Hs w1.
  assert (Hno : TurbGen_check_for_update time w1 = (false, w1)).
  { destruct (check_for_update_cases time w1) as [[_ H]|[Hlt _]]; [exact H |].
    exfalso. subst w1. cbv zeta in Hlt.
    rewrite dt_after_check_for_update in Hlt.
    rewrite step_after_check_for_update in Hlt by exact Hs. cbv zeta in Hlt. lia. }
  split; [exact Hno | split].
  - unfold calls_during. rewrite Hno. cbn [snd]. apply skipn_all.
  - cbn [check_for_update_seq]. fold w1. now rewrite Hno.
Qed.

Lemma C6_check_for_update_idempotent_witness :
  TurbGen_check_for_update (/ 4) (snd (TurbGen_check_for_update (/ 4) example_world))
  = (false, snd (TurbGen_check_for_update (/ 4) example_world)).
Proof.
  assert (Hs : CInt.in_int (step (tgd example_world)))
    by (apply in_int_small; vm_compute; split; discriminate).
  exact (proj1 (C6_check_for_update_idempotent (/ 4) example_world Hs)).
Defined.

(** The step counter never decreases over a sequence of update calls. *)
Lemma step_check_for_update_seq (times : list R) :
  forall w, CInt.in_int (step (tgd w)) ->
            step (tgd w) <= step (tgd (check_for_update_seq times w)).
Proof.
  induction times as [|time rest IH]; intros w Hs.
  - cbn [check_for_update_seq]. lia.
  - cbn [check_for_update_seq].
    pose proof (IH _ (in_int_after_check_for_update time w Hs)) as H.
    rewrite step_after_check_for_update in H at 1 by exact Hs. cbv zeta in H. lia.
Qed.

(** ** Mode set builder *)

Lemma for_count_rel3 {A B C : Type} (R : Z -> A -> B -> C -> Prop)
  (fa : Z -> A -> A) (fb : Z -> B -> B) (fc : Z -> C -> C) (n : nat) :
  forall (i : Z) (a : A) (b : B) (c : C),
    R i a b c ->
    (forall j a' b' c', i <= j < i + Z.of_nat n -> R j a' b' c' ->
                        R (j + 1) (fa j a') (fb j b') (fc j c')) ->
    R (i + Z.of_nat n) (for_count n i fa a) (for_count n i fb b) (for_count n i fc c).
Proof.
  induction n as [|n IH]; intros i a b c H0 Hstep.
  - cbn [for_count]. now rewrite Z.add_0_r.
  - cbn [for_count].
    replace (i + Z.of_nat (S n)) with ((i + 1) + Z.of_nat n) by lia.
    apply IH.
    + apply Hstep; [lia | exact H0].
    + intros j a' b' c' Hj. apply Hstep. lia.
Qed.

Lemma for_loop_rel3 {A B C : Type} (R : Z -> A -> B -> C -> Prop)
  (fa : Z -> A -> A) (fb : Z -> B -> B) (fc : Z -> C -> C) (lo hi : Z)
  (a : A) (b : B) (c : C) :
  lo <= hi ->
  R lo a b c ->
  (forall j a' b' c', lo <= j < hi -> R j a' b' c' ->
                      R (j + 1) (fa j a') (fb j b') (fc j c')) ->
  R hi (for_loop lo hi fa a) (for_loop lo hi fb b) (for_loop lo hi fc c).
Proof.
  intros Hle H0 Hstep. unfold for_loop.
  replace hi with (lo + Z.of_nat (Z.to_nat (hi - lo))) at 1 by lia.
  apply for_count_rel3; [exact H0 |].
  intros j a' b' c' Hj. apply Hstep. lia.
Qed.

Lemma add_small (a b : Z) :
  -1 <= a -> 0 <= b -> a + b <= CInt.int_max -> CInt.add a b = a + b.
Proof.
  intros Ha Hb Hab. unfold CInt.add. apply wrap_id.
  unfold CInt.in_int, CInt.int_min, CInt.int_max in *. lia.
Qed.

Lemma store_mode_spec (t : TurbGenData) (n : Z) (am : array R) (md : Z -> array R)
  (amplitude kx ky kz : R) :
  store_mode (with_modes t n am md) amplitude kx ky kz =
  with_modes t (CInt.add n 1)
    (aset am (CInt.add n 1) amplitude)
    (aset2 (aset2 (aset2 md Axis.X (CInt.add n 1) kx) Axis.Y (CInt.add n 1) ky)
       Axis.Z (CInt.add n 1) kz).
Proof. reflexivity. Qed.

Lemma aset_eq {A : Type} (a : array A) (i : Z) (v : A) : aset a i v i = v.
Proof. unfold aset. now rewrite Z.eqb_refl. Qed.

Lemma aset_neq {A : Type} (a : array A) (i i' : Z) (v : A) :
  i' <> i -> aset a i v i' = a i'.
Proof. intros H. unfold aset. destruct (Z.eqb_spec i' i); [contradiction | reflexivity]. Qed.

(** The three stores of a wavevector in column [n] of [mode]. *)
Lemma store_wavevector_at (md : Z -> array R) (n : Z) (kx ky kz : R) :
  let md' := aset2 (aset2 (aset2 md Axis.X n kx) Axis.Y n ky) Axis.Z n kz in
  md' Axis.X n = kx /\ md' Axis.Y n = ky /\ md' Axis.Z n = kz /\
  forall c i, i <> n -> md' c i = md c i.
Proof.
  cbv zeta. repeat split.
  - rewrite 2 aset2_neq by (intros [H _]; discriminate H). apply aset2_eq.
  - rewrite aset2_neq by (intros [H _]; discriminate H). apply aset2_eq.
  - apply aset2_eq.
  - intros c i Hi. rewrite 3 aset2_neq by tauto. reflexivity.
Qed.

(** Appending one mode to the arrays and to the sequence. *)
Lemma holds_modes_snoc (t : TurbGenData) (l : list Mode) (am : array R)
  (md : Z -> array R) (amplitude kx ky kz : R) :
  holds_modes t l am md ->
  holds_modes t (l ++ [mkMode amplitude kx ky kz])
    (aset am (Z.of_nat (List.length l)) amplitude)
    (aset2 (aset2 (aset2 md Axis.X (Z.of_nat (List.length l)) kx)
              Axis.Y (Z.of_nat (List.length l)) ky)
       Axis.Z (Z.of_nat (List.length l)) kz).
Proof.
  intros [Hin Hout]. set (n := Z.of_nat (List.length l)).
  destruct (store_wavevector_at md n kx ky kz) as (Hx & Hy & Hz & Hother).
  cbv zeta in Hx, Hy, Hz, Hother.
  unfold holds_modes. rewrite length_app. cbn [List.length].
  replace (Z.of_nat (List.length l + 1)) with (n + 1) by (subst n; lia).
  split.
  - intros i Hi. destruct (Z.eq_dec i n) as [->|Hne].
    + rewrite aset_eq, Hx, Hy, Hz. subst n. rewrite Nat2Z.id, nth_middle.
      cbn [m_ampl m_kx m_ky m_kz]. repeat split; reflexivity.
    + rewrite aset_neq, !Hother by exact Hne.
      rewrite app_nth1 by (subst n; lia).
      apply Hin. lia.
  - intros i Hi. assert (Hne : i <> n) by lia.
    rewrite aset_neq by exact Hne.
    destruct (Hout i ltac:(lia)) as [Ha Hm]. split; [exact Ha |].
    intros c. rewrite Hother by exact Hne. apply Hm.
Qed.

(** Simplification of field accesses through the setters. *)
Ltac simpl_fields :=
  cbn [debug PE parameter_file n_modes OUvar mode aka akb OUphases ampl ndim
       random_seed seed spect_form nsteps_per_turnover_time step xmin xmax ymin
       ymax zmin zmax Lx decay dt energy stir_min stir_max sol_weight
       sol_weight_norm velocity power_law_exp angles_exp
       set_n_modes set_mode set_aka set_akb set_OUphases set_ampl set_seed set_step
       with_modes with_coeffs with_phases set_tgd tgd ran2_static rng_calls
       fst snd] in *.

Lemma count_body_spec (t : TurbGenData) (kx ky Lz : R) (ikz c : Z) :
  count_body kx ky Lz ikz (set_n_modes t c) =
  set_n_modes t (count_next t (magnitude kx ky (wavenumber Lz ikz)) c).
Proof.
  unfold count_body, count_next, in_band. cbv beta zeta. simpl_fields.
  destruct (CMath.geb _ _ && CMath.leb _ _); [| reflexivity].
  destruct (ndim t >? 1); simpl_fields; destruct (ndim t >? 2); reflexivity.
Qed.

Lemma ndim_store_mode (t : TurbGenData) (amplitude kx ky kz : R) :
  ndim (store_mode t amplitude kx ky kz) = ndim t.
Proof. reflexivity. Qed.

Lemma arrays_hold_frame (t : TurbGenData) (l : list Mode) (tg : TurbGenData) :
  arrays_hold t l tg ->
  ndim tg = ndim t /\ spect_form tg = spect_form t /\
  (forall k, in_band tg k = in_band t k).
Proof.
  intros (am & md & -> & _). repeat split; reflexivity.
Qed.

Lemma arrays_hold_store (t : TurbGenData) (l : list Mode) (tg : TurbGenData)
  (amplitude kx ky kz : R) :
  arrays_hold t l tg ->
  Z.of_nat (List.length l) + 1 <= CInt.int_max ->
  arrays_hold t (l ++ [mkMode amplitude kx ky kz]) (store_mode tg amplitude kx ky kz).
Proof.
  intros (am & md & -> & Hh) Hlen.
  rewrite store_mode_spec.
  rewrite (add_small (Z.of_nat (List.length l) - 1) 1) by lia.
  replace (Z.of_nat (List.length l) - 1 + 1) with (Z.of_nat (List.length l)) by lia.
  eexists _, _. split; [| apply holds_modes_snoc, Hh].
  rewrite length_app. cbn [List.length].
  replace (Z.of_nat (List.length l + 1) - 1) with (Z.of_nat (List.length l)) by lia.
  reflexivity.
Qed.

Lemma magnitude_neg_y (kx ky kz : R) : magnitude kx (- ky) kz = magnitude kx ky kz.
Proof. unfold magnitude. f_equal. ring. Qed.

Lemma magnitude_neg_z (kx ky kz : R) : magnitude kx ky (- kz) = magnitude kx ky kz.
Proof. unfold magnitude. f_equal. ring. Qed.

Lemma mode_ok_neg_y (t : TurbGenData) (kx ky kz : R) :
  mode_ok t kx ky kz -> mode_ok t kx (- ky) kz.
Proof.
  unfold mode_ok. rewrite magnitude_neg_y. intros (Hb & Hy & Hz).
  repeat split; auto. intros H. rewrite (Hy H). ring.
Qed.

Lemma mode_ok_neg_z (t : TurbGenData) (kx ky kz : R) :
  mode_ok t kx ky kz -> mode_ok t kx ky (- kz).
Proof.
  unfold mode_ok. rewrite magnitude_neg_z. intros (Hb & Hy & Hz).
  repeat split; auto. intros H. rewrite (Hz H). ring.
Qed.

Lemma modes_ok_snoc (t : TurbGenData) (l : list Mode) (amplitude kx ky kz : R) :
  modes_ok t l -> mode_ok t kx ky kz ->
  modes_ok t (l ++ [mkMode amplitude kx ky kz]).
Proof.
  intros Hl Hm. apply Forall_app. split; [exact Hl |].
  constructor; [exact Hm | constructor].
Qed.

(** One lattice point, in the three passes. *)
Lemma enum_body (t : TurbGenData) (B : Z) (pp kc kx ky Lz : R) (ikz : Z)
  (tc : TurbGenData) (sg : TurbGenData * R) (sl : list Mode * R) :
  B + 4 <= CInt.int_max ->
  (ndim t <= 1 -> ky = 0%R) ->
  (ndim t <= 2 -> wavenumber Lz ikz = 0%R) ->
  enum_inv t B tc sg sl ->
  enum_inv t (B + 4)
    (count_body kx ky Lz ikz tc)
    (gen_body pp kc kx ky Lz ikz sg)
    (seq_body t pp kc kx ky Lz ikz sl).
Proof.
  intros HB Hky Hkz. destruct sg as [tg a], sl as [l a'].
  intros (Ha & -> & Harr & Hlen & Hok). cbn [fst snd] in *. subst a'.
  destruct (arrays_hold_frame _ _ _ Harr) as (Hnd & Hsf & Hband).
  rewrite count_body_spec. unfold count_next, gen_body, seq_body. cbv beta zeta.
  rewrite Hband, Hsf, Hnd.
  set (kz := wavenumber Lz ikz) in *.
  destruct (in_band t (magnitude kx ky kz)) eqn:Hin.
  2:{ unfold enum_inv. cbn [fst snd].
      split; [reflexivity | split; [reflexivity | split; [exact Harr | split; [lia | exact Hok]]]]. }
  assert (Hm : mode_ok t kx ky kz) by (repeat split; auto).
  set (A := (sqrt _ * _)%R).
  rewrite !ndim_store_mode, Hnd.
  assert (H0 : 0 <= Z.of_nat (List.length l)) by lia.
  destruct (Z.gtb_spec (ndim t) 1) as [H1|H1].
  - rewrite !ndim_store_mode, Hnd.
    destruct (Z.gtb_spec (ndim t) 2) as [H2|H2].
    + unfold enum_inv. cbn [fst snd].
      rewrite !length_app. cbn [List.length].
      split; [reflexivity | split; [| split; [| split]]].
      * f_equal. set (n := Z.of_nat (List.length l)) in *.
        rewrite (add_small n 1) by lia.
        rewrite ?(add_small (n + 1) 1) by lia.
        rewrite ?(add_small (n + 1 + 1) 2) by lia. lia.
      * change [mkMode A kx ky (- kz); mkMode A kx (- ky) (- kz)]
          with ([mkMode A kx ky (- kz)] ++ [mkMode A kx (- ky) (- kz)]).
        rewrite app_assoc.
        repeat apply arrays_hold_store; try exact Harr;
          rewrite ?length_app; cbn [List.length]; lia.
      * lia.
      * change [mkMode A kx ky (- kz); mkMode A kx (- ky) (- kz)]
          with ([mkMode A kx ky (- kz)] ++ [mkMode A kx (- ky) (- kz)]).
        rewrite app_assoc.
        repeat apply modes_ok_snoc; auto using mode_ok_neg_y, mode_ok_neg_z.
    + unfold enum_inv. cbn [fst snd].
      rewrite !length_app. cbn [List.length].
      split; [reflexivity | split; [| split; [| split]]].
      * f_equal. set (n := Z.of_nat (List.length l)) in *.
        rewrite (add_small n 1) by lia.
        rewrite ?(add_small (n + 1) 1) by lia.
        rewrite ?(add_small (n + 1 + 1) 2) by lia. lia.
      * repeat apply arrays_hold_store; try exact Harr;
          rewrite ?length_app; cbn [List.length]; lia.
      * lia.
      * repeat apply modes_ok_snoc; auto using mode_ok_neg_y, mode_ok_neg_z.
  - rewrite !ndim_store_mode, Hnd.
    destruct (Z.gtb_spec (ndim t) 2) as [H2|H2]; [lia |].
    unfold enum_inv. cbn [fst snd].
    rewrite !length_app. cbn [List.length].
    split; [reflexivity | split; [| split; [| split]]].
    + f_equal. rewrite add_small by lia. lia.
    + apply arrays_hold_store; [exact Harr | lia].
    + lia.
    + apply modes_ok_snoc; auto.
Qed.

(** Three loops over the same range, each iteration of which uses up to
    [d] of a budget. *)
Lemma for_loop_budget3 {A B C : Type} (I : Z -> A -> B -> C -> Prop)
  (fa : Z -> A -> A) (fb : Z -> B -> B) (fc : Z -> C -> C)
  (n d B0 : Z) (a : A) (b : B) (c : C) :
  0 <= n -> 0 <= d ->
  (forall j B' a' b' c', 0 <= j < n -> B' + d <= B0 + d * n ->
     I B' a' b' c' -> I (B' + d) (fa j a') (fb j b') (fc j c')) ->
  I B0 a b c ->
  I (B0 + d * n) (for_loop 0 n fa a) (for_loop 0 n fb b) (for_loop 0 n fc c).
Proof.
  intros Hn Hd Hstep H0.
  apply (for_loop_rel3 (fun j => I (B0 + d * j))); [exact Hn | |].
  - now replace (B0 + d * 0) with B0 by lia.
  - intros j a' b' c' Hj HI.
    replace (B0 + d * (j + 1)) with (B0 + d * j + d) by lia.
    apply Hstep; [exact Hj | nia | exact HI].
Qed.

Lemma wavenumber_0 (L : R) : wavenumber L 0 = 0%R.
Proof. unfold wavenumber, CMath.of_int, Rdiv. ring. Qed.

(** The three passes over the whole lattice. *)
Lemma enum_pass (t : TurbGenData) (pp kc Lx Ly Lz : R)
  (tc : TurbGenData) (sg : TurbGenData * R) (sl : list Mode * R) :
  enum_inv t 0 tc sg sl ->
  enum_inv t (4 * (ikzmax_of t + 1) * (ikymax_of t + 1) * 257)
    (count_pass Lx Ly Lz 256 (ikymax_of t) (ikzmax_of t) tc)
    (gen_pass pp kc Lx Ly Lz 256 (ikymax_of t) (ikzmax_of t) sg)
    (seq_pass t pp kc Lx Ly Lz 256 (ikymax_of t) (ikzmax_of t) sl).
Proof.
  intros H0. unfold count_pass, gen_pass, seq_pass.
  set (ny := ikymax_of t + 1). set (nz := ikzmax_of t + 1).
  assert (Hny : 1 <= ny <= 257 /\ (ndim t <= 1 -> ny = 1)).
  { subst ny. unfold ikymax_of. destruct (Z.gtb_spec (ndim t) 1); lia. }
  assert (Hnz : 1 <= nz <= 257 /\ (ndim t <= 2 -> nz = 1)).
  { subst nz. unfold ikzmax_of. destruct (Z.gtb_spec (ndim t) 2); lia. }
  assert (Hmax : 0 + 4 * nz * ny * 257 <= CInt.int_max).
  { unfold CInt.int_max. nia. }
  change (256 + 1) with 257.
  replace (4 * nz * ny * 257) with (0 + 4 * nz * ny * 257) by lia.
  apply (for_loop_budget3 (enum_inv t) _ _ _ 257 (4 * nz * ny) 0);
    [lia | nia | | exact H0].
  intros ikx B1 tc1 sg1 sl1 Hx HB1 H1.
  apply (for_loop_budget3 (enum_inv t) _ _ _ ny (4 * nz) B1);
    [lia | lia | | exact H1].
  intros iky B2 tc2 sg2 sl2 Hy HB2 H2.
  apply (for_loop_budget3 (enum_inv t) _ _ _ nz 4 B2); [lia | lia | | exact H2].
  intros ikz B3 tc3 sg3 sl3 Hz HB3 H3.
  apply enum_body; [lia | | | exact H3].
  - intros Hnd. replace iky with 0 by lia. apply wavenumber_0.
  - intros Hnd. replace ikz with 0 by lia. apply wavenumber_0.
Qed.

Lemma init_modes_unfold (amplitude0 : R) (w : World) :
  TurbGen_init_modes_from amplitude0 w =
  (let t := tgd w in
   let Lx := (xmax t - xmin t)%R in
   let Ly := (ymax t - ymin t)%R in
   let Lz := (zmax t - zmin t)%R in
   let tcount :=
     count_pass Lx Ly Lz 256 (ikymax_of t) (ikzmax_of t) (set_n_modes t 0) in
   if negb (spect_form tcount =? 2) && too_many_modes tcount (n_modes tcount)
   then Exit
   else
     let t1 := set_n_modes tcount (-1) in
     let t2 :=
       if negb (spect_form t1 =? 2)
       then fst (gen_pass (parab_prefact_of t) (kc_of t) Lx Ly Lz
                   256 (ikymax_of t) (ikzmax_of t) (t1, amplitude0))
       else t1 in
     w2 <- (if spect_form t2 =? 2
            then powerlaw_pass (kc_of t) Lx Ly Lz (set_tgd w t2)
            else Ok (set_tgd w t2)) ;;
     Ok (set_tgd w2 (set_n_modes (tgd w2) (CInt.add (n_modes (tgd w2)) 1)))).
Proof. reflexivity. Qed.

(** The three passes started as [TurbGen_init_modes] starts them. *)
Lemma enum_pass_init (amplitude0 : R) (t : TurbGenData) :
  let Lx := (xmax t - xmin t)%R in
  let Ly := (ymax t - ymin t)%R in
  let Lz := (zmax t - zmin t)%R in
  enum_inv t (4 * (ikzmax_of t + 1) * (ikymax_of t + 1) * 257)
    (count_pass Lx Ly Lz 256 (ikymax_of t) (ikzmax_of t) (set_n_modes t 0))
    (gen_pass (parab_prefact_of t) (kc_of t) Lx Ly Lz 256 (ikymax_of t) (ikzmax_of t)
       (with_modes t (-1) (ampl t) (mode t), amplitude0))
    (seq_pass t (parab_prefact_of t) (kc_of t) Lx Ly Lz 256 (ikymax_of t) (ikzmax_of t)
       ([], amplitude0)).
Proof.
  cbv zeta. apply enum_pass.
  unfold enum_inv. cbn [fst snd List.length Z.of_nat].
  split; [reflexivity | split; [reflexivity | split; [| split; [lia | constructor]]]].
  exists (ampl t), (mode t). split; [reflexivity |].
  split; [cbn [List.length]; intros; lia | tauto].
Qed.

Lemma enum_bound (t : TurbGenData) :
  4 * (ikzmax_of t + 1) * (ikymax_of t + 1) * 257 <= 4 * 257 * 257 * 257.
Proof.
  unfold ikymax_of, ikzmax_of.
  destruct (ndim t >? 1), (ndim t >? 2); lia.
Qed.

(** The count of the preliminary pass is the length of the sequence. *)
Lemma tot_n_modes_length (amplitude0 : R) (t : TurbGenData) :
  tot_n_modes t = Z.of_nat (List.length (mode_sequence amplitude0 t)).
Proof.
  destruct (enum_pass_init amplitude0 t) as (_ & Hc & _).
  unfold tot_n_modes, mode_sequence.
  fold (ikymax_of t). fold (ikzmax_of t).
  rewrite Hc. reflexivity.
Qed.

(** [TurbGen_init_modes] for Band and Parabola: it exits exactly when the
    guard on the count fires, and otherwise stores the sequence. *)
Lemma init_modes_band (amplitude0 : R) (w : World) :
  spect_form (tgd w) <> 2 ->
  let t := tgd w in
  let l := mode_sequence amplitude0 t in
  if too_many_modes t (Z.of_nat (List.length l))
  then TurbGen_init_modes_from amplitude0 w = Exit
  else exists am md,
      TurbGen_init_modes_from amplitude0 w
      = Ok (set_tgd w (with_modes t (Z.of_nat (List.length l)) am md)) /\
      holds_modes t l am md.
Proof.
  intros Hsf t l.
  rewrite init_modes_unfold. cbv zeta. fold t.
  pose proof (enum_pass_init amplitude0 t) as H. cbv zeta in H.
  pose proof (enum_bound t) as Hbound.
  destruct H as (_ & Hc & Harr & Hlen & _).
  fold (mode_sequence amplitude0 t) in Hc, Harr, Hlen. fold l in Hc, Harr, Hlen.
  rewrite Hc.
  change (set_n_modes (set_n_modes t (Z.of_nat (List.length l))) (-1))
    with (with_modes t (-1) (ampl t) (mode t)).
  change (spect_form (set_n_modes t (Z.of_nat (List.length l)))) with (spect_form t).
  change (n_modes (set_n_modes t (Z.of_nat (List.length l))))
    with (Z.of_nat (List.length l)).
  change (too_many_modes (set_n_modes t (Z.of_nat (List.length l))))
    with (too_many_modes t).
  change (spect_form (with_modes t (-1) (ampl t) (mode t))) with (spect_form t).
  destruct (Z.eqb_spec (spect_form t) 2) as [Heq|_]; [contradiction |].
  cbn [negb andb].
  destruct (too_many_modes t (Z.of_nat (List.length l))); [reflexivity |].
  destruct Harr as (am & md & Hg & Hh).
  rewrite Hg.
  change (spect_form (with_modes t (Z.of_nat (List.length l) - 1) am md))
    with (spect_form t).
  destruct (Z.eqb_spec (spect_form t) 2) as [Heq|_]; [contradiction |].
  cbn [bind].
  exists am, md. split; [| exact Hh].
  change (n_modes (tgd (set_tgd w (with_modes t (Z.of_nat (List.length l) - 1) am md))))
    with (Z.of_nat (List.length l) - 1).
  rewrite add_small by (unfold CInt.int_max; lia).
  replace (Z.of_nat (List.length l) - 1 + 1) with (Z.of_nat (List.length l)) by lia.
  reflexivity.
Qed.

Lemma for_countM_inv {St : Type} (P : St -> Prop) (body : Z -> St -> result St)
  (n : nat) :
  forall (i : Z) (s s' : St),
    P s ->
    (forall j a a', i <= j < i + Z.of_nat n -> P a -> body j a = Ok a' -> P a') ->
    for_countM n i body s = Ok s' -> P s'.
Proof.
  induction n as [|n IH]; intros i s s' H0 Hstep Hrun.
  - cbn [for_countM] in Hrun. now inversion Hrun; subst.
  - cbn [for_countM] in Hrun. destruct (body i s) as [s1|] eqn:Hb; [| discriminate].
    cbn [bind] in Hrun. apply (IH (i + 1) s1 s'); [| | exact Hrun].
    + apply (Hstep i s s1); [lia | exact H0 | exact Hb].
    + intros j a a' Hj. apply Hstep. lia.
Qed.

Lemma for_loopM_inv {St : Type} (P : St -> Prop) (body : Z -> St -> result St)
  (lo hi : Z) (s s' : St) :
  P s ->
  (forall j a a', lo <= j < hi -> P a -> body j a = Ok a' -> P a') ->
  for_loopM lo hi body s = Ok s' -> P s'.
Proof.
  intros H0 Hstep. unfold for_loopM. apply for_countM_inv; [exact H0 |].
  intros j a a' Hj. apply Hstep. lia.
Qed.

(** [TurbGen_ran2] does not touch [tgd]. *)
Lemma ran2_tgd (idum : Z) (w : World) : tgd (snd (TurbGen_ran2 idum w)) = tgd w.
Proof.
  unfold TurbGen_ran2.
  destruct (idum <=? 0).
  - destruct (for_down _ _ _) as [i1 iv1]. reflexivity.
  - reflexivity.
Qed.

Lemma ran2_tgd_seed_tgd (w : World) :
  exists s, tgd (snd (ran2_tgd_seed w)) = set_seed (tgd w) s.
Proof.
  unfold ran2_tgd_seed.
  pose proof (ran2_tgd (seed (tgd w)) w) as H.
  destruct (TurbGen_ran2 (seed (tgd w)) w) as [[r s] w1].
  cbn [snd] in *. exists s. cbn [tgd set_tgd]. now rewrite H.
Qed.

Lemma powerlaw_inv_ran2 (t : TurbGenData) (w : World) :
  powerlaw_inv t w -> powerlaw_inv t (snd (ran2_tgd_seed w)).
Proof.
  intros (n & am & md & s & Ht & Hn & Hok).
  destruct (ran2_tgd_seed_tgd w) as [s' Hs'].
  exists n, am, md, s'. split; [| split; assumption].
  rewrite Hs', Ht. reflexivity.
Qed.

Lemma pow_2_pos (y : R) : (0 < CMath.pow 2 y)%R.
Proof.
  unfold CMath.pow.
  destruct (CMath.is_integer y).
  - apply powerRZ_lt. lra.
  - unfold CMath.ltb. destruct (Rlt_dec 0 2) as [_|Hn]; [| lra].
    unfold Rpower. apply exp_pos.
Qed.

Lemma too_many_modes_false (t : TurbGenData) (n : Z) :
  too_many_modes t n = false -> n < tgd_max_n_modes.
Proof.
  unfold too_many_modes, CMath.gtb, CMath.ltb, CMath.of_int.
  destruct (Rlt_dec _ _) as [|Hn]; [discriminate |]. intros _.
  pose proof (pow_2_pos (IZR (CInt.sub (ndim t) 1))) as Hp.
  apply lt_IZR. lra.
Qed.

Lemma powerlaw_inv_ndim (t : TurbGenData) (w : World) :
  powerlaw_inv t w -> ndim (tgd w) = ndim t.
Proof. intros (n & am & md & s & -> & _). reflexivity. Qed.

(** The last stage of one angular sample: band test, guard, store. *)
Lemma powerlaw_inv_store (t : TurbGenData) (w w' : World) (amplitude kx ky kz : R) :
  powerlaw_inv t w ->
  (ndim t <= 1 -> ky = 0%R) ->
  (ndim t <= 2 -> kz = 0%R) ->
  (if in_band (tgd w) (magnitude kx ky kz)
   then if too_many_modes (tgd w) (n_modes (tgd w)) then Exit
        else Ok (set_tgd w (store_mode (tgd w) amplitude kx ky kz))
   else Ok w) = Ok w' ->
  powerlaw_inv t w'.
Proof.
  intros (n & am & md & s & Ht & Hn & Hok) Hky Hkz Hrun.
  rewrite Ht in Hrun.
  change (in_band (set_seed (with_modes t n am md) s)) with (in_band t) in Hrun.
  change (n_modes (set_seed (with_modes t n am md) s)) with n in Hrun.
  change (too_many_modes (set_seed (with_modes t n am md) s))
    with (too_many_modes t) in Hrun.
  destruct (in_band t (magnitude kx ky kz)) eqn:Hband.
  - destruct (too_many_modes t n) eqn:Hguard; [discriminate |].
    apply too_many_modes_false in Hguard.
    inversion Hrun; subst w'; clear Hrun.
    assert (Hadd : CInt.add n 1 = n + 1)
      by (apply add_small; unfold CInt.int_max, tgd_max_n_modes in *; lia).
    destruct (store_wavevector_at md (n + 1) kx ky kz) as (Hx & Hy & Hz & Hother).
    cbv zeta in Hx, Hy, Hz, Hother.
    exists (n + 1), (aset am (n + 1) amplitude),
      (aset2 (aset2 (aset2 md Axis.X (n + 1) kx) Axis.Y (n + 1) ky) Axis.Z (n + 1) kz),
      s.
    split; [| split; [lia |]].
    + cbn [tgd set_tgd].
      transitivity (set_seed (store_mode (with_modes t n am md) amplitude kx ky kz) s);
        [reflexivity |].
      rewrite store_mode_spec, Hadd. reflexivity.
    + intros i Hi. destruct (Z.eq_dec i (n + 1)) as [->|Hne].
      * rewrite Hx, Hy, Hz. repeat split; auto.
      * rewrite !Hother by exact Hne. apply Hok. lia.
  - inversion Hrun; subst w'. exists n, am, md, s. auto.
Qed.

Lemma powerlaw_angle_body_inv (t : TurbGenData) (kc Lx Ly Lz : R) (ik nang iang : Z)
  (w w' : World) :
  powerlaw_inv t w ->
  powerlaw_angle_body kc Lx Ly Lz ik nang iang w = Ok w' ->
  powerlaw_inv t w'.
Proof.
  intros Hinv. unfold powerlaw_angle_body.
  pose proof (powerlaw_inv_ran2 t w Hinv) as H1.
  destruct (ran2_tgd_seed w) as [u1 w1]. cbn [snd] in H1. cbv beta iota zeta.
  destruct (ndim (tgd w1) >? 2) eqn:H3d.
  - pose proof (powerlaw_inv_ran2 t w1 H1) as H2.
    destruct (ran2_tgd_seed w1) as [u2 w2]. cbn [snd] in H2. cbv beta iota zeta.
    pose proof (powerlaw_inv_ran2 t w2 H2) as H3.
    destruct (ran2_tgd_seed w2) as [u3 w3]. cbn [snd] in H3. cbv beta iota zeta.
    apply powerlaw_inv_store; [exact H3 | |];
      rewrite (powerlaw_inv_ndim t w3 H3); intros Hd.
    + destruct (Z.gtb_spec (ndim t) 1); [lia | reflexivity].
    + destruct (Z.gtb_spec (ndim t) 2); [lia | reflexivity].
  - pose proof (powerlaw_inv_ran2 t w1 H1) as H3.
    destruct (ran2_tgd_seed w1) as [u3 w3]. cbn [snd] in H3. cbv beta iota zeta.
    apply powerlaw_inv_store; [exact H3 | |];
      rewrite (powerlaw_inv_ndim t w3 H3); intros Hd.
    + destruct (Z.gtb_spec (ndim t) 1); [lia | reflexivity].
    + destruct (Z.gtb_spec (ndim t) 2); [lia | reflexivity].
Qed.

Lemma powerlaw_pass_inv (t : TurbGenData) (kc Lx Ly Lz : R) (w w' : World) :
  powerlaw_inv t w ->
  powerlaw_pass kc Lx Ly Lz w = Ok w' ->
  powerlaw_inv t w'.
Proof.
  intros Hinv. unfold powerlaw_pass.
  pose proof (ran2_tgd (CInt.neg (seed (tgd w))) w) as Hr.
  destruct (TurbGen_ran2 (CInt.neg (seed (tgd w))) w) as [[r s0] w0].
  cbn [snd] in Hr. cbv beta iota zeta.
  assert (H0 : powerlaw_inv t w0).
  { destruct Hinv as (n & am & md & s & Ht & Hrest).
    exists n, am, md, s. rewrite Hr. auto. }
  apply for_loopM_inv; [exact H0 |].
  intros ik a a' _ Ha. unfold powerlaw_shell_body.
  apply for_loopM_inv; [exact Ha |].
  intros iang b b' _. apply powerlaw_angle_body_inv.
Qed.

Lemma mode_sequence_ok (amplitude0 : R) (t : TurbGenData) :
  modes_ok t (mode_sequence amplitude0 t).
Proof.
  destruct (enum_pass_init amplitude0 t) as (_ & _ & _ & _ & Hok). exact Hok.
Qed.

Lemma mode_sequence_length (amplitude0 : R) (t : TurbGenData) :
  Z.of_nat (List.length (mode_sequence amplitude0 t))
  <= 4 * (ikzmax_of t + 1) * (ikymax_of t + 1) * 257.
Proof.
  destruct (enum_pass_init amplitude0 t) as (_ & _ & _ & Hlen & _). exact Hlen.
Qed.

(** What a successful [TurbGen_init_modes] leaves, for any spectral form:
    the initial [tgd] with a new seed and a new mode table of [n] entries,
    all of them modes as produced for the initial [tgd]. *)
Lemma init_modes_modes (amplitude0 : R) (w w' : World) :
  TurbGen_init_modes_from amplitude0 w = Ok w' ->
  exists n am md s,
    tgd w' = set_seed (with_modes (tgd w) n am md) s /\
    0 <= n /\
    forall i, 0 <= i < n ->
      mode_ok (tgd w) (md Axis.X i) (md Axis.Y i) (md Axis.Z i).
Proof.
  intros Hrun. destruct (Z.eq_dec (spect_form (tgd w)) 2) as [Hpl|Hband].
  - (* power law *)
    rewrite init_modes_unfold in Hrun. cbv zeta in Hrun.
    set (t := tgd w) in *.
    destruct (enum_pass_init amplitude0 t) as (_ & Hc & _). cbv zeta in Hc.
    rewrite Hc in Hrun. clear Hc.
    set (c := Z.of_nat (List.length _)) in Hrun.
    change (spect_form (set_n_modes t c)) with (spect_form t) in Hrun.
    change (spect_form (set_n_modes (set_n_modes t c) (-1)))
      with (spect_form t) in Hrun.
    rewrite Hpl in Hrun. cbn [Z.eqb Pos.eqb negb andb] in Hrun.
    change (spect_form (set_n_modes (set_n_modes t c) (-1)))
      with (spect_form t) in Hrun.
    rewrite Hpl in Hrun. cbn [Z.eqb Pos.eqb] in Hrun.
    destruct (powerlaw_pass _ _ _ _ _) as [w2|] eqn:Hpass;
      [| cbn [bind] in Hrun; discriminate].
    cbn [bind] in Hrun. inversion Hrun; subst w'; clear Hrun.
    assert (Hinv : powerlaw_inv t w2).
    { refine (powerlaw_pass_inv t _ _ _ _ _ _ _ Hpass).
      exists (-1), (ampl t), (mode t), (seed t).
      split; [reflexivity | split; [unfold tgd_max_n_modes; lia | intros; lia]]. }
    destruct Hinv as (n & am & md & s & Ht & Hn & Hok).
    exists (n + 1), am, md, s. split; [| split; [lia |]].
    + cbn [tgd set_tgd]. rewrite Ht.
      change (n_modes (set_seed (with_modes t n am md) s)) with n.
      rewrite add_small by (unfold CInt.int_max, tgd_max_n_modes in *; lia).
      reflexivity.
    + intros i Hi. apply Hok. lia.
  - (* Band and Parabola *)
    pose proof (init_modes_band amplitude0 w Hband) as H. cbv zeta in H.
    destruct (too_many_modes _ _); [congruence |].
    destruct H as (am & md & Heq & Hin & Hout).
    rewrite Heq in Hrun. inversion Hrun; subst w'; clear Hrun.
    exists (Z.of_nat (List.length (mode_sequence amplitude0 (tgd w)))), am, md,
      (seed (tgd w)).
    split; [reflexivity | split; [lia |]].
    intros i Hi. destruct (Hin i Hi) as (_ & -> & -> & ->).
    pose proof (mode_sequence_ok amplitude0 (tgd w)) as Hok.
    unfold modes_ok in Hok. rewrite Forall_forall in Hok.
    apply Hok, nth_In. lia.
Qed.

Lemma in_band_true (t : TurbGenData) (k : R) :
  in_band t k = true <-> (stir_min t <= k <= stir_max t)%R.
Proof.
  unfold in_band, CMath.geb. rewrite andb_true_iff, !leb_true_iff. tauto.
Qed.

(** C3.  After a successful [TurbGen_init_modes], for each of the three
    spectral forms and whatever the local [amplitude] held on entry, every
    mode [i < n_modes] has a wavevector whose magnitude
    [sqrt(kx^2 + ky^2 + kz^2)] lies in the closed band
    [[stir_min, stir_max]]. *)
Theorem C3_modes_within_band (amplitude0 : R) (w w' : World) :
  TurbGen_init_modes_from amplitude0 w = Ok w' ->
  forall i, 0 <= i < n_modes (tgd w') ->
    (stir_min (tgd w')
     <= magnitude (mode (tgd w') Axis.X i) (mode (tgd w') Axis.Y i)
          (mode (tgd w') Axis.Z i)
     <= stir_max (tgd w'))%R.
Proof.
  intros Hrun i Hi.
  destruct (init_modes_modes _ _ _ Hrun) as (n & am & md & s & Ht & Hn & Hok).
  rewrite Ht in Hi |- *.
  change (n_modes (set_seed (with_modes (tgd w) n am md) s)) with n in Hi.
  destruct (Hok i Hi) as (Hband & _).
  apply in_band_true in Hband. exact Hband.
Qed.

Lemma magnitude_pos (kx ky kz m : R) :
  (0 < m)%R -> (m <= magnitude kx ky kz)%R -> (0 < kx * kx + ky * ky + kz * kz)%R.
Proof.
  intros Hm Hle. unfold magnitude in Hle.
  destruct (Rle_lt_dec (kx * kx + ky * ky + kz * kz) 0) as [Hneg|Hpos];
    [| exact Hpos].
  rewrite (sqrt_neg_0 _ Hneg) in Hle. lra.
Qed.

Lemma k_sq_of_mode_ok (t t' : TurbGenData) (i : Z) :
  ndim t' = ndim t ->
  1 <= ndim t <= 3 ->
  mode_ok t (mode t' Axis.X i) (mode t' Axis.Y i) (mode t' Axis.Z i) ->
  k_sq t' i = (mode t' Axis.X i * mode t' Axis.X i
               + mode t' Axis.Y i * mode t' Axis.Y i
               + mode t' Axis.Z i * mode t' Axis.Z i)%R.
Proof.
  intros Hnd Hrange (_ & Hy & Hz). unfold k_sq, sum_axes. rewrite Hnd.
  unfold Axis.X, Axis.Y, Axis.Z in *.
  assert (Hcases : ndim t = 1 \/ ndim t = 2 \/ ndim t = 3) by lia.
  destruct Hcases as [H|[H|H]]; rewrite H in *;
    [change (Z.to_nat 1) with 1%nat | change (Z.to_nat 2) with 2%nat
     | change (Z.to_nat 3) with 3%nat];
    cbn [sum_upto Z.of_nat Pos.of_succ_nat Pos.succ].
  - rewrite (Hy ltac:(lia)), (Hz ltac:(lia)). ring.
  - rewrite (Hz ltac:(lia)). ring.
  - ring.
Qed.

(** C8.  If the band minimum [stir_min] is strictly positive and the
    dimensionality is 1, 2 or 3, then after a successful
    [TurbGen_init_modes] every mode [i < n_modes] has
    [k_sq > 0], the sum over the first [ndim] axes of its squared
    wavevector components; this sum is the divisor [kk] that
    [TurbGen_get_decomposition_coeffs] computes for the mode, which is
    therefore not zero. *)
Theorem C8_k_sq_positive (amplitude0 : R) (w w' : World) :
  (0 < stir_min (tgd w))%R ->
  1 <= ndim (tgd w) <= 3 ->
  TurbGen_init_modes_from amplitude0 w = Ok w' ->
  forall i, 0 <= i < n_modes (tgd w') ->
    (0 < k_sq (tgd w') i)%R /\
    snd (for_loop 0 (ndim (tgd w')) (decomp_proj_body (tgd w') i) (0, 0, 0)%R)
    = k_sq (tgd w') i.
Proof.
  intros Hmin Hdim Hrun i Hi.
  destruct (init_modes_modes _ _ _ Hrun) as (n & am & md & s & Ht & Hn & Hok).
  split; [| now rewrite decomp_proj_loop].
  assert (Hnd : ndim (tgd w') = ndim (tgd w)) by (rewrite Ht; reflexivity).
  assert (Hm : mode_ok (tgd w) (mode (tgd w') Axis.X i) (mode (tgd w') Axis.Y i)
                 (mode (tgd w') Axis.Z i)).
  { rewrite Ht in Hi |- *. apply Hok. exact Hi. }
  rewrite (k_sq_of_mode_ok (tgd w) (tgd w') i Hnd Hdim Hm).
  destruct Hm as (Hband & _). apply in_band_true in Hband.
  apply (magnitude_pos _ _ _ (stir_min (tgd w))); [exact Hmin | apply Hband].
Qed.

(** *** Mirror multiplicities *)

Lemma for_loop_rel2 {A B : Type} (R : A -> B -> Prop)
  (fa : Z -> A -> A) (fb : Z -> B -> B) (lo hi : Z) (a : A) (b : B) :
  R a b ->
  (forall j a' b', lo <= j < hi -> R a' b' -> R (fa j a') (fb j b')) ->
  R (for_loop lo hi fa a) (for_loop lo hi fb b).
Proof.
  intros H0 Hstep. destruct (Z_le_gt_dec lo hi) as [Hle|Hgt].
  - apply (for_loop_rel3 (fun _ a' b' (_ : unit) => R a' b')
             fa fb (fun _ u => u) lo hi a b tt Hle H0).
    intros j a' b' _ Hj. now apply Hstep.
  - rewrite !for_loop_empty by lia. exact H0.
Qed.

Lemma seq_body_multiplicity (t : TurbGenData) (pp kc kx ky Lz : R) (ikz : Z)
  (s : list Mode * R) (c : Z) :
  Z.of_nat (List.length (fst s)) = mirror_multiplicity t * c ->
  Z.of_nat (List.length (fst (seq_body t pp kc kx ky Lz ikz s)))
  = mirror_multiplicity t * retained_body t kx ky Lz ikz c.
Proof.
  destruct s as [l a]. unfold seq_body, retained_body, mirror_multiplicity.
  cbn [fst]. intros H.
  destruct (in_band t _); [| cbn [fst]; exact H].
  destruct (ndim t >? 1), (ndim t >? 2); cbn [fst];
    rewrite ?length_app; cbn [List.length]; lia.
Qed.

(** Each retained lattice point contributes [mirror_multiplicity] modes
    to the sequence. *)
Lemma mode_sequence_multiplicity (amplitude0 : R) (t : TurbGenData) :
  Z.of_nat (List.length (mode_sequence amplitude0 t))
  = mirror_multiplicity t * retained_points t.
Proof.
  unfold mode_sequence, seq_pass, retained_points.
  apply (for_loop_rel2
           (fun (s : list Mode * R) c =>
              Z.of_nat (List.length (fst s)) = mirror_multiplicity t * c)).
  - cbn [fst List.length]. lia.
  - intros ikx s c _ H.
    apply (for_loop_rel2
             (fun (s : list Mode * R) c =>
                Z.of_nat (List.length (fst s)) = mirror_multiplicity t * c));
      [exact H |].
    intros iky s' c' _ H'.
    apply (for_loop_rel2
             (fun (s : list Mode * R) c =>
                Z.of_nat (List.length (fst s)) = mirror_multiplicity t * c));
      [exact H' |].
    intros ikz s'' c'' _. apply seq_body_multiplicity.
Qed.

(** C10.  For Band and Parabola, after a successful [TurbGen_init_modes]
    the final [n_modes] is the count [tot_n_modes] of the preliminary
    pass.  Both are the length of the sequence of modes that the
    enumeration retains, in which every retained lattice point contributes
    1, 2 or 4 modes for [ndim] 1, 2, 3; and the arrays [ampl] and [mode]
    hold that sequence in their entries [0 .. n_modes-1] and are unchanged
    in every other entry. *)
Theorem C10_count_matches_generation (amplitude0 : R) (w w' : World) :
  spect_form (tgd w) <> 2 ->
  TurbGen_init_modes_from amplitude0 w = Ok w' ->
  n_modes (tgd w') = tot_n_modes (tgd w) /\
  n_modes (tgd w') = Z.of_nat (List.length (mode_sequence amplitude0 (tgd w))) /\
  n_modes (tgd w') = mirror_multiplicity (tgd w) * retained_points (tgd w) /\
  holds_modes (tgd w) (mode_sequence amplitude0 (tgd w))
    (ampl (tgd w')) (mode (tgd w')).
Proof.
  intros Hsf Hrun.
  pose proof (init_modes_band amplitude0 w Hsf) as H. cbv zeta in H.
  destruct (too_many_modes _ _); [congruence |].
  destruct H as (am & md & Heq & Hh).
  rewrite Heq in Hrun. injection Hrun as <-.
  rewrite (tot_n_modes_length amplitude0).
  split; [reflexivity | split; [reflexivity | split; [| exact Hh]]].
  apply mode_sequence_multiplicity.
Qed.

(** *** Existence of runs: one-dimensional Band/Parabola never exits, and a
    lattice point inside the band gives at least one mode *)

Lemma pow_int (x : R) (z : Z) : CMath.pow x (IZR z) = powerRZ x z.
Proof.
  unfold CMath.pow, CMath.is_integer. rewrite ZfloorZ.
  destruct (Req_dec_T (IZR z) (IZR z)) as [_|Hne]; [reflexivity | contradiction].
Qed.

Lemma too_many_modes_1d (t : TurbGenData) (n : Z) :
  ndim t = 1 -> n < tgd_max_n_modes -> too_many_modes t n = false.
Proof.
  intros Hnd Hn. unfold too_many_modes, CMath.gtb, CMath.ltb, CMath.of_int.
  rewrite Hnd. change (CInt.sub 1 1) with 0. rewrite pow_int.
  change (powerRZ 2 0) with 1%R.
  destruct (Rlt_dec _ _) as [Hlt|]; [| reflexivity].
  exfalso. rewrite <- plus_IZR in Hlt. apply lt_IZR in Hlt. lia.
Qed.

Lemma init_modes_1d_succeeds (amplitude0 : R) (w : World) :
  ndim (tgd w) = 1 -> spect_form (tgd w) <> 2 ->
  exists w', TurbGen_init_modes_from amplitude0 w = Ok w'.
Proof.
  intros Hnd Hsf.
  pose proof (init_modes_band amplitude0 w Hsf) as H. cbv zeta in H.
  pose proof (mode_sequence_length amplitude0 (tgd w)) as Hlen.
  unfold ikymax_of, ikzmax_of in Hlen. rewrite Hnd in Hlen.
  cbn [Z.gtb Z.compare Pos.compare Pos.compare_cont] in Hlen.
  rewrite too_many_modes_1d in H by (unfold tgd_max_n_modes; lia || exact Hnd).
  destruct H as (am & md & Heq & _). eexists. exact Heq.
Qed.

Lemma for_loop_mono {St : Type} (mu : St -> Z) (body : Z -> St -> St) (lo hi : Z) (s : St) :
  (forall j s', lo <= j < hi -> mu s' <= mu (body j s')) ->
  mu s <= mu (for_loop lo hi body s).
Proof.
  intros Hmono. apply (for_loop_inv (fun s' => mu s <= mu s')); [lia |].
  intros j s' Hj Hs'. specialize (Hmono j s' Hj). lia.
Qed.

Lemma for_loop_reach {St : Type} (mu : St -> Z) (body : Z -> St -> St)
  (lo hi k : Z) (s : St) :
  lo <= k < hi ->
  (forall j s', lo <= j < hi -> mu s' <= mu (body j s')) ->
  (forall s', mu s' < mu (body k s')) ->
  mu s < mu (for_loop lo hi body s).
Proof.
  intros Hk Hmono Hhit.
  assert (H : mu s <= mu (for_loop lo hi body s)
              /\ (k < hi -> mu s < mu (for_loop lo hi body s))).
  { apply (for_loop_ind (fun j s' => mu s <= mu s' /\ (k < j -> mu s < mu s')));
      [lia | split; lia |].
    intros j s' Hj [Hle Hlt]. specialize (Hmono j s' Hj). split; [lia |].
    intros Hkj. destruct (Z.eq_dec j k) as [->|Hne].
    - specialize (Hhit s'). lia.
    - specialize (Hlt ltac:(lia)). lia. }
  apply H. lia.
Qed.

Lemma seq_body_mono (t : TurbGenData) (pp kc kx ky Lz : R) (ikz : Z) (s : list Mode * R) :
  Z.of_nat (List.length (fst s))
  <= Z.of_nat (List.length (fst (seq_body t pp kc kx ky Lz ikz s))).
Proof.
  destruct s as [l a]. unfold seq_body.
  destruct (in_band t _); [| cbn [fst]; lia].
  destruct (ndim t >? 1), (ndim t >? 2); cbn [fst];
    rewrite ?length_app; cbn [List.length]; lia.
Qed.

Lemma seq_body_hit (t : TurbGenData) (pp kc kx ky Lz : R) (ikz : Z) (s : list Mode * R) :
  in_band t (magnitude kx ky (wavenumber Lz ikz)) = true ->
  Z.of_nat (List.length (fst s))
  < Z.of_nat (List.length (fst (seq_body t pp kc kx ky Lz ikz s))).
Proof.
  intros Hin. destruct s as [l a]. unfold seq_body. rewrite Hin.
  destruct (ndim t >? 1), (ndim t >? 2); cbn [fst];
    rewrite ?length_app; cbn [List.length]; lia.
Qed.

(** A lattice point of the enumeration that passes the band test puts at
    least one mode in the sequence. *)
Lemma mode_sequence_nonempty (amplitude0 : R) (t : TurbGenData) (ikx iky ikz : Z) :
  0 <= ikx <= 256 -> 0 <= iky <= ikymax_of t -> 0 <= ikz <= ikzmax_of t ->
  in_band t (magnitude (wavenumber (xmax t - xmin t) ikx)
               (wavenumber (ymax t - ymin t) iky)
               (wavenumber (zmax t - zmin t) ikz)) = true ->
  0 < Z.of_nat (List.length (mode_sequence amplitude0 t)).
Proof.
  intros Hx Hy Hz Hin. unfold mode_sequence, seq_pass.
  set (mu := fun s : list Mode * R => Z.of_nat (List.length (fst s))).
  change 0 with (mu ([], amplitude0)) at 1.
  match goal with |- _ < Z.of_nat (List.length (fst ?s)) => change (mu ([], amplitude0) < mu s) end.
  apply (for_loop_reach mu _ 0 (256 + 1) ikx); [lia | |].
  - intros j s' _. apply for_loop_mono. intros j' s'' _.
    apply for_loop_mono. intros j'' s''' _. apply seq_body_mono.
  - intros s'. apply (for_loop_reach mu _ 0 (ikymax_of t + 1) iky); [lia | |].
    + intros j' s'' _. apply for_loop_mono. intros j'' s''' _. apply seq_body_mono.
    + intros s''. apply (for_loop_reach mu _ 0 (ikzmax_of t + 1) ikz); [lia | |].
      * intros j'' s''' _. apply seq_body_mono.
      * intros s'''. apply seq_body_hit, Hin.
Qed.

Lemma example_lattice_point_in_band :
  in_band example_tgd
    (magnitude (wavenumber (xmax example_tgd - xmin example_tgd) 1)
       (wavenumber (ymax example_tgd - ymin example_tgd) 0)
       (wavenumber (zmax example_tgd - zmin example_tgd) 0)) = true.
Proof.
  apply in_band_true. rewrite !wavenumber_0.
  unfold wavenumber, magnitude, CMath.M_PI, CMath.of_int.
  change (xmax example_tgd - xmin example_tgd)%R with (1 - 0)%R.
  change (stir_min example_tgd) with 1%R. change (stir_max example_tgd) with 10%R.
  replace (2 * PI * 1 / (1 - 0) * (2 * PI * 1 / (1 - 0)) + 0 * 0 + 0 * 0)%R
    with ((2 * PI) * (2 * PI))%R by field.
  pose proof PI_4. pose proof PI2_3_2.
  rewrite sqrt_square by lra. lra.
Qed.

(** In one dimension, Band or Parabola, with a lattice point inside the
    band, [TurbGen_init_modes] succeeds and leaves at least one mode. *)
Lemma init_modes_1d_nonempty (amplitude0 : R) (w : World) (ikx : Z) :
  ndim (tgd w) = 1 -> spect_form (tgd w) <> 2 ->
  0 <= ikx <= 256 ->
  in_band (tgd w)
    (magnitude (wavenumber (xmax (tgd w) - xmin (tgd w)) ikx)
       (wavenumber (ymax (tgd w) - ymin (tgd w)) 0)
       (wavenumber (zmax (tgd w) - zmin (tgd w)) 0)) = true ->
  exists w', TurbGen_init_modes_from amplitude0 w = Ok w' /\ 0 < n_modes (tgd w').
Proof.
  intros Hnd Hsf Hx Hin.
  destruct (init_modes_1d_succeeds amplitude0 w Hnd Hsf) as [w' Hrun].
  exists w'. split; [exact Hrun |].
  pose proof (init_modes_band amplitude0 w Hsf) as H. cbv zeta in H.
  destruct (too_many_modes _ _); [congruence |].
  destruct H as (am & md & Heq & _).
  rewrite Heq in Hrun. injection Hrun as Hw. rewrite <- Hw.
  cbn [tgd set_tgd].
  change (0 < Z.of_nat (List.length (mode_sequence amplitude0 (tgd w)))).
  apply (mode_sequence_nonempty amplitude0 (tgd w) ikx 0 0); [lia | | | exact Hin].
  - unfold ikymax_of. destruct (ndim (tgd w) >? 1); lia.
  - unfold ikzmax_of. destruct (ndim (tgd w) >? 2); lia.
Qed.

(** [TurbGen_init_modes] succeeds on the concrete state and leaves at
    least one mode. *)
Lemma init_modes_example :
  exists w', TurbGen_init_modes_from 0 example_world = Ok w' /\ 0 < n_modes (tgd w').
Proof.
  apply (init_modes_1d_nonempty 0 example_world 1).
  - reflexivity.
  - discriminate.
  - lia.
  - exact example_lattice_point_in_band.
Qed.

Lemma C3_modes_within_band_witness :
  exists w',
    TurbGen_init_modes_from 0 example_world = Ok w' /\
    (stir_min (tgd w')
     <= magnitude (mode (tgd w') Axis.X 0%Z) (mode (tgd w') Axis.Y 0%Z)
          (mode (tgd w') Axis.Z 0%Z)
     <= stir_max (tgd w'))%R.
Proof.
  destruct init_modes_example as (w' & Hrun & Hn).
  exists w'. split; [exact Hrun |].
  apply (C3_modes_within_band 0 example_world w' Hrun 0). lia.
Defined.

Lemma C8_k_sq_positive_witness :
  exists w',
    TurbGen_init_modes_from 0 example_world = Ok w' /\ (0 < k_sq (tgd w') 0%Z)%R.
Proof.
  destruct init_modes_example as (w' & Hrun & Hn).
  exists w'. split; [exact Hrun |].
  assert (Hmin : (0 < stir_min (tgd example_world))%R)
    by (change (0 < 1)%R; lra).
  assert (Hdim : 1 <= ndim (tgd example_world) <= 3)
    by (vm_compute; split; discriminate).
  apply (C8_k_sq_positive 0 example_world w' Hmin Hdim Hrun 0). lia.
Defined.

Lemma C10_count_matches_generation_witness :
  exists w',
    TurbGen_init_modes_from 0 example_world = Ok w' /\
    n_modes (tgd w') = tot_n_modes (tgd example_world).
Proof.
  destruct init_modes_example as (w' & Hrun & Hn).
  exists w'. split; [exact Hrun |].
  assert (Hsf : spect_form (tgd example_world) <> 2) by discriminate.
  apply (C10_count_matches_generation 0 example_world w' Hsf Hrun).
Defined.

(** ** Initialisation and the step counter *)

Lemma step_OU_noise_init_body (i : Z) (w : World) :
  step (tgd (OU_noise_init_body i w)) = step (tgd w).
Proof.
  transitivity (step (tgd (snd (TurbGen_grn w)))).
  - unfold_state. reflexivity.
  - rewrite grn_snd. reflexivity.
Qed.

Lemma step_OU_noise_init (w : World) :
  step (tgd (TurbGen_OU_noise_init w)) = step (tgd w).
Proof.
  unfold TurbGen_OU_noise_init.
  apply (for_loop_inv (fun w' => step (tgd w') = step (tgd w))); [reflexivity |].
  intros j w' _ H. now rewrite step_OU_noise_init_body.
Qed.

Lemma step_init_modes (amplitude0 : R) (w w' : World) :
  TurbGen_init_modes_from amplitude0 w = Ok w' -> step (tgd w') = step (tgd w).
Proof.
  intros Hrun.
  destruct (init_modes_modes _ _ _ Hrun) as (n & am & md & s & -> & _).
  reflexivity.
Qed.

(** A successful initialisation leaves the step counter at -1. *)
Lemma step_after_init (file : string) (pe : Z) (p : ParameterFile) (w0 w : World) :
  TurbGen_init_turbulence_generator file pe p w0 = Ok w -> step (tgd w) = -1.
Proof.
  unfold TurbGen_init_turbulence_generator, TurbGen_init_modes.
  destruct (TurbGen_init_modes_from 0 _) as [w1|] eqn:Hmodes;
    cbn [bind]; [| discriminate].
  intros Hrun. injection Hrun as <-.
  rewrite step_get_decomposition_coeffs, step_OU_noise_init.
  rewrite (step_init_modes _ _ _ Hmodes). reflexivity.
Qed.

(** The initialisation from the example parameter file succeeds. *)
Lemma init_example_succeeds :
  exists w,
    TurbGen_init_turbulence_generator "turbulence_generator.inp" 0
      example_parameters world_start = Ok w.
Proof.
  unfold TurbGen_init_turbulence_generator, TurbGen_init_modes.
  destruct (init_modes_1d_succeeds 0
              (set_tgd world_start
                 (init_parameters "turbulence_generator.inp" 0 example_parameters
                    (tgd world_start)))) as [w1 ->].
  - reflexivity.
  - discriminate.
  - cbn [bind]. eexists. reflexivity.
Qed.

(** C7.  The step counter is -1 after a successful initialisation; each
    OU advance increases it by exactly 1 (as long as the result is an
    [int]); and over any sequence of calls of [TurbGen_check_for_update],
    whatever the times, non-decreasing or not, it never decreases. *)
Theorem C7_step_counter_monotone :
  (forall file pe p w0 w,
      TurbGen_init_turbulence_generator file pe p w0 = Ok w ->
      step (tgd w) = -1) /\
  (forall w,
      CInt.in_int (step (tgd w)) -> step (tgd w) < CInt.int_max ->
      step (tgd (TurbGen_OU_noise_update w)) = step (tgd w) + 1) /\
  (forall times w,
      CInt.in_int (step (tgd w)) ->
      step (tgd w) <= step (tgd (check_for_update_seq times w))) /\
  (forall time w,
      CInt.in_int (step (tgd w)) ->
      step (tgd w) <= step (tgd (snd (TurbGen_check_for_update time w)))).
Proof.
  split; [| split; [| split]].
  - intros file pe p w0 w. apply step_after_init.
  - intros w Hs Hmax. rewrite step_OU_noise_update.
    now apply add_one_no_overflow.
  - intros times w. apply step_check_for_update_seq.
  - intros time w Hs. rewrite step_after_check_for_update by exact Hs.
    cbv zeta. lia.
Qed.

Lemma C7_step_counter_monotone_witness :
  (exists w,
      TurbGen_init_turbulence_generator "turbulence_generator.inp" 0
        example_parameters world_start = Ok w /\ step (tgd w) = -1) /\
  step (tgd (TurbGen_OU_noise_update example_world)) = 1 /\
  0 <= step (tgd (check_for_update_seq [(/ 4)%R; (/ 8)%R; 1%R] example_world)).
Proof.
  destruct C7_step_counter_monotone as (Hinit & Hou & Hseq & _).
  assert (Hs : CInt.in_int (step (tgd example_world)))
    by (apply in_int_small; vm_compute; split; discriminate).
  split; [| split].
  - destruct init_example_succeeds as [w Hw]. exists w.
    split; [exact Hw | exact (Hinit _ _ _ _ _ Hw)].
  - apply (Hou example_world Hs). reflexivity.
  - apply (Hseq [(/ 4)%R; (/ 8)%R; 1%R] example_world Hs).
Defined.

(** ** The congruential steps *)

(** Schrage's method: with [m = a*q + r] and [r < q], the expression
    [a*(s - (s/q)*q) - r*(s/q)], corrected by [+ m] when negative, is
    [(a*s) mod m], and no intermediate value leaves the 32-bit range. *)
Lemma schrage_mod (a q r m s : Z) :
  0 < a -> 0 < q -> 0 <= r < q -> m = a * q + r -> m <= CInt.int_max ->
  0 <= s <= m ->
  (let k := CInt.div s q in
   let v := CInt.sub (CInt.mul a (CInt.sub s (CInt.mul k q))) (CInt.mul r k) in
   if v <? 0 then CInt.add v m else v) = (a * s) mod m.
Proof.
  intros Ha Hq Hr Hm Hmax Hs.
  assert (Hk : Z.quot s q = s / q) by (apply Z.quot_div_nonneg; lia).
  pose proof (Z.div_mod s q ltac:(lia)) as Hdm.
  pose proof (Z.mod_pos_bound s q Hq) as Hmod.
  assert (Hk0 : 0 <= s / q) by (apply Z.div_pos; lia).
  assert (Hka : s / q <= a).
  { assert (s / q < a + 1); [| lia]. apply Z.div_lt_upper_bound; [lia | nia]. }
  unfold CInt.int_max in Hmax.
  assert (Hint : forall z, - 2 ^ 31 <= z <= 2 ^ 31 - 1 -> CInt.wrap z = z)
    by (intros z Hz; apply wrap_id; exact Hz).
  cbv zeta. unfold CInt.div, CInt.sub, CInt.mul, CInt.add.
  rewrite Hk.
  rewrite (Hint (s / q)) by nia.
  rewrite (Hint (s / q * q)) by nia.
  rewrite (Hint (s - s / q * q)) by nia.
  rewrite (Hint (a * (s - s / q * q))) by nia.
  rewrite (Hint (r * (s / q))) by nia.
  rewrite (Hint (a * (s - s / q * q) - r * (s / q))) by nia.
  destruct (Z.ltb_spec (a * (s - s / q * q) - r * (s / q)) 0) as [Hneg|Hpos].
  - rewrite Hint by nia.
    apply (Z.mod_unique (a * s) m (s / q - 1)); nia.
  - apply (Z.mod_unique (a * s) m (s / q)); nia.
Qed.

Lemma lehmer_nonzero (a m s : Z) :
  Z.gcd m a = 1 -> 0 < m -> 1 <= s < m -> 1 <= (a * s) mod m <= m - 1.
Proof.
  intros Hg Hm Hs.
  pose proof (Z.mod_pos_bound (a * s) m Hm) as Hb.
  assert ((a * s) mod m <> 0); [| lia].
  intros H0. apply Z.mod_divide in H0; [| lia].
  apply Z.gauss in H0; [| exact Hg].
  apply Z.divide_pos_le in H0; lia.
Qed.

Lemma ran1s_next_pos (s : Z) :
  0 < s <= Ran1s.IM -> Ran1s.next s = (Ran1s.IA * s) mod Ran1s.IM.
Proof.
  intros Hs. unfold Ran1s.next.
  destruct (Z.leb_spec s 0) as [|_]; [lia |].
  apply schrage_mod; unfold Ran1s.IA, Ran1s.IQ, Ran1s.IR, Ran1s.IM, CInt.int_max in *;
    lia.
Qed.

Lemma ran1s_next_range (s : Z) :
  1 <= s <= Ran1s.IM - 1 -> 1 <= Ran1s.next s <= Ran1s.IM - 1.
Proof.
  intros Hs. rewrite ran1s_next_pos by lia.
  apply lehmer_nonzero; [reflexivity | reflexivity | lia].
Qed.

Lemma iter_next_range (k : nat) (s : Z) :
  1 <= s <= Ran1s.IM - 1 -> 1 <= Nat.iter k Ran1s.next s <= Ran1s.IM - 1.
Proof.
  intros Hs. induction k as [|k IH]; [exact Hs |].
  rewrite Nat.iter_succ. now apply ran1s_next_range.
Qed.

Lemma iter_next_lehmer (k : nat) (s : Z) :
  1 <= s <= Ran1s.IM - 1 ->
  Nat.iter k Ran1s.next s = (Ran1s.IA ^ Z.of_nat k * s) mod Ran1s.IM.
Proof.
  intros Hs. induction k as [|k IH].
  - cbn [Nat.iter nat_rect]. change (Z.of_nat 0) with 0.
    rewrite Z.pow_0_r, Z.mul_1_l, Z.mod_small; [reflexivity | lia].
  - rewrite Nat.iter_succ.
    rewrite ran1s_next_pos by (pose proof (iter_next_range k s Hs); lia).
    rewrite IH, Nat2Z.inj_succ, Z.pow_succ_r by lia.
    rewrite Z.mul_mod_idemp_r by (unfold Ran1s.IM; lia).
    f_equal. ring.
Qed.

(** The state that replaces a state that is not positive. *)
Lemma ran1s_next_nonpos (s : Z) :
  CInt.int_min < s <= 0 -> Ran1s.next s = Ran1s.next (Z.max (- s) 1).
Proof.
  intros Hs. unfold Ran1s.next at 1.
  destruct (Z.leb_spec s 0) as [_|]; [| lia].
  assert (Hneg : CInt.neg s = - s).
  { unfold CInt.neg. apply wrap_id. unfold CInt.in_int, CInt.int_min, CInt.int_max in *. lia. }
  rewrite Hneg. unfold CInt.MAX.
  assert (Hpos : Ran1s.next (Z.max (- s) 1) =
                 (let idum := Z.max (- s) 1 in
                  let k := CInt.div idum Ran1s.IQ in
                  let idum := CInt.sub (CInt.mul Ran1s.IA (CInt.sub idum (CInt.mul k Ran1s.IQ)))
                                (CInt.mul Ran1s.IR k) in
                  if idum <? 0 then CInt.add idum Ran1s.IM else idum)).
  { unfold Ran1s.next. destruct (Z.leb_spec (Z.max (- s) 1) 0); [lia | reflexivity]. }
  rewrite Hpos. cbv zeta.
  destruct (Z.gtb_spec (- s) 1).
  - rewrite Z.max_l by lia. reflexivity.
  - rewrite Z.max_r by lia. reflexivity.
Qed.



Lemma ran1s_next_abs (s : Z) :
  CInt.int_min < s <= CInt.int_max ->
  Ran1s.next s = (Ran1s.IA * Z.max (Z.abs s) 1) mod Ran1s.IM.
Proof.
  intros Hs. unfold CInt.int_min, CInt.int_max in Hs.
  destruct (Z.leb_spec s 0) as [Hle|Hgt].
  - rewrite ran1s_next_nonpos by (unfold CInt.int_min; lia).
    rewrite ran1s_next_pos by (unfold Ran1s.IM; lia).
    now rewrite Z.abs_neq by lia.
  - rewrite ran1s_next_pos by (unfold Ran1s.IM; lia).
    rewrite Z.abs_eq, Z.max_l by lia. reflexivity.
Qed.

(** X2.  For every [int] state [s] whose opposite is an [int], the new
    state of [TurbGen_ran1s] lies between 0 and [IM - 1], and it is 0,
    which makes the returned deviate 0, exactly when [s] is [IM] or
    [-IM] (2147483647 or its opposite). *)
Theorem ran1s_next_zero_iff (s : Z) :
  CInt.int_min < s <= CInt.int_max ->
  0 <= Ran1s.next s <= Ran1s.IM - 1 /\
  (Ran1s.next s = 0 <-> s = Ran1s.IM \/ s = - Ran1s.IM).
Proof.
  intros Hs. rewrite ran1s_next_abs by exact Hs.
  unfold CInt.int_min, CInt.int_max in Hs.
  assert (Hm : 1 <= Z.max (Z.abs s) 1 <= Ran1s.IM) by (unfold Ran1s.IM; lia).
  destruct (Z.eq_dec (Z.max (Z.abs s) 1) Ran1s.IM) as [He|Hne].
  - rewrite He. rewrite Z.mod_mul by (unfold Ran1s.IM; lia).
    split; [unfold Ran1s.IM; lia |]. split; [intros _ | reflexivity].
    unfold Ran1s.IM in *. lia.
  - pose proof (lehmer_nonzero Ran1s.IA Ran1s.IM (Z.max (Z.abs s) 1)
                  eq_refl eq_refl ltac:(lia)) as Hr.
    split; [lia |]. split; [lia |]. unfold Ran1s.IM in *. lia.
Qed.

Lemma ran1s_next_zero_iff_witness :
  0 <= Ran1s.next 2147483647 <= Ran1s.IM - 1 /\
  (Ran1s.next 2147483647 = 0 <-> 2147483647 = Ran1s.IM \/ 2147483647 = - Ran1s.IM).
Proof.
  apply (ran1s_next_zero_iff 2147483647). unfold CInt.int_min, CInt.int_max. lia.
Defined.

Lemma ran1s_next_range_int (s : Z) :
  CInt.int_min < s <= CInt.int_max -> s <> Ran1s.IM -> s <> - Ran1s.IM ->
  1 <= Ran1s.next s <= Ran1s.IM - 1.
Proof.
  intros Hs H1 H2. rewrite ran1s_next_abs by exact Hs.
  unfold CInt.int_min, CInt.int_max in Hs.
  apply lehmer_nonzero; [reflexivity | reflexivity |].
  unfold Ran1s.IM in *. lia.
Qed.

Lemma ran1s_deviate (s : Z) (w : World) :
  fst (fst (TurbGen_ran1s s w))
  = CMath.MIN (Ran1s.AM * IZR (Ran1s.next s))%R Ran1s.RNMX.
Proof. reflexivity. Qed.

Lemma deviate_bounds (n : Z) :
  1 <= n <= Ran1s.IM - 1 ->
  (/ IZR Ran1s.IM <= CMath.MIN (Ran1s.AM * IZR n) Ran1s.RNMX <= Ran1s.RNMX)%R.
Proof.
  intros Hn.
  assert (H1 : (1 <= IZR n)%R) by (apply IZR_le; lia).
  assert (HM : (0 < / IZR Ran1s.IM)%R)
    by (apply Rinv_0_lt_compat, IZR_lt; reflexivity).
  assert (Hlow : (/ IZR Ran1s.IM <= Ran1s.AM * IZR n)%R).
  { unfold Ran1s.AM. unfold Rdiv. rewrite Rmult_1_l.
    rewrite <- (Rmult_1_r (/ IZR Ran1s.IM)) at 1.
    apply Rmult_le_compat_l; lra. }
  assert (Hsmall : (/ IZR Ran1s.IM <= Ran1s.RNMX)%R).
  { unfold Ran1s.RNMX, Ran1s.EPS, Ran1s.IM. lra. }
  unfold CMath.MIN, CMath.ltb.
  destruct (Rlt_dec _ _); lra.
Qed.

(** X3.  For every [int] state other than [IM], [-IM] and the least
    [int], the deviate returned by [TurbGen_ran1s] lies between [1/IM] and
    [RNMX = 1 - EPS]: it is strictly between 0 and 1. *)
Theorem ran1s_deviate_in_unit_interval (s : Z) (w : World) :
  CInt.int_min < s <= CInt.int_max -> s <> Ran1s.IM -> s <> - Ran1s.IM ->
  let r := fst (fst (TurbGen_ran1s s w)) in
  (/ IZR Ran1s.IM <= r <= Ran1s.RNMX)%R /\ (0 < r < 1)%R.
Proof.
  intros Hs H1 H2 r. subst r. rewrite ran1s_deviate.
  pose proof (deviate_bounds _ (ran1s_next_range_int s Hs H1 H2)) as Hb.
  split; [exact Hb |].
  assert (HM : (0 < / IZR Ran1s.IM)%R)
    by (apply Rinv_0_lt_compat, IZR_lt; reflexivity).
  assert (HR : (Ran1s.RNMX < 1)%R) by (unfold Ran1s.RNMX, Ran1s.EPS; lra).
  lra.
Qed.

Lemma seed_small (s : Z) : 1 <= s <= 1000000 ->
  CInt.int_min < s <= CInt.int_max /\ s <> Ran1s.IM /\ s <> - Ran1s.IM.
Proof. unfold CInt.int_min, CInt.int_max, Ran1s.IM. lia. Qed.

Lemma ran1s_deviate_in_unit_interval_witness :
  (0 < fst (fst (TurbGen_ran1s 140281 example_world)) < 1)%R.
Proof.
  apply (ran1s_deviate_in_unit_interval 140281 example_world);
    apply (seed_small 140281); lia.
Defined.

Lemma grn_fst (w : World) :
  fst (TurbGen_grn w) =
  (sqrt (2 * ln (1 / CMath.MIN (Ran1s.AM * IZR (Ran1s.next (seed (tgd w))))
                     Ran1s.RNMX))
   * cos (2 * PI * CMath.MIN (Ran1s.AM * IZR (Ran1s.next (Ran1s.next (seed (tgd w)))))
                     Ran1s.RNMX))%R.
Proof. unfold_state. reflexivity. Qed.

(** X4.  When [tgd.seed] is an [int] other than [IM], [-IM] and the least
    [int], the Gaussian deviate returned by [TurbGen_grn] is at most
    [sqrt (2 ln IM)] (about 6.56) in absolute value: the first uniform
    deviate is at least [1/IM], so the logarithm under the square root is
    between 0 and [ln IM]. *)
Theorem grn_is_bounded (w : World) :
  CInt.int_min < seed (tgd w) <= CInt.int_max ->
  seed (tgd w) <> Ran1s.IM -> seed (tgd w) <> - Ran1s.IM ->
  (Rabs (fst (TurbGen_grn w)) <= sqrt (2 * ln (IZR Ran1s.IM)))%R.
Proof.
  intros Hs H1 H2. rewrite grn_fst.
  pose proof (deviate_bounds _ (ran1s_next_range_int _ Hs H1 H2)) as Hb.
  set (r1 := CMath.MIN _ _) in *.
  set (c := cos _).
  assert (HM : (0 < IZR Ran1s.IM)%R) by (apply IZR_lt; reflexivity).
  assert (HMi : (0 < / IZR Ran1s.IM)%R) by (now apply Rinv_0_lt_compat).
  assert (Hr1 : (0 < r1)%R) by lra.
  assert (Hinv : (1 / r1 <= IZR Ran1s.IM)%R).
  { unfold Rdiv. rewrite Rmult_1_l.
    rewrite <- (Rinv_inv (IZR Ran1s.IM)).
    apply Rinv_le_contravar; lra. }
  assert (Hge1 : (1 <= 1 / r1)%R).
  { unfold Rdiv. rewrite Rmult_1_l. rewrite <- Rinv_1 at 1.
    apply Rinv_le_contravar; [lra |].
    unfold Ran1s.RNMX, Ran1s.EPS in Hb. lra. }
  assert (Hln : (ln (1 / r1) <= ln (IZR Ran1s.IM))%R).
  { destruct Hinv as [Hlt|Heq].
    - left. apply ln_increasing; lra.
    - rewrite Heq. lra. }
  assert (Hln0 : (0 <= ln (1 / r1))%R).
  { rewrite <- ln_1. destruct Hge1 as [Hlt|Heq].
    - left. apply ln_increasing; lra.
    - rewrite <- Heq. lra. }
  rewrite Rabs_mult.
  rewrite (Rabs_pos_eq (sqrt _)) by apply sqrt_pos.
  assert (Hc : (Rabs c <= 1)%R).
  { unfold c. apply Rabs_le. pose proof (COS_bound (2 * PI * CMath.MIN
      (Ran1s.AM * IZR (Ran1s.next (Ran1s.next (seed (tgd w))))) Ran1s.RNMX)). lra. }
  assert (Hsq : (sqrt (2 * ln (1 / r1)) <= sqrt (2 * ln (IZR Ran1s.IM)))%R).
  { apply sqrt_le_1_alt. lra. }
  pose proof (sqrt_pos (2 * ln (1 / r1))) as Hs0.
  pose proof (Rabs_pos c) as Hc0.
  apply Rle_trans with (sqrt (2 * ln (1 / r1)) * 1)%R.
  - apply Rmult_le_compat_l; assumption.
  - lra.
Qed.

Lemma grn_is_bounded_witness :
  (Rabs (fst (TurbGen_grn example_world)) <= sqrt (2 * ln (IZR Ran1s.IM)))%R.
Proof.
  apply (grn_is_bounded example_world); apply (seed_small 140281); lia.
Defined.

Lemma seed_after_OU_noise_update (w : World) :
  seed (tgd (TurbGen_OU_noise_update w))
  = Nat.iter (2 * Z.to_nat (CInt.mul 6 (n_modes (tgd w)))) Ran1s.next (seed (tgd w)).
Proof.
  destruct (OU_noise_update_shape w) as (ph & -> & _).
  cbv zeta. rewrite after_grn_shape. reflexivity.
Qed.

(** X5.  With at most [tgd_max_n_modes] modes and a seed between 1 and
    [IM - 1], one call of [TurbGen_OU_noise_update] leaves [tgd.seed] equal
    to [16807^(12 n_modes) * seed mod (2^31 - 1)], the state of the
    minimal-standard sequence [12 n_modes] steps further, again between 1
    and [IM - 1]. *)
Theorem OU_noise_update_seed_jump (w : World) :
  0 <= n_modes (tgd w) <= tgd_max_n_modes ->
  1 <= seed (tgd w) <= Ran1s.IM - 1 ->
  seed (tgd (TurbGen_OU_noise_update w))
  = (16807 ^ (12 * n_modes (tgd w)) * seed (tgd w)) mod (2 ^ 31 - 1) /\
  1 <= seed (tgd (TurbGen_OU_noise_update w)) <= Ran1s.IM - 1.
Proof.
  intros Hn Hs. rewrite seed_after_OU_noise_update.
  split; [| now apply iter_next_range].
  rewrite iter_next_lehmer by exact Hs.
  rewrite mul6_n_modes by exact Hn.
  replace (Z.of_nat (2 * Z.to_nat (6 * n_modes (tgd w)))) with (12 * n_modes (tgd w))
    by lia.
  reflexivity.
Qed.

Lemma OU_noise_update_seed_jump_witness :
  seed (tgd (TurbGen_OU_noise_update example_world))
  = (16807 ^ (12 * n_modes (tgd example_world)) * seed (tgd example_world))
      mod (2 ^ 31 - 1).
Proof.
  apply (OU_noise_update_seed_jump example_world).
  - cbn [example_world tgd example_tgd n_modes]. unfold tgd_max_n_modes. lia.
  - cbn [example_world tgd example_tgd seed]. unfold Ran1s.IM. lia.
Defined.

Lemma grn_fst_seed (w1 w2 : World) :
  seed (tgd w1) = seed (tgd w2) -> fst (TurbGen_grn w1) = fst (TurbGen_grn w2).
Proof. intros H. rewrite !grn_fst, H. reflexivity. Qed.

Lemma seed_after_grn (n : nat) (w : World) :
  seed (tgd (after_grn n w)) = Nat.iter (2 * n) Ran1s.next (seed (tgd w)).
Proof. rewrite after_grn_shape. reflexivity. Qed.

Lemma nth_grn_seed_only (w1 w2 : World) (n : nat) :
  seed (tgd w1) = seed (tgd w2) -> nth_grn n w1 = nth_grn n w2.
Proof.
  intros H. unfold nth_grn. apply grn_fst_seed.
  rewrite !seed_after_grn, H. reflexivity.
Qed.

(** ** The long-period generator *)

Lemma for_down_ind {St : Type} (P : Z -> St -> Prop) (body : Z -> St -> St) (n : nat) :
  forall s : St,
    P (Z.of_nat n) s ->
    (forall j s', 0 <= j < Z.of_nat n -> P (j + 1) s' -> P j (body j s')) ->
    P 0 (for_down n body s).
Proof.
  induction n as [|n IH]; intros s H0 Hstep.
  - exact H0.
  - cbn [for_down]. apply IH.
    + apply Hstep; [lia |]. replace (Z.of_nat n + 1) with (Z.of_nat (S n)) by lia.
      exact H0.
    + intros j s' Hj. apply Hstep. lia.
Qed.

Lemma ran2_step1_mod (s : Z) :
  0 <= s <= Ran2.IM1 -> Ran2.step1 s = (Ran2.IA1 * s) mod Ran2.IM1.
Proof.
  intros Hs. unfold Ran2.step1. cbv zeta.
  replace (CInt.mul (CInt.div s Ran2.IQ1) Ran2.IR1)
    with (CInt.mul Ran2.IR1 (CInt.div s Ran2.IQ1))
    by (unfold CInt.mul; f_equal; ring).
  apply (schrage_mod Ran2.IA1 Ran2.IQ1 Ran2.IR1 Ran2.IM1 s);
    unfold Ran2.IA1, Ran2.IQ1, Ran2.IR1, Ran2.IM1, CInt.int_max in *; lia.
Qed.

Lemma ran2_step2_mod (s : Z) :
  0 <= s <= Ran2.IM2 -> Ran2.step2 s = (Ran2.IA2 * s) mod Ran2.IM2.
Proof.
  intros Hs. unfold Ran2.step2. cbv zeta.
  replace (CInt.mul (CInt.div s Ran2.IQ2) Ran2.IR2)
    with (CInt.mul Ran2.IR2 (CInt.div s Ran2.IQ2))
    by (unfold CInt.mul; f_equal; ring).
  apply (schrage_mod Ran2.IA2 Ran2.IQ2 Ran2.IR2 Ran2.IM2 s);
    unfold Ran2.IA2, Ran2.IQ2, Ran2.IR2, Ran2.IM2, CInt.int_max in *; lia.
Qed.

Lemma ran2_step1_range (s : Z) :
  1 <= s <= Ran2.IM1 - 1 -> 1 <= Ran2.step1 s <= Ran2.IM1 - 1.
Proof.
  intros Hs. rewrite ran2_step1_mod by lia.
  apply lehmer_nonzero; [reflexivity | reflexivity | lia].
Qed.

Lemma ran2_step2_range (s : Z) :
  1 <= s <= Ran2.IM2 - 1 -> 1 <= Ran2.step2 s <= Ran2.IM2 - 1.
Proof.
  intros Hs. rewrite ran2_step2_mod by lia.
  apply lehmer_nonzero; [reflexivity | reflexivity | lia].
Qed.

Lemma IMM1_value : Ran2.IMM1 = 2147483562.
Proof. reflexivity. Qed.

Lemma NDIV_value : Ran2.NDIV = 67108862.
Proof. reflexivity. Qed.

(** The index [iy/NDIV] of the shuffle table. *)
Lemma ran2_index_range (y : Z) :
  0 <= y <= Ran2.IMM1 -> 0 <= CInt.div y Ran2.NDIV < Ran2.NTAB.
Proof.
  rewrite IMM1_value, NDIV_value. unfold Ran2.NTAB, CInt.div. intros Hy.
  rewrite Z.quot_div_nonneg by lia.
  assert (0 <= y / 67108862 < 32).
  { split; [apply Z.div_pos; lia | apply Z.div_lt_upper_bound; lia]. }
  rewrite wrap_id by (unfold CInt.in_int, CInt.int_min, CInt.int_max; lia).
  assumption.
Qed.

(** The output [iy] of one call, from a table entry [v] and the new
    [idum2]. *)
Lemma ran2_output_range (v d : Z) :
  0 <= v <= Ran2.IM1 - 1 -> 1 <= d <= Ran2.IM2 - 1 ->
  let y := CInt.sub v d in
  1 <= (if y <? 1 then CInt.add y Ran2.IMM1 else y) <= Ran2.IMM1.
Proof.
  rewrite IMM1_value. unfold Ran2.IM1, Ran2.IM2, CInt.sub, CInt.add.
  intros Hv Hd. cbv zeta.
  rewrite wrap_id by (unfold CInt.in_int, CInt.int_min, CInt.int_max; lia).
  destruct (Z.ltb_spec (v - d) 1).
  - rewrite wrap_id by (unfold CInt.in_int, CInt.int_min, CInt.int_max; lia). lia.
  - lia.
Qed.

Lemma ran2_deviate_bounds (y : Z) :
  1 <= y <= Ran2.IMM1 ->
  (0 < CMath.MIN (Ran2.AM * CMath.of_int y) Ran2.RNMX < 1)%R.
Proof.
  rewrite IMM1_value. intros Hy.
  assert (H1 : (1 <= IZR y)%R) by (apply IZR_le; lia).
  assert (HM : (0 < / IZR Ran2.IM1)%R)
    by (apply Rinv_0_lt_compat, IZR_lt; reflexivity).
  assert (Hpos : (0 < Ran2.AM * CMath.of_int y)%R).
  { unfold Ran2.AM, CMath.of_int, Rdiv. rewrite Rmult_1_l.
    apply Rmult_lt_0_compat; lra. }
  assert (HR : (0 < Ran2.RNMX < 1)%R) by (unfold Ran2.RNMX, Ran2.EPS; lra).
  unfold CMath.MIN, CMath.ltb.
  destruct (Rlt_dec _ _); lra.
Qed.

(** A call with a positive [idum], spelled out. *)
Lemma ran2_regular (idum : Z) (w : World) :
  0 < idum ->
  TurbGen_ran2 idum w =
  (let st := ran2_static w in
   let idum' := Ran2.step1 idum in
   let idum2' := Ran2.step2 (idum2 st) in
   let j := CInt.div (iy st) Ran2.NDIV in
   let y := CInt.sub (iv st j) idum2' in
   let y' := if y <? 1 then CInt.add y Ran2.IMM1 else y in
   (CMath.MIN (Ran2.AM * CMath.of_int y') Ran2.RNMX, idum',
    record_call
      (set_ran2_static w {| idum2 := idum2'; iy := y'; iv := aset (iv st) j idum' |})
      call_ran2)).
Proof.
  intros Hpos. unfold TurbGen_ran2.
  destruct (Z.leb_spec idum 0); [lia | reflexivity].
Qed.

Lemma ran2_init_call (idum : Z) (w : World) :
  idum <= 0 ->
  let i0 := CInt.MAX (CInt.neg idum) 1 in
  let wm := for_down (Z.to_nat (CInt.add Ran2.NTAB 7 + 1)) Ran2.warm_body
              (i0, iv (ran2_static w)) in
  0 < fst wm ->
  TurbGen_ran2 idum w =
  TurbGen_ran2 (fst wm)
    (set_ran2_static w {| idum2 := i0; iy := snd wm 0; iv := snd wm |}).
Proof.
  intros Hle. cbv zeta. unfold TurbGen_ran2.
  destruct (Z.leb_spec idum 0); [| lia].
  generalize (for_down (Z.to_nat (CInt.add Ran2.NTAB 7 + 1)) Ran2.warm_body
                (CInt.MAX (CInt.neg idum) 1, iv (ran2_static w))).
  intros [i1 iv1]. cbn [fst snd]. intros Hpos.
  destruct (Z.leb_spec i1 0); [lia |]. reflexivity.
Qed.

Lemma for_down_rel2 {A B : Type} (R : Z -> A -> B -> Prop)
  (fa : Z -> A -> A) (fb : Z -> B -> B) (n : nat) :
  forall (a : A) (b : B),
    R (Z.of_nat n) a b ->
    (forall j a' b', 0 <= j < Z.of_nat n -> R (j + 1) a' b' -> R j (fa j a') (fb j b')) ->
    R 0 (for_down n fa a) (for_down n fb b).
Proof.
  induction n as [|n IH]; intros a b H0 Hstep.
  - exact H0.
  - cbn [for_down]. apply IH.
    + apply Hstep; [lia |]. replace (Z.of_nat n + 1) with (Z.of_nat (S n)) by lia.
      exact H0.
    + intros j a' b' Hj. apply Hstep. lia.
Qed.

(** After the warm-up loop the state of the first sequence is in range and
    the 32 entries of the table have been written with such states. *)
Lemma ran2_warm_up_range (n : nat) (i0 : Z) (tv : array Z) :
  1 <= i0 <= Ran2.IM1 - 1 -> Ran2.NTAB <= Z.of_nat n ->
  let wm := for_down n Ran2.warm_body (i0, tv) in
  1 <= fst wm <= Ran2.IM1 - 1 /\
  forall k, 0 <= k < Ran2.NTAB -> 1 <= snd wm k <= Ran2.IM1 - 1.
Proof.
  intros Hi Hn. cbv zeta.
  apply (for_down_ind
           (fun j s => 1 <= fst s <= Ran2.IM1 - 1 /\
                       forall k, j <= k < Ran2.NTAB -> 1 <= snd s k <= Ran2.IM1 - 1)).
  - cbn [fst snd]. split; [exact Hi | intros k Hk; lia].
  - intros j [i tv'] Hj [Hr Ht]. cbn [fst snd] in *. unfold Ran2.warm_body. cbn [fst snd].
    pose proof (ran2_step1_range i Hr) as Hs.
    split; [exact Hs |]. intros k Hk.
    destruct (Z.ltb_spec j Ran2.NTAB).
    + destruct (Z.eq_dec k j) as [->|Hne].
      * rewrite aset_eq. exact Hs.
      * rewrite aset_neq by exact Hne. apply Ht. lia.
    + lia.
Qed.

(** The warm-up loop overwrites the 32 entries of the table: its result
    does not depend on their former content. *)
Lemma ran2_warm_up_reset (n : nat) (i0 : Z) (tv1 tv2 : array Z) :
  Ran2.NTAB <= Z.of_nat n ->
  let wm1 := for_down n Ran2.warm_body (i0, tv1) in
  let wm2 := for_down n Ran2.warm_body (i0, tv2) in
  fst wm1 = fst wm2 /\ forall k, 0 <= k < Ran2.NTAB -> snd wm1 k = snd wm2 k.
Proof.
  intros Hn. cbv zeta.
  apply (for_down_rel2
           (fun j s1 s2 => fst s1 = fst s2 /\
                           forall k, j <= k < Ran2.NTAB -> snd s1 k = snd s2 k)).
  - cbn [fst snd]. split; [reflexivity | intros k Hk; lia].
  - intros j [i1 t1] [i2 t2] Hj [He Ht]. cbn [fst snd] in *. subst i2.
    unfold Ran2.warm_body. cbn [fst snd].
    split; [reflexivity |]. intros k Hk.
    destruct (Z.ltb_spec j Ran2.NTAB).
    + destruct (Z.eq_dec k j) as [->|Hne].
      * now rewrite !aset_eq.
      * rewrite !aset_neq by exact Hne. apply Ht. lia.
    + lia.
Qed.

Lemma ran2_warm_count : Z.to_nat (CInt.add Ran2.NTAB 7 + 1) = 40%nat.
Proof. reflexivity. Qed.

Lemma ran2_first_state (idum : Z) :
  - Ran2.IM2 < idum <= 0 ->
  1 <= CInt.MAX (CInt.neg idum) 1 <= Ran2.IM2 - 1.
Proof.
  unfold Ran2.IM2. intros H.
  assert (Hneg : CInt.neg idum = - idum).
  { unfold CInt.neg. apply wrap_id.
    unfold CInt.in_int, CInt.int_min, CInt.int_max. lia. }
  rewrite Hneg. unfold CInt.MAX. destruct (Z.gtb_spec (- idum) 1); lia.
Qed.

(** What a call with a state in range does. *)
Lemma ran2_regular_ok (idum : Z) (w : World) :
  ran2_state_ok (ran2_static w) -> 1 <= idum <= Ran2.IM1 - 1 ->
  let j := CInt.div (iy (ran2_static w)) Ran2.NDIV in
  let res := TurbGen_ran2 idum w in
  0 <= j < Ran2.NTAB /\
  (0 < fst (fst res) < 1)%R /\
  snd (fst res) = Ran2.step1 idum /\
  1 <= snd (fst res) <= Ran2.IM1 - 1 /\
  ran2_state_ok (ran2_static (snd res)) /\
  1 <= iy (ran2_static (snd res)) /\
  (forall i, i <> j -> iv (ran2_static (snd res)) i = iv (ran2_static w) i).
Proof.
  intros (Hd & Hy & Ht) Hi. cbv zeta.
  rewrite ran2_regular by lia. cbv zeta. cbn [fst snd].
  pose proof (ran2_index_range _ Hy) as Hj.
  pose proof (ran2_step1_range _ Hi) as H1.
  pose proof (ran2_step2_range _ Hd) as H2.
  pose proof (ran2_output_range _ _ (Ht _ Hj) H2) as Ho. cbv zeta in Ho.
  split; [exact Hj |].
  split; [apply ran2_deviate_bounds; exact Ho |].
  split; [reflexivity |].
  split; [exact H1 |].
  cbn [ran2_static record_call set_ran2_static iv iy idum2].
  split; [| split].
  - split; [exact H2 |]. split; [split; [| apply Ho]; apply Z.le_trans with 1; [lia | apply Ho] |].
    intros k Hk. cbn [iv].
    destruct (Z.eq_dec k (CInt.div (iy (ran2_static w)) Ran2.NDIV)) as [->|Hne].
    + rewrite aset_eq. lia.
    + rewrite aset_neq by exact Hne. now apply Ht.
  - apply Ho.
  - intros i Hne. cbn [iv]. now rewrite aset_neq.
Qed.

Lemma ran2_static_init_ok : ran2_state_ok ran2_static_init.
Proof.
  unfold ran2_state_ok, ran2_static_init. cbn [idum2 iy iv].
  rewrite IMM1_value. unfold Ran2.IM1, Ran2.IM2. repeat split; intros; lia.
Qed.

(** X6.  A call of [TurbGen_ran2] with [*idum] between 1 and [IM1 - 1]
    and its statics in range uses an index [iy/NDIV] of the shuffle table
    between 0 and 31 and changes no other entry, returns a deviate strictly
    between 0 and 1, advances [*idum] to [40014 * idum mod 2147483563],
    again between 1 and [IM1 - 1], and leaves its statics in range. *)
Theorem ran2_call_stays_in_range (idum : Z) (w : World) :
  ran2_state_ok (ran2_static w) -> 1 <= idum <= Ran2.IM1 - 1 ->
  let j := CInt.div (iy (ran2_static w)) Ran2.NDIV in
  let res := TurbGen_ran2 idum w in
  0 <= j < Ran2.NTAB /\
  (0 < fst (fst res) < 1)%R /\
  snd (fst res) = (40014 * idum) mod 2147483563 /\
  1 <= snd (fst res) <= Ran2.IM1 - 1 /\
  ran2_state_ok (ran2_static (snd res)) /\
  (forall i, i <> j -> iv (ran2_static (snd res)) i = iv (ran2_static w) i).
Proof.
  intros Hok Hi.
  destruct (ran2_regular_ok idum w Hok Hi) as (Hj & Hr & Hs & Hsr & Hok' & _ & Hfr).
  cbv zeta in *.
  split; [exact Hj |]. split; [exact Hr |].
  split; [rewrite Hs; apply ran2_step1_mod; lia |].
  split; [exact Hsr |]. split; [exact Hok' | exact Hfr].
Qed.

Lemma ran2_call_stays_in_range_witness :
  (0 < fst (fst (TurbGen_ran2 1 world_start)) < 1)%R /\
  snd (fst (TurbGen_ran2 1 world_start)) = (40014 * 1) mod 2147483563.
Proof.
  pose proof (ran2_call_stays_in_range 1 world_start ran2_static_init_ok
                ltac:(unfold Ran2.IM1; lia)) as H.
  cbv zeta in H. split; [apply H | apply H].
Defined.

(** X7.  A call of [TurbGen_ran2] with [*idum] not positive and above
    [-IM2] restarts the generator: the deviate returned, the new [*idum],
    [idum2], [iy] and the 32 entries of the shuffle table do not depend on
    the statics before the call; the statics are in range afterwards, and
    the deviate is strictly between 0 and 1. *)
Theorem ran2_negative_seed_reinitialises (idum : Z) (w1 w2 : World) :
  - Ran2.IM2 < idum <= 0 ->
  let r1 := TurbGen_ran2 idum w1 in
  let r2 := TurbGen_ran2 idum w2 in
  fst r1 = fst r2 /\
  idum2 (ran2_static (snd r1)) = idum2 (ran2_static (snd r2)) /\
  iy (ran2_static (snd r1)) = iy (ran2_static (snd r2)) /\
  (forall k, 0 <= k < Ran2.NTAB ->
     iv (ran2_static (snd r1)) k = iv (ran2_static (snd r2)) k) /\
  ran2_state_ok (ran2_static (snd r1)) /\
  (0 < fst (fst r1) < 1)%R.
Proof.
  intros Hid. cbv zeta.
  assert (Hle : idum <= 0) by lia.
  pose proof (ran2_init_call idum w1 Hle) as E1.
  pose proof (ran2_init_call idum w2 Hle) as E2.
  cbv zeta in E1, E2. rewrite ran2_warm_count in E1, E2.
  pose proof (ran2_first_state idum Hid) as Hi0.
  set (i0 := CInt.MAX (CInt.neg idum) 1) in *.
  assert (Hi0' : 1 <= i0 <= Ran2.IM1 - 1) by (unfold Ran2.IM1, Ran2.IM2 in *; lia).
  assert (Hn : Ran2.NTAB <= Z.of_nat 40) by (unfold Ran2.NTAB; lia).
  destruct (ran2_warm_up_range 40 i0 (iv (ran2_static w1)) Hi0' Hn) as [Hf1 Ht1].
  destruct (ran2_warm_up_range 40 i0 (iv (ran2_static w2)) Hi0' Hn) as [Hf2 Ht2].
  destruct (ran2_warm_up_reset 40 i0 (iv (ran2_static w1)) (iv (ran2_static w2)) Hn)
    as [Hfe Hte].
  destruct (for_down 40 Ran2.warm_body (i0, iv (ran2_static w1))) as [a1 t1].
  destruct (for_down 40 Ran2.warm_body (i0, iv (ran2_static w2))) as [a2 t2].
  cbn [fst snd] in *. subst a2.
  rewrite E1, E2 by lia. clear E1 E2.
  assert (H0 : 0 <= 0 < Ran2.NTAB) by (unfold Ran2.NTAB; lia).
  assert (Hok1 : ran2_state_ok
                   (ran2_static (set_ran2_static w1 {| idum2 := i0; iy := t1 0; iv := t1 |}))).
  { unfold ran2_state_ok. cbn [ran2_static set_ran2_static idum2 iy iv].
    split; [exact Hi0 |]. split.
    - rewrite IMM1_value. specialize (Ht1 0 H0). unfold Ran2.IM1 in Ht1. lia.
    - intros j Hj. specialize (Ht1 j Hj). lia. }
  destruct (ran2_regular_ok a1 _ Hok1 Hf1) as (Hj & Hr & _ & _ & Hok' & _ & _).
  cbn [ran2_static set_ran2_static iy] in Hj.
  split; [| split; [| split; [| split; [| split]]]];
    try exact Hok'; try exact Hr;
    rewrite !ran2_regular by lia; cbv zeta;
    cbn [fst snd ran2_static record_call set_ran2_static idum2 iy iv];
    rewrite <- ?(Hte 0 H0), <- ?(Hte _ Hj); try reflexivity.
  intros k Hk. cbn [iv].
  destruct (Z.eq_dec k (CInt.div (t1 0) Ran2.NDIV)) as [->|Hne].
  - now rewrite !aset_eq.
  - rewrite !aset_neq by exact Hne. now apply Hte.
Qed.

Lemma ran2_negative_seed_reinitialises_witness :
  fst (TurbGen_ran2 (-140281) world_start)
  = fst (TurbGen_ran2 (-140281) (snd (TurbGen_ran2 (-1) world_start))).
Proof.
  apply (ran2_negative_seed_reinitialises (-140281) world_start
           (snd (TurbGen_ran2 (-1) world_start))).
  unfold Ran2.IM2. lia.
Defined.

(** ** Initial phases *)

Lemma OU_noise_init_body_spec (i : Z) (w : World) :
  OU_noise_init_body i w =
  with_phases (snd (TurbGen_grn w))
    (aset (OUphases (tgd w)) i (OUvar (tgd w) * fst (TurbGen_grn w))%R).
Proof. unfold_state. reflexivity. Qed.

(** The loop of [TurbGen_OU_noise_init], run over [n] slots. *)
Lemma OU_init_loop (w : World) (n : Z) :
  exists ph,
    for_loop 0 n OU_noise_init_body w
    = with_phases (after_grn (Z.to_nat n) w) ph /\
    (forall i, 0 <= i < n -> ph i = (OUvar (tgd w) * nth_grn (Z.to_nat i) w)%R) /\
    (forall i, ~ 0 <= i < n -> ph i = OUphases (tgd w) i).
Proof.
  destruct (Z_le_gt_dec 0 n) as [Hn|Hn].
  - apply (for_loop_ind
             (fun j s => exists ph,
                  s = with_phases (after_grn (Z.to_nat j) w) ph /\
                  (forall i, 0 <= i < j ->
                     ph i = (OUvar (tgd w) * nth_grn (Z.to_nat i) w)%R) /\
                  (forall i, ~ 0 <= i < j -> ph i = OUphases (tgd w) i)));
      [exact Hn | |].
    + exists (OUphases (tgd w)).
      change (after_grn (Z.to_nat 0) w) with w.
      rewrite with_phases_self.
      split; [reflexivity | split; [intros; lia | reflexivity]].
    + intros j s Hj (ph & -> & Hin & Hout).
      rewrite OU_noise_init_body_spec.
      rewrite grn_with_phases_fst, grn_with_phases_snd, with_phases_twice.
      rewrite OUphases_with_phases, OUvar_with_phases, OUvar_after_grn.
      replace (Z.to_nat (j + 1)) with (S (Z.to_nat j)) by lia.
      change (after_grn (S (Z.to_nat j)) w)
        with (snd (TurbGen_grn (after_grn (Z.to_nat j) w))).
      exists (aset ph j
                (OUvar (tgd w) * fst (TurbGen_grn (after_grn (Z.to_nat j) w)))%R).
      split; [reflexivity | split].
      * intros i Hi. unfold aset. destruct (Z.eqb_spec i j) as [->|Hne].
        -- reflexivity.
        -- apply Hin. lia.
      * intros i Hi. unfold aset. destruct (Z.eqb_spec i j) as [->|Hne]; [lia|].
        apply Hout. lia.
  - rewrite for_loop_empty by lia.
    replace (Z.to_nat n) with O by lia.
    exists (OUphases (tgd w)). change (after_grn 0 w) with w.
    rewrite with_phases_self.
    split; [reflexivity | split; [intros; lia | reflexivity]].
Qed.

Lemma OU_noise_init_shape (w : World) :
  exists ph,
    TurbGen_OU_noise_init w
    = with_phases (after_grn (Z.to_nat (CInt.mul 6 (n_modes (tgd w)))) w) ph /\
    (forall i, 0 <= i < CInt.mul 6 (n_modes (tgd w)) ->
       ph i = (OUvar (tgd w) * nth_grn (Z.to_nat i) w)%R) /\
    (forall i, ~ 0 <= i < CInt.mul 6 (n_modes (tgd w)) -> ph i = OUphases (tgd w) i).
Proof. apply OU_init_loop. Qed.

(** X8.  With at most [tgd_max_n_modes] modes, [TurbGen_OU_noise_init]
    assigns to every phase slot [i < 6 n_modes] the value [OUvar] times the
    [i]-th Gaussian deviate drawn from the initial seed, whatever the slot
    held before; it changes no other slot and nothing else in the state
    but the seed, and calls [TurbGen_ran1s] exactly [12 n_modes] times and
    [TurbGen_ran2] never. *)
Theorem OU_noise_init_fills_phases (w : World) :
  0 <= n_modes (tgd w) <= tgd_max_n_modes ->
  let w' := TurbGen_OU_noise_init w in
  (forall i, 0 <= i < 6 * n_modes (tgd w) ->
     OUphases (tgd w') i = (OUvar (tgd w) * nth_grn (Z.to_nat i) w)%R) /\
  (forall i, ~ 0 <= i < 6 * n_modes (tgd w) ->
     OUphases (tgd w') i = OUphases (tgd w) i) /\
  w' = with_phases (after_grn (Z.to_nat (6 * n_modes (tgd w))) w) (OUphases (tgd w')) /\
  calls_during TurbGen_OU_noise_init w
  = repeat call_ran1s (Z.to_nat (12 * n_modes (tgd w))).
Proof.
  intros Hn w'. subst w'.
  destruct (OU_noise_init_shape w) as (ph & Heq & Hin & Hout).
  rewrite mul6_n_modes in Heq, Hin, Hout by exact Hn.
  unfold calls_during. rewrite Heq. rewrite OUphases_with_phases.
  split; [exact Hin | split; [exact Hout | split; [reflexivity |]]].
  transitivity (skipn (List.length (rng_calls w))
                  (rng_calls (after_grn (Z.to_nat (6 * n_modes (tgd w))) w)));
    [reflexivity |].
  rewrite after_grn_shape. cbn [rng_calls].
  rewrite skipn_app, skipn_all, Nat.sub_diag. cbn [skipn app].
  f_equal. lia.
Qed.

Lemma OU_noise_init_fills_phases_witness :
  OUphases (tgd (TurbGen_OU_noise_init example_world)) 3
  = (OUvar (tgd example_world) * nth_grn 3 example_world)%R.
Proof.
  assert (Hn : 0 <= n_modes (tgd example_world) <= tgd_max_n_modes).
  { cbn [example_world tgd example_tgd n_modes]. unfold tgd_max_n_modes. lia. }
  destruct (OU_noise_init_fills_phases example_world Hn) as (Hin & _).
  apply (Hin 3). cbn [example_world tgd example_tgd n_modes]. lia.
Defined.

(** ** The decomposition *)

(** X9.  [TurbGen_get_decomposition_coeffs] assigns [aka[j][i]] and
    [akb[j][i]] for every mode [i < n_modes] and axis [j < ndim], to the
    values given by the projection of the phases of mode [i] on its
    wavevector; it changes no other entry of [aka] and [akb] (in
    particular none on an axis [j >= ndim]) and no other field of
    [tgd]. *)
Theorem decomposition_assigns_exactly_the_active_coefficients (t : TurbGenData) :
  let t' := get_decomposition_coeffs t in
  t' = with_coeffs t (aka t') (akb t') /\
  (forall i j, 0 <= i < n_modes t -> 0 <= j < ndim t ->
     aka t' j i = aka_of t i j /\ akb t' j i = akb_of t i j) /\
  (forall i j, ~ (0 <= i < n_modes t /\ 0 <= j < ndim t) ->
     aka t' j i = aka t j i /\ akb t' j i = akb t j i).
Proof.
  destruct (get_decomposition_coeffs_spec t) as (a & b & E & Hin & Hout).
  cbv zeta. rewrite E.
  split; [reflexivity | split; [exact Hin | exact Hout]].
Qed.

Section Divergence.

Local Open Scope R_scope.

Variables (t : TurbGenData) (i : Z).

(** The component of the coefficients along the wavevector is that of the
    phases, scaled by [1 - sol_weight]. *)
Lemma divergence_of_coeffs :
  k_sq t i <> 0 ->
  sum_axes (ndim t) (fun j => mode t j i * aka_of t i j)
  = (1 - sol_weight t) * proj_b t i /\
  sum_axes (ndim t) (fun j => mode t j i * akb_of t i j)
  = (1 - sol_weight t) * proj_a t i.
Proof.
  intros Hk. unfold aka_of, akb_of. unfold sum_axes.
  split.
  - rewrite (sum_upto_ext _ _
               (fun j => sol_weight t * (mode t j i * OUphases t (phase_index i j 0))
                         + ((1 - 2 * sol_weight t) * (proj_b t i / k_sq t i))
                           * (mode t j i * mode t j i)))
      by (intros; cbv zeta; field; exact Hk).
    rewrite sum_upto_plus, !sum_upto_scal.
    fold (sum_axes (ndim t) (fun j => mode t j i * OUphases t (phase_index i j 0))).
    fold (sum_axes (ndim t) (fun j => mode t j i * mode t j i)).
    fold (proj_b t i). fold (k_sq t i). field. exact Hk.
  - rewrite (sum_upto_ext _ _
               (fun j => sol_weight t * (mode t j i * OUphases t (phase_index i j 1))
                         + ((1 - 2 * sol_weight t) * (proj_a t i / k_sq t i))
                           * (mode t j i * mode t j i)))
      by (intros; cbv zeta; field; exact Hk).
    rewrite sum_upto_plus, !sum_upto_scal.
    fold (sum_axes (ndim t) (fun j => mode t j i * OUphases t (phase_index i j 1))).
    fold (sum_axes (ndim t) (fun j => mode t j i * mode t j i)).
    fold (proj_a t i). fold (k_sq t i). field. exact Hk.
Qed.

End Divergence.

Lemma sum_axes_ext (n : Z) (f g : Z -> R) :
  (forall j, 0 <= j < n -> f j = g j) -> sum_axes n f = sum_axes n g.
Proof.
  intros H. unfold sum_axes. apply sum_upto_ext. intros j Hj. apply H. lia.
Qed.

(** X10.  For a mode [i < n_modes] whose wavevector is not zero, whatever
    [sol_weight] is: after [TurbGen_get_decomposition_coeffs] the component
    of the coefficients along the wavevector, [sum_j k_j aka[j][i]], is
    [1 - sol_weight] times that of the phases, [sum_j k_j OUphases[6i+2j]];
    likewise for [akb] and the slots [6i+2j+1]. *)
Theorem decomposition_scales_the_divergence (t : TurbGenData) (i : Z) :
  0 <= i < n_modes t ->
  k_sq t i <> 0%R ->
  let t' := get_decomposition_coeffs t in
  sum_axes (ndim t) (fun j => mode t' j i * aka t' j i)%R
  = ((1 - sol_weight t)
     * sum_axes (ndim t) (fun j => mode t j i * OUphases t (phase_index i j 0)))%R /\
  sum_axes (ndim t) (fun j => mode t' j i * akb t' j i)%R
  = ((1 - sol_weight t)
     * sum_axes (ndim t) (fun j => mode t j i * OUphases t (phase_index i j 1)))%R.
Proof.
  intros Hi Hk.
  destruct (get_decomposition_coeffs_spec t) as (a & b & E & Hin & _).
  cbv zeta. rewrite E.
  change (mode (with_coeffs t a b)) with (mode t).
  change (aka (with_coeffs t a b)) with a.
  change (akb (with_coeffs t a b)) with b.
  destruct (divergence_of_coeffs t i Hk) as [Ha Hb].
  unfold proj_a, proj_b in Ha, Hb. rewrite <- Ha, <- Hb.
  split; apply sum_axes_ext; intros j Hj; destruct (Hin i j Hi Hj) as [Hx Hy];
    rewrite ?Hx, ?Hy; reflexivity.
Qed.

Lemma decomposition_scales_the_divergence_witness :
  sum_axes (ndim example_tgd)
    (fun j => mode (get_decomposition_coeffs example_tgd) j 0%Z
              * aka (get_decomposition_coeffs example_tgd) j 0%Z)%R
  = ((1 - sol_weight example_tgd)
     * sum_axes (ndim example_tgd)
         (fun j => mode example_tgd j 0%Z
                   * OUphases example_tgd (phase_index 0 j 0)))%R.
Proof.
  assert (Hi : 0 <= 0 < n_modes example_tgd) by (cbn [example_tgd n_modes]; lia).
  assert (Hk : k_sq example_tgd 0 <> 0%R).
  { rewrite k_sq_example. pose proof PI_RGT_0. nra. }
  apply (decomposition_scales_the_divergence example_tgd 0 Hi Hk).
Defined.

(** X11.  With [sol_weight = 1/2], for a mode [i < n_modes] whose
    wavevector is not zero and an axis [j < ndim], the decomposition gives
    half the phases: [aka[j][i] = OUphases[6i+2j] / 2] and
    [akb[j][i] = OUphases[6i+2j+1] / 2], whatever the wavevector. *)
Theorem decomposition_natural_mixture (t : TurbGenData) (i j : Z) :
  0 <= i < n_modes t -> 0 <= j < ndim t ->
  k_sq t i <> 0%R ->
  sol_weight t = (/ 2)%R ->
  let t' := get_decomposition_coeffs t in
  aka t' j i = (OUphases t (phase_index i j 0) / 2)%R /\
  akb t' j i = (OUphases t (phase_index i j 1) / 2)%R.
Proof.
  intros Hi Hj Hk Hw.
  destruct (get_decomposition_coeffs_spec t) as (a & b & E & Hin & _).
  cbv zeta. rewrite E.
  change (aka (with_coeffs t a b)) with a.
  change (akb (with_coeffs t a b)) with b.
  destruct (Hin i j Hi Hj) as [Hx Hy]. rewrite Hx, Hy.
  unfold aka_of, akb_of. rewrite Hw. cbv zeta. split; field; exact Hk.
Qed.

(** X12.  [TurbGen_get_decomposition_coeffs] is idempotent: it reads
    the mode table and the phases but not the coefficients, so a second
    call in a row changes nothing. *)
Theorem decomposition_is_idempotent (t : TurbGenData) :
  get_decomposition_coeffs (get_decomposition_coeffs t) = get_decomposition_coeffs t.
Proof.
  destruct (get_decomposition_coeffs_spec t) as (a & b & E & Hin & Hout).
  rewrite E.
  destruct (get_decomposition_coeffs_spec (with_coeffs t a b))
    as (a' & b' & E' & Hin' & Hout').
  rewrite E'.
  change (n_modes (with_coeffs t a b)) with (n_modes t) in *.
  change (ndim (with_coeffs t a b)) with (ndim t) in *.
  change (aka (with_coeffs t a b)) with a in *.
  change (akb (with_coeffs t a b)) with b in *.
  assert (Ha : a' = a /\ b' = b).
  { split; apply functional_extensionality; intros j;
      apply functional_extensionality; intros i;
      destruct (Z_le_gt_dec 0 i); destruct (Z_lt_ge_dec i (n_modes t));
      destruct (Z_le_gt_dec 0 j); destruct (Z_lt_ge_dec j (ndim t));
      try (destruct (Hout' i j) as [H1 H2]; [lia |]; (exact H1 || exact H2));
      destruct (Hin' i j) as [H1 H2]; try lia;
      destruct (Hin i j) as [H3 H4]; try lia;
      (rewrite H1, H3 || rewrite H2, H4); reflexivity. }
  destruct Ha as [-> ->]. reflexivity.
Qed.

Lemma k_sq_example_mix : k_sq example_mix_tgd 0 = (2 * PI * (2 * PI))%R.
Proof.
  unfold k_sq, sum_axes.
  change (Z.to_nat (ndim example_mix_tgd)) with 1%nat. cbn [sum_upto].
  change (mode example_mix_tgd (Z.of_nat 0) 0) with (2 * PI)%R. ring.
Qed.

Lemma decomposition_natural_mixture_witness :
  aka (get_decomposition_coeffs example_mix_tgd) 0 0
  = (OUphases example_mix_tgd (phase_index 0 0 0) / 2)%R.
Proof.
  assert (Hi : 0 <= 0 < n_modes example_mix_tgd)
    by (change (n_modes example_mix_tgd) with 1; lia).
  assert (Hj : 0 <= 0 < ndim example_mix_tgd)
    by (change (ndim example_mix_tgd) with 1; lia).
  assert (Hk : k_sq example_mix_tgd 0 <> 0%R).
  { rewrite k_sq_example_mix. pose proof PI_RGT_0. nra. }
  apply (decomposition_natural_mixture example_mix_tgd 0 0 Hi Hj Hk eq_refl).
Defined.

(** ** Seeking to an OU state *)

Lemma for_count_commute {St : Type} (T : St -> St) (body : Z -> St -> St) (n : nat) :
  (forall j s, body j (T s) = T (body j s)) ->
  forall (i : Z) (s : St), for_count n i body (T s) = T (for_count n i body s).
Proof.
  intros H. induction n as [|n IH]; intros i s; [reflexivity |].
  cbn [for_count]. rewrite H. apply IH.
Qed.

Lemma OU_noise_update_body_coeffs (f : R) (i : Z) (w : World) (a b : Z -> array R) :
  OU_noise_update_body f i (world_with_coeffs w a b)
  = world_with_coeffs (OU_noise_update_body f i w) a b.
Proof. unfold world_with_coeffs, with_coeffs. unfold_state. reflexivity. Qed.

(** The OU update neither reads nor writes the coefficients. *)
Lemma OU_noise_update_coeffs (w : World) (a b : Z -> array R) :
  TurbGen_OU_noise_update (world_with_coeffs w a b)
  = world_with_coeffs (TurbGen_OU_noise_update w) a b.
Proof.
  unfold TurbGen_OU_noise_update.
  change (dt (tgd (world_with_coeffs w a b))) with (dt (tgd w)).
  change (decay (tgd (world_with_coeffs w a b))) with (decay (tgd w)).
  change (n_modes (tgd (world_with_coeffs w a b))) with (n_modes (tgd w)).
  cbv zeta. unfold for_loop.
  rewrite (for_count_commute (fun s => world_with_coeffs s a b))
    by (intros; apply OU_noise_update_body_coeffs).
  reflexivity.
Qed.

Lemma iter_OU_noise_update_coeffs (k : nat) (w : World) (a b : Z -> array R) :
  Nat.iter k TurbGen_OU_noise_update (world_with_coeffs w a b)
  = world_with_coeffs (Nat.iter k TurbGen_OU_noise_update w) a b.
Proof.
  induction k as [|k IH]; [reflexivity |].
  rewrite !Nat.iter_succ, IH. apply OU_noise_update_coeffs.
Qed.

(** What the OU update leaves alone. *)
Lemma OU_noise_update_keeps (w : World) :
  n_modes (tgd (TurbGen_OU_noise_update w)) = n_modes (tgd w) /\
  ndim (tgd (TurbGen_OU_noise_update w)) = ndim (tgd w) /\
  aka (tgd (TurbGen_OU_noise_update w)) = aka (tgd w) /\
  akb (tgd (TurbGen_OU_noise_update w)) = akb (tgd w) /\
  mode (tgd (TurbGen_OU_noise_update w)) = mode (tgd w) /\
  ampl (tgd (TurbGen_OU_noise_update w)) = ampl (tgd w).
Proof.
  destruct (OU_noise_update_shape w) as (ph & -> & _). cbv zeta.
  rewrite after_grn_shape. repeat split; reflexivity.
Qed.

Lemma iter_OU_noise_update_keeps (k : nat) (w : World) :
  n_modes (tgd (Nat.iter k TurbGen_OU_noise_update w)) = n_modes (tgd w) /\
  ndim (tgd (Nat.iter k TurbGen_OU_noise_update w)) = ndim (tgd w) /\
  aka (tgd (Nat.iter k TurbGen_OU_noise_update w)) = aka (tgd w) /\
  akb (tgd (Nat.iter k TurbGen_OU_noise_update w)) = akb (tgd w) /\
  mode (tgd (Nat.iter k TurbGen_OU_noise_update w)) = mode (tgd w) /\
  ampl (tgd (Nat.iter k TurbGen_OU_noise_update w)) = ampl (tgd w).
Proof.
  induction k as [|k IH]; [repeat split; reflexivity |].
  rewrite Nat.iter_succ.
  destruct (OU_noise_update_keeps (Nat.iter k TurbGen_OU_noise_update w))
    as (-> & -> & -> & -> & -> & ->).
  exact IH.
Qed.

(** The decomposition of a state whose coefficients were replaced by
    [a], [b], where these differ from the state's own only on active
    entries, is the decomposition of the state. *)
Lemma decomposition_forgets_coeffs (t : TurbGenData) (a b : Z -> array R) :
  (forall i j, ~ (0 <= i < n_modes t /\ 0 <= j < ndim t) ->
     a j i = aka t j i /\ b j i = akb t j i) ->
  get_decomposition_coeffs (with_coeffs t a b) = get_decomposition_coeffs t.
Proof.
  intros Hab.
  destruct (get_decomposition_coeffs_spec t) as (a1 & b1 & E1 & Hin1 & Hout1).
  destruct (get_decomposition_coeffs_spec (with_coeffs t a b))
    as (a2 & b2 & E2 & Hin2 & Hout2).
  rewrite E1, E2.
  change (n_modes (with_coeffs t a b)) with (n_modes t) in *.
  change (ndim (with_coeffs t a b)) with (ndim t) in *.
  change (aka (with_coeffs t a b)) with a in *.
  change (akb (with_coeffs t a b)) with b in *.
  assert (Ha : a2 = a1 /\ b2 = b1).
  { split; apply functional_extensionality; intros j;
      apply functional_extensionality; intros i;
      destruct (Z_le_gt_dec 0 i); destruct (Z_lt_ge_dec i (n_modes t));
      destruct (Z_le_gt_dec 0 j); destruct (Z_lt_ge_dec j (ndim t));
      try (destruct (Hout2 i j) as [H1 H2]; [lia |];
           destruct (Hout1 i j) as [H3 H4]; [lia |];
           destruct (Hab i j) as [H5 H6]; [lia |];
           (rewrite H1, H3, H5 || rewrite H2, H4, H6); reflexivity);
      destruct (Hin2 i j) as [H1 H2]; try lia;
      destruct (Hin1 i j) as [H3 H4]; try lia;
      (rewrite H1, H3 || rewrite H2, H4); reflexivity. }
  destruct Ha as [-> ->]. reflexivity.
Qed.

(** Recomputing the coefficients on the way does not change the state
    reached. *)
Lemma decomposition_then_updates (k : nat) (w : World) :
  TurbGen_get_decomposition_coeffs
    (Nat.iter k TurbGen_OU_noise_update (TurbGen_get_decomposition_coeffs w))
  = TurbGen_get_decomposition_coeffs (Nat.iter k TurbGen_OU_noise_update w).
Proof.
  destruct (get_decomposition_coeffs_spec (tgd w)) as (a & b & E & _ & Hout).
  assert (Ew : TurbGen_get_decomposition_coeffs w = world_with_coeffs w a b).
  { unfold TurbGen_get_decomposition_coeffs, world_with_coeffs. now rewrite E. }
  rewrite Ew, iter_OU_noise_update_coeffs.
  set (y := Nat.iter k TurbGen_OU_noise_update w).
  destruct (iter_OU_noise_update_keeps k w) as (Hn & Hd & Ha & Hb & _). fold y in Hn, Hd, Ha, Hb.
  unfold TurbGen_get_decomposition_coeffs, world_with_coeffs.
  cbn [tgd set_tgd].
  rewrite decomposition_forgets_coeffs; [reflexivity |].
  intros i j Hij. rewrite Hn, Hd in Hij. rewrite Ha, Hb. apply Hout, Hij.
Qed.

(** Two calls in a row, the second for a step that is not earlier. *)
Lemma check_for_update_twice (t1 t2 : R) (w : World) :
  CInt.in_int (step (tgd w)) ->
  CInt.in_int (Zfloor (t1 / dt (tgd w))) ->
  CInt.in_int (Zfloor (t2 / dt (tgd w))) ->
  Zfloor (t1 / dt (tgd w)) <= Zfloor (t2 / dt (tgd w)) ->
  snd (TurbGen_check_for_update t2 (snd (TurbGen_check_for_update t1 w)))
  = snd (TurbGen_check_for_update t2 w).
Proof.
  intros Hs H1 H2 Hle.
  pose proof (dt_after_check_for_update t1 w) as Hdt.
  pose proof (step_after_check_for_update t1 w Hs) as Hstep. cbv zeta in Hstep.
  destruct (check_for_update_cases t1 w) as [[Hq E1]|[Hq E1]]; cbv zeta in Hq.
  - rewrite E1. reflexivity.
  - rewrite E1 in Hdt, Hstep |- *. cbn [snd] in *.
    rewrite to_int_floor in Hq, Hstep, Hdt |- * by exact H1.
    set (q1 := Zfloor (t1 / dt (tgd w))) in *.
    set (w1 := TurbGen_get_decomposition_coeffs
                 (Nat.iter (Z.to_nat (q1 - step (tgd w))) TurbGen_OU_noise_update w))
      in *.
    destruct (check_for_update_cases t2 w1) as [[Hq2 E2]|[Hq2 E2]]; cbv zeta in Hq2;
      rewrite Hdt in Hq2; rewrite to_int_floor in Hq2 by exact H2;
      rewrite E2; rewrite ?Hdt, ?to_int_floor by exact H2;
      destruct (check_for_update_cases t2 w) as [[Hq3 E3]|[Hq3 E3]]; cbv zeta in Hq3;
      rewrite to_int_floor in Hq3 by exact H2;
      rewrite E3; rewrite ?to_int_floor by exact H2; cbn [snd];
      set (q2 := Zfloor (t2 / dt (tgd w))) in *; try lia.
    + subst w1. replace q2 with q1 by lia. reflexivity.
    + subst w1. rewrite decomposition_then_updates.
      rewrite <- Nat.iter_add. f_equal. f_equal. lia.
Qed.

(** X13.  Let the step counter and all requested steps [floor(t/dt)] be
    [int]s.  A sequence of calls of [TurbGen_check_for_update] at times
    whose requested steps are at most that of a final time [time], followed
    by a call at [time], leaves exactly the state that the single call at
    [time] leaves: phases, coefficients, seed and step counter do not
    depend on the calls made on the way. *)
Theorem check_for_update_seeks (times : list R) (time : R) :
  forall w : World,
    CInt.in_int (step (tgd w)) ->
    CInt.in_int (Zfloor (time / dt (tgd w))) ->
    Forall (fun t' => CInt.in_int (Zfloor (t' / dt (tgd w))) /\
                      Zfloor (t' / dt (tgd w)) <= Zfloor (time / dt (tgd w))) times ->
    check_for_update_seq (times ++ [time]) w
    = snd (TurbGen_check_for_update time w).
Proof.
  induction times as [|t1 rest IH]; intros w Hs Ht Hall.
  - reflexivity.
  - inversion Hall as [|? ? [H1 Hle] Hrest]; subst.
    cbn [app check_for_update_seq].
    rewrite IH.
    + apply check_for_update_twice; assumption.
    + apply in_int_after_check_for_update, Hs.
    + now rewrite dt_after_check_for_update.
    + rewrite dt_after_check_for_update. exact Hrest.
Qed.

Lemma check_for_update_seeks_witness :
  check_for_update_seq ([(/ 8)%R; (/ 4)%R] ++ [(/ 4)%R]) example_world
  = snd (TurbGen_check_for_update (/ 4) example_world).
Proof.
  assert (H8 : Zfloor (/ 8 / dt (tgd example_world)) = 1).
  { change (dt (tgd example_world)) with (/ 10)%R.
    apply Zfloor_eq. lra. }
  apply (check_for_update_seeks [(/ 8)%R; (/ 4)%R] (/ 4)%R example_world).
  - apply in_int_small. change (step (tgd example_world)) with 0. lia.
  - rewrite Zfloor_example. apply in_int_small. lia.
  - apply Forall_cons; [| apply Forall_cons; [| apply Forall_nil]].
    + rewrite H8, Zfloor_example. split; [apply in_int_small |]; lia.
    + rewrite Zfloor_example. split; [apply in_int_small |]; lia.
Defined.

(** ** The initialised state *)

Lemma tgd_OU_noise_init (w : World) :
  exists ph s, tgd (TurbGen_OU_noise_init w) = set_OUphases (set_seed (tgd w) s) ph.
Proof.
  destruct (OU_noise_init_shape w) as (ph & -> & _).
  rewrite after_grn_shape. eexists. eexists. reflexivity.
Qed.

(** What a successful initialisation leaves in [tgd]: the parameters as
    assigned, and a new mode table, seed, phases and coefficients. *)
Lemma init_shape (file : string) (pe : Z) (p : ParameterFile) (w0 w : World) :
  TurbGen_init_turbulence_generator file pe p w0 = Ok w ->
  exists n am md s ph a b,
    tgd w = with_coeffs
              (set_OUphases
                 (set_seed (with_modes (init_parameters file pe p (tgd w0)) n am md) s)
                 ph) a b.
Proof.
  unfold TurbGen_init_turbulence_generator, TurbGen_init_modes.
  destruct (TurbGen_init_modes_from 0 _) as [w1|] eqn:Hmodes;
    cbn [bind]; [| discriminate].
  intros Hrun. injection Hrun as <-.
  destruct (init_modes_modes _ _ _ Hmodes) as (n & am & md & s & Ht & _).
  cbn [tgd set_tgd] in Ht.
  destruct (tgd_OU_noise_init w1) as (ph & s' & Hou).
  unfold TurbGen_get_decomposition_coeffs. cbn [tgd set_tgd].
  destruct (get_decomposition_coeffs_spec (tgd (TurbGen_OU_noise_init w1)))
    as (a & b & -> & _).
  exists n, am, md, s', ph, a, b. rewrite Hou, Ht. reflexivity.
Qed.

Lemma Zfloor_0_div (d : R) : Zfloor (0 / d) = 0.
Proof. apply Zfloor_eq. unfold Rdiv. rewrite Rmult_0_l. lra. Qed.

(** X14.  After a successful initialisation, with [dt] not zero (the
    code divides by it), the call [TurbGen_check_for_update(0)] returns
    true and performs exactly one OU update followed by the decomposition;
    the step counter is then 0, and a second call at time 0 returns false
    and changes nothing. *)
Theorem first_call_after_init_updates
  (file : string) (pe : Z) (p : ParameterFile) (w0 w : World) :
  TurbGen_init_turbulence_generator file pe p w0 = Ok w ->
  dt (tgd w) <> 0%R ->
  TurbGen_check_for_update 0 w
  = (true, TurbGen_get_decomposition_coeffs (TurbGen_OU_noise_update w)) /\
  step (tgd (snd (TurbGen_check_for_update 0 w))) = 0 /\
  TurbGen_check_for_update 0 (snd (TurbGen_check_for_update 0 w))
  = (false, snd (TurbGen_check_for_update 0 w)).
Proof.
  intros Hinit _.
  pose proof (step_after_init _ _ _ _ _ Hinit) as Hstep.
  assert (Hq : CMath.to_int (CMath.floor (0 / dt (tgd w))) = 0).
  { rewrite to_int_floor; rewrite Zfloor_0_div; [reflexivity |].
    apply in_int_small. lia. }
  assert (E : TurbGen_check_for_update 0 w
              = (true, TurbGen_get_decomposition_coeffs (TurbGen_OU_noise_update w))).
  { destruct (check_for_update_cases 0 w) as [[Hle _]|[_ ->]]; cbv zeta in *.
    - rewrite Hq, Hstep in Hle. lia.
    - rewrite Hq, Hstep. reflexivity. }
  assert (Hs0 : step (tgd (snd (TurbGen_check_for_update 0 w))) = 0).
  { rewrite step_after_check_for_update by (rewrite Hstep; apply in_int_small; lia).
    rewrite Hq, Hstep. reflexivity. }
  split; [exact E | split; [exact Hs0 |]].
  destruct (check_for_update_cases 0 (snd (TurbGen_check_for_update 0 w)))
    as [[_ ->]|[Hlt _]]; cbv zeta in *; [reflexivity |].
  rewrite dt_after_check_for_update, Hq, Hs0 in Hlt. lia.
Qed.

Lemma dt_after_init (file : string) (pe : Z) (p : ParameterFile) (w0 w : World) :
  TurbGen_init_turbulence_generator file pe p w0 = Ok w ->
  dt (tgd w) = dt (init_parameters file pe p (tgd w0)).
Proof.
  intros H. destruct (init_shape _ _ _ _ _ H) as (n & am & md & s & ph & a & b & ->).
  reflexivity.
Qed.

Lemma dt_example_parameters (t : TurbGenData) :
  dt (init_parameters "turbulence_generator.inp" 0 example_parameters t) = (/ 20)%R.
Proof.
  cbn [init_parameters dt example_parameters p_xmax p_xmin p_k_driv p_velocity
       p_nsteps_per_turnover_time].
  unfold CMath.of_int. lra.
Qed.

Lemma first_call_after_init_updates_witness :
  exists w,
    TurbGen_init_turbulence_generator "turbulence_generator.inp" 0
      example_parameters world_start = Ok w /\
    step (tgd (snd (TurbGen_check_for_update 0 w))) = 0.
Proof.
  destruct init_example_succeeds as [w Hw]. exists w. split; [exact Hw |].
  assert (Hdt : dt (tgd w) <> 0%R).
  { rewrite (dt_after_init _ _ _ _ _ Hw), dt_example_parameters. lra. }
  apply (first_call_after_init_updates _ _ _ _ _ Hw Hdt).
Defined.

(** *** The coefficients follow the phases *)

Lemma coeffs_current_decomposition (t : TurbGenData) :
  coeffs_current (get_decomposition_coeffs t).
Proof.
  destruct (get_decomposition_coeffs_spec t) as (a & b & -> & Hin & _).
  intros i j Hi Hj. apply (Hin i j Hi Hj).
Qed.

Lemma coeffs_current_check_for_update (time : R) (w : World) :
  coeffs_current (tgd w) ->
  coeffs_current (tgd (snd (TurbGen_check_for_update time w))).
Proof.
  intros H. destruct (check_for_update_cases time w) as [[_ ->]|[_ ->]]; cbn [snd].
  - exact H.
  - apply coeffs_current_decomposition.
Qed.

(** X15.  After a successful initialisation and any sequence of calls
    of [TurbGen_check_for_update], the coefficients are those of the
    current phases: for every mode [i < n_modes] and axis [j < ndim],
    [aka[j][i]] and [akb[j][i]] are the values that the decomposition
    gives for the phases now in [OUphases]. *)
Theorem coefficients_follow_the_phases
  (file : string) (pe : Z) (p : ParameterFile) (w0 w : World) (times : list R) :
  TurbGen_init_turbulence_generator file pe p w0 = Ok w ->
  let t := tgd (check_for_update_seq times w) in
  forall i j, 0 <= i < n_modes t -> 0 <= j < ndim t ->
    aka t j i = aka_of t i j /\ akb t j i = akb_of t i j.
Proof.
  intros Hinit. cbv zeta.
  assert (H0 : coeffs_current (tgd w)).
  { revert Hinit. unfold TurbGen_init_turbulence_generator.
    destruct (TurbGen_init_modes _) as [w1|]; cbn [bind]; [| discriminate].
    intros Hrun. injection Hrun as <-. apply coeffs_current_decomposition. }
  clear Hinit. revert w H0.
  induction times as [|time rest IH]; intros w H0.
  - exact H0.
  - cbn [check_for_update_seq]. apply IH.
    now apply coeffs_current_check_for_update.
Qed.

Lemma coefficients_follow_the_phases_witness :
  exists w,
    TurbGen_init_turbulence_generator "turbulence_generator.inp" 0
      example_parameters world_start = Ok w /\
    forall i j,
      0 <= i < n_modes (tgd (check_for_update_seq [1%R; (/ 2)%R] w)) ->
      0 <= j < ndim (tgd (check_for_update_seq [1%R; (/ 2)%R] w)) ->
      aka (tgd (check_for_update_seq [1%R; (/ 2)%R] w)) j i
      = aka_of (tgd (check_for_update_seq [1%R; (/ 2)%R] w)) i j /\
      akb (tgd (check_for_update_seq [1%R; (/ 2)%R] w)) j i
      = akb_of (tgd (check_for_update_seq [1%R; (/ 2)%R] w)) i j.
Proof.
  destruct init_example_succeeds as [w Hw]. exists w. split; [exact Hw |].
  apply (coefficients_follow_the_phases _ _ _ _ _ [1%R; (/ 2)%R] Hw).
Defined.

(** ** The mode set *)

Lemma seq_body_amplitude (t : TurbGenData) (pp kc kx ky Lz : R) (ikz : Z)
  (l : list Mode) (a : R) :
  seq_body t pp kc kx ky Lz ikz (l, a) =
  (let kz := wavenumber Lz ikz in
   let k := magnitude kx ky kz in
   if in_band t k then
     let a' := mode_amplitude t pp kc k a in
     let l := l ++ [mkMode a' kx ky kz] in
     let l := if ndim t >? 1 then l ++ [mkMode a' kx (- ky) kz] else l in
     let l :=
       if ndim t >? 2
       then l ++ [mkMode a' kx ky (- kz); mkMode a' kx (- ky) (- kz)]
       else l in
     (l, a')
   else (l, a)).
Proof. reflexivity. Qed.

Section ModeSequence.

Variable Q : Mode -> Prop.
Variable t : TurbGenData.

Hypothesis Q_mirror : forall a kx ky kz,
    Q (mkMode a kx ky kz) -> Q (mkMode a kx (- ky) kz) /\ Q (mkMode a kx ky (- kz)).

Lemma seq_body_Forall (pp kc kx ky Lz : R) (ikz : Z) (s : list Mode * R) :
  (in_band t (magnitude kx ky (wavenumber Lz ikz)) = true ->
   Q (mkMode (mode_amplitude t pp kc (magnitude kx ky (wavenumber Lz ikz)) (snd s))
        kx ky (wavenumber Lz ikz))) ->
  Forall Q (fst s) -> Forall Q (fst (seq_body t pp kc kx ky Lz ikz s)).
Proof.
  destruct s as [l a]. cbn [fst snd]. intros Hnew Hl.
  rewrite seq_body_amplitude. cbv zeta.
  destruct (in_band t _); [| exact Hl].
  specialize (Hnew eq_refl).
  destruct (Q_mirror _ _ _ _ Hnew) as [Hy Hz].
  destruct (Q_mirror _ _ _ _ Hy) as [_ Hyz].
  destruct (ndim t >? 1), (ndim t >? 2); cbn [fst];
    repeat (apply Forall_app; split); try exact Hl;
    repeat (apply Forall_cons); try apply Forall_nil; assumption.
Qed.

Hypothesis Q_new : forall ikx iky ikz a,
    0 <= ikx <= 256 -> 0 <= iky <= ikymax_of t -> 0 <= ikz <= ikzmax_of t ->
    let kx := wavenumber (xmax t - xmin t) ikx in
    let ky := wavenumber (ymax t - ymin t) iky in
    let kz := wavenumber (zmax t - zmin t) ikz in
    in_band t (magnitude kx ky kz) = true ->
    Q (mkMode (mode_amplitude t (parab_prefact_of t) (kc_of t) (magnitude kx ky kz) a)
         kx ky kz).

Lemma mode_sequence_Forall (amplitude0 : R) : Forall Q (mode_sequence amplitude0 t).
Proof.
  unfold mode_sequence, seq_pass.
  apply (for_loop_inv (fun s : list Mode * R => Forall Q (fst s)));
    [apply Forall_nil |].
  intros ikx s Hx Hs.
  apply (for_loop_inv (fun s : list Mode * R => Forall Q (fst s))); [exact Hs |].
  intros iky s' Hy Hs'.
  apply (for_loop_inv (fun s : list Mode * R => Forall Q (fst s))); [exact Hs' |].
  intros ikz s'' Hz Hs''.
  apply seq_body_Forall; [| exact Hs''].
  intros Hin. apply (Q_new ikx iky ikz (snd s'')); try lia. exact Hin.
Qed.

End ModeSequence.

(** The entries of the mode table after a Band/Parabola initialisation
    are the members of the mode sequence. *)
Lemma init_modes_band_Forall (Q : Mode -> Prop) (amplitude0 : R) (w w' : World) :
  spect_form (tgd w) <> 2 ->
  TurbGen_init_modes_from amplitude0 w = Ok w' ->
  Forall Q (mode_sequence amplitude0 (tgd w)) ->
  forall i, 0 <= i < n_modes (tgd w') ->
    Q (mkMode (ampl (tgd w') i) (mode (tgd w') Axis.X i) (mode (tgd w') Axis.Y i)
         (mode (tgd w') Axis.Z i)).
Proof.
  intros Hsf Hrun HQ.
  pose proof (init_modes_band amplitude0 w Hsf) as H. cbv zeta in H.
  destruct (too_many_modes _ _); [congruence |].
  destruct H as (am & md & Heq & Hin & _).
  rewrite Heq in Hrun. injection Hrun as <-.
  cbn [tgd set_tgd].
  change (n_modes (with_modes (tgd w) _ am md))
    with (Z.of_nat (List.length (mode_sequence amplitude0 (tgd w)))).
  change (ampl (with_modes (tgd w) _ am md)) with am.
  change (mode (with_modes (tgd w) _ am md)) with md.
  intros i Hi. destruct (Hin i Hi) as (-> & -> & -> & ->).
  rewrite Forall_forall in HQ.
  assert (Hnth : In (nth (Z.to_nat i) (mode_sequence amplitude0 (tgd w)) no_mode)
                   (mode_sequence amplitude0 (tgd w))) by (apply nth_In; lia).
  specialize (HQ _ Hnth).
  destruct (nth (Z.to_nat i) (mode_sequence amplitude0 (tgd w)) no_mode). exact HQ.
Qed.

(** *** Band amplitudes *)

Lemma pow_unit_interval (x e : R) :
  (0 < x <= 1)%R -> (0 <= e)%R -> (0 < CMath.pow x e <= 1)%R.
Proof.
  intros Hx He. unfold CMath.pow.
  destruct (CMath.is_integer e).
  - assert (Hf : 0 <= Zfloor e).
    { apply Zfloor_lub. exact He. }
    rewrite <- (Z2Nat.id _ Hf), <- pow_powerRZ.
    split; [apply pow_lt; lra |].
    rewrite <- (pow1 (Z.to_nat (Zfloor e))). apply pow_incr. lra.
  - unfold CMath.ltb. destruct (Rlt_dec 0 x) as [_|Hn]; [| lra].
    unfold Rpower. split; [apply exp_pos |].
    rewrite <- exp_0.
    assert (Hln : (ln x <= 0)%R).
    { rewrite <- ln_1. destruct (proj2 Hx) as [Hlt|Heq].
      - left. apply ln_increasing; lra.
      - rewrite Heq. lra. }
    destruct (Rle_lt_or_eq_dec (e * ln x) 0) as [Hlt|Heq]; [nra | |].
    + left. now apply exp_increasing.
    + rewrite Heq. lra.
Qed.

Lemma sub_one_small (n : Z) : 1 <= n <= 3 -> CInt.sub n 1 = n - 1.
Proof.
  intros H. unfold CInt.sub. apply wrap_id.
  unfold CInt.in_int, CInt.int_min, CInt.int_max. lia.
Qed.

Lemma band_amplitude_bounds (t : TurbGenData) (pp k a : R) :
  spect_form t = 0 -> 1 <= ndim t <= 3 -> (0 < stir_min t)%R ->
  in_band t k = true ->
  (0 < mode_amplitude t pp (kc_of t) k a <= 1)%R /\
  (ndim t = 1 -> mode_amplitude t pp (kc_of t) k a = 1%R).
Proof.
  intros Hsf Hnd Hmin Hin. apply in_band_true in Hin.
  unfold mode_amplitude, kc_of. rewrite Hsf. cbn [Z.eqb]. cbv zeta.
  rewrite sqrt_1, Rmult_1_l, sub_one_small by exact Hnd.
  split.
  - apply pow_unit_interval.
    + split.
      * apply Rdiv_lt_0_compat; lra.
      * apply (Rmult_le_reg_r k); [lra |].
        unfold Rdiv. rewrite Rmult_assoc, Rinv_l by lra. lra.
    + unfold CMath.of_int.
      assert (0 <= IZR (ndim t - 1))%R by (apply IZR_le; lia). lra.
  - intros H1. rewrite H1. unfold CMath.of_int.
    replace (IZR (1 - 1) / 2)%R with (IZR 0) by (cbn; lra).
    rewrite pow_int. reflexivity.
Qed.

(** X16.  For the Band spectrum ([spect_form = 0]) with [ndim] between 1
    and 3 and [stir_min > 0], every amplitude stored by a successful
    [TurbGen_init_modes] is positive and at most 1; in one dimension every
    amplitude is exactly 1. *)
Theorem band_amplitudes_in_unit_interval (amplitude0 : R) (w w' : World) :
  spect_form (tgd w) = 0 -> 1 <= ndim (tgd w) <= 3 -> (0 < stir_min (tgd w))%R ->
  TurbGen_init_modes_from amplitude0 w = Ok w' ->
  forall i, 0 <= i < n_modes (tgd w') ->
    (0 < ampl (tgd w') i <= 1)%R /\ (ndim (tgd w) = 1 -> ampl (tgd w') i = 1%R).
Proof.
  intros Hsf Hnd Hmin Hrun i Hi.
  assert (Hsf2 : spect_form (tgd w) <> 2) by lia.
  apply (init_modes_band_Forall
           (fun m => (0 < m_ampl m <= 1)%R /\ (ndim (tgd w) = 1 -> m_ampl m = 1%R))
           amplitude0 w w' Hsf2 Hrun); [| exact Hi].
  apply mode_sequence_Forall.
  - intros a kx ky kz H. cbn [m_ampl] in *. split; exact H.
  - intros ikx iky ikz a _ _ _ kx ky kz Hin. cbn [m_ampl].
    now apply band_amplitude_bounds.
Qed.

Lemma band_amplitudes_in_unit_interval_witness :
  exists w',
    TurbGen_init_modes_from 0 example_world = Ok w' /\
    (0 < ampl (tgd w') 0%Z <= 1)%R.
Proof.
  destruct init_modes_example as (w' & Hrun & Hn). exists w'. split; [exact Hrun |].
  apply (band_amplitudes_in_unit_interval 0 example_world w').
  - reflexivity.
  - change (ndim (tgd example_world)) with 1. lia.
  - change (stir_min (tgd example_world)) with 1%R. lra.
  - exact Hrun.
  - lia.
Defined.

(** *** The capacity guard *)

Lemma powerRZ_2_small (n : Z) : 0 <= n <= 2 -> powerRZ 2 n = IZR (2 ^ n).
Proof.
  intros H. assert (Hc : n = 0 \/ n = 1 \/ n = 2) by lia.
  destruct Hc as [-> | [-> | ->]].
  - reflexivity.
  - change (2 ^ 1) with 2. change (powerRZ 2 1) with (2 * 1)%R. lra.
  - change (2 ^ 2) with 4. change (powerRZ 2 2) with (2 * (2 * 1))%R. lra.
Qed.

Lemma too_many_modes_Z (t : TurbGenData) (n : Z) :
  1 <= ndim t <= 3 ->
  (too_many_modes t n = true <-> n + 2 ^ (ndim t - 1) > tgd_max_n_modes).
Proof.
  intros Hnd. unfold too_many_modes, CMath.gtb, CMath.ltb, CMath.of_int.
  rewrite sub_one_small, pow_int, powerRZ_2_small by lia.
  rewrite <- plus_IZR.
  destruct (Rlt_dec _ _) as [Hlt|Hge].
  - apply lt_IZR in Hlt. split; [lia | reflexivity].
  - split; [discriminate |]. intros Hgt. exfalso. apply Hge. apply IZR_lt. lia.
Qed.

(** X17.  For Band and Parabola with [ndim] between 1 and 3,
    [TurbGen_init_modes] calls [exit] if and only if the count of the
    preliminary pass plus [2^(ndim-1)] exceeds [tgd_max_n_modes]. *)
Theorem init_modes_exits_iff_over_capacity (amplitude0 : R) (w : World) :
  spect_form (tgd w) <> 2 -> 1 <= ndim (tgd w) <= 3 ->
  (TurbGen_init_modes_from amplitude0 w = Exit <->
   tot_n_modes (tgd w) + 2 ^ (ndim (tgd w) - 1) > tgd_max_n_modes).
Proof.
  intros Hsf Hnd.
  rewrite <- too_many_modes_Z by exact Hnd.
  rewrite (tot_n_modes_length amplitude0).
  pose proof (init_modes_band amplitude0 w Hsf) as H. cbv zeta in H.
  destruct (too_many_modes _ _).
  - split; [reflexivity | intros _; exact H].
  - destruct H as (am & md & -> & _). split; discriminate.
Qed.

Lemma init_modes_exits_iff_over_capacity_witness :
  TurbGen_init_modes_from 0 example_world = Exit <->
  tot_n_modes (tgd example_world) + 2 ^ (ndim (tgd example_world) - 1)
  > tgd_max_n_modes.
Proof.
  apply (init_modes_exits_iff_over_capacity 0 example_world).
  - discriminate.
  - change (ndim (tgd example_world)) with 1. lia.
Defined.

(** X18.  For Band and Parabola a successful [TurbGen_init_modes] calls
    neither uniform generator and leaves the statics of [TurbGen_ran2]
    alone; of [tgd] it changes only [n_modes] and the entries below the new
    [n_modes] of [ampl] and [mode] (the seed in particular is unchanged);
    and the new [n_modes] is below [tgd_max_n_modes], so every entry
    written lies inside the arrays. *)
Theorem init_modes_band_uses_no_randomness (amplitude0 : R) (w w' : World) :
  spect_form (tgd w) <> 2 ->
  TurbGen_init_modes_from amplitude0 w = Ok w' ->
  rng_calls w' = rng_calls w /\
  ran2_static w' = ran2_static w /\
  tgd w' = with_modes (tgd w) (n_modes (tgd w')) (ampl (tgd w')) (mode (tgd w')) /\
  (forall i, ~ 0 <= i < n_modes (tgd w') ->
     ampl (tgd w') i = ampl (tgd w) i /\
     forall c, mode (tgd w') c i = mode (tgd w) c i) /\
  0 <= n_modes (tgd w') < tgd_max_n_modes.
Proof.
  intros Hsf Hrun.
  pose proof (init_modes_band amplitude0 w Hsf) as H. cbv zeta in H.
  destruct (too_many_modes _ _) eqn:Hguard; [congruence |].
  apply too_many_modes_false in Hguard.
  destruct H as (am & md & Heq & _ & Hout).
  rewrite Heq in Hrun. injection Hrun as <-.
  cbn [tgd set_tgd rng_calls ran2_static].
  change (n_modes (with_modes (tgd w) _ am md))
    with (Z.of_nat (List.length (mode_sequence amplitude0 (tgd w)))).
  change (ampl (with_modes (tgd w) _ am md)) with am.
  change (mode (with_modes (tgd w) _ am md)) with md.
  split; [reflexivity | split; [reflexivity | split; [reflexivity | split]]].
  - exact Hout.
  - lia.
Qed.

Lemma init_modes_band_uses_no_randomness_witness :
  exists w',
    TurbGen_init_modes_from 0 example_world = Ok w' /\
    rng_calls w' = rng_calls example_world /\
    ran2_static w' = ran2_static example_world.
Proof.
  destruct init_modes_example as (w' & Hrun & Hn). exists w'. split; [exact Hrun |].
  assert (Hsf : spect_form (tgd example_world) <> 2) by discriminate.
  destruct (init_modes_band_uses_no_randomness 0 example_world w' Hsf Hrun)
    as (H1 & H2 & _).
  split; [exact H1 | exact H2].
Defined.

(** *** What evolves in time *)

Lemma with_dynamic_self (t : TurbGenData) :
  with_dynamic t (OUphases t) (aka t) (akb t) (seed t) (step t) = t.
Proof. destruct t. reflexivity. Qed.

Lemma tgd_OU_noise_update (w : World) :
  exists ph s stp,
    tgd (TurbGen_OU_noise_update w)
    = with_dynamic (tgd w) ph (aka (tgd w)) (akb (tgd w)) s stp.
Proof.
  destruct (OU_noise_update_shape w) as (ph & -> & _). cbv zeta.
  rewrite after_grn_shape.
  exists ph, (Nat.iter (2 * Z.to_nat (CInt.mul 6 (n_modes (tgd w)))) Ran1s.next
                (seed (tgd w))), (CInt.add (step (tgd w)) 1).
  destruct w as [t r c]. destruct t. reflexivity.
Qed.

Lemma tgd_iter_OU_noise_update (k : nat) (w : World) :
  exists ph s stp,
    tgd (Nat.iter k TurbGen_OU_noise_update w)
    = with_dynamic (tgd w) ph (aka (tgd w)) (akb (tgd w)) s stp.
Proof.
  induction k as [|k (ph & s & stp & IH)].
  - exists (OUphases (tgd w)), (seed (tgd w)), (step (tgd w)).
    symmetry. apply with_dynamic_self.
  - rewrite Nat.iter_succ.
    destruct (tgd_OU_noise_update (Nat.iter k TurbGen_OU_noise_update w))
      as (ph' & s' & stp' & ->).
    rewrite IH. exists ph', s', stp'. reflexivity.
Qed.

Lemma tgd_check_for_update (time : R) (w : World) :
  exists ph a b s stp,
    tgd (snd (TurbGen_check_for_update time w)) = with_dynamic (tgd w) ph a b s stp.
Proof.
  destruct (check_for_update_cases time w) as [[_ ->]|[_ ->]]; cbn [snd].
  - exists (OUphases (tgd w)), (aka (tgd w)), (akb (tgd w)), (seed (tgd w)),
      (step (tgd w)).
    symmetry. apply with_dynamic_self.
  - unfold TurbGen_get_decomposition_coeffs. cbn [tgd set_tgd].
    destruct (get_decomposition_coeffs_spec
                (tgd (Nat.iter (Z.to_nat (CMath.to_int (CMath.floor (time / dt (tgd w)))
                                          - step (tgd w)))
                        TurbGen_OU_noise_update w))) as (a & b & -> & _).
    destruct (tgd_iter_OU_noise_update
                (Z.to_nat (CMath.to_int (CMath.floor (time / dt (tgd w))) - step (tgd w)))
                w) as (ph & s & stp & ->).
    exists ph, a, b, s, stp. reflexivity.
Qed.

Lemma ran2_static_check_for_update (time : R) (w : World) :
  ran2_static (snd (TurbGen_check_for_update time w)) = ran2_static w.
Proof.
  destruct (check_for_update_cases time w) as [[_ ->]|[_ ->]]; cbn [snd];
    [reflexivity |].
  unfold TurbGen_get_decomposition_coeffs. cbn [ran2_static set_tgd].
  induction (Z.to_nat _) as [|k IH]; [reflexivity |].
  rewrite Nat.iter_succ.
  rewrite (proj2 (OU_noise_update_calls _)). exact IH.
Qed.

Lemma check_for_update_seq_shape (times : list R) :
  forall w : World,
    (exists ph a b s stp,
        tgd (check_for_update_seq times w) = with_dynamic (tgd w) ph a b s stp) /\
    ran2_static (check_for_update_seq times w) = ran2_static w.
Proof.
  induction times as [|time rest IH]; intros w.
  - split; [| reflexivity].
    exists (OUphases (tgd w)), (aka (tgd w)), (akb (tgd w)), (seed (tgd w)),
      (step (tgd w)).
    symmetry. apply with_dynamic_self.
  - cbn [check_for_update_seq].
    destruct (IH (snd (TurbGen_check_for_update time w)))
      as [(ph & a & b & s & stp & ->) ->].
    destruct (tgd_check_for_update time w) as (ph' & a' & b' & s' & stp' & ->).
    split; [| apply ran2_static_check_for_update].
    exists ph, a, b, s, stp. reflexivity.
Qed.

(** X19.  Whatever the times, a sequence of calls of
    [TurbGen_check_for_update] changes in [tgd] at most the phases, the
    coefficients, the seed and the step counter: the mode table
    ([n_modes], [mode], [ampl]) and every parameter keep their values, and
    so do the statics of [TurbGen_ran2]. *)
Theorem check_for_update_changes_only_the_dynamic_fields (times : list R) (w : World) :
  let w' := check_for_update_seq times w in
  tgd w' = with_dynamic (tgd w) (OUphases (tgd w')) (aka (tgd w')) (akb (tgd w'))
             (seed (tgd w')) (step (tgd w')) /\
  ran2_static w' = ran2_static w.
Proof.
  cbv zeta.
  destruct (check_for_update_seq_shape times w) as [(ph & a & b & s & stp & ->) ->].
  split; reflexivity.
Qed.

(** ** Periodicity of the field *)

Lemma cos_period_Z (x : R) (k : Z) : cos (x + 2 * PI * IZR k) = cos x.
Proof.
  destruct (Z_le_gt_dec 0 k) as [Hk|Hk].
  - rewrite <- (Z2Nat.id k Hk), <- INR_IZR_INZ.
    replace (x + 2 * PI * INR (Z.to_nat k))%R with (x + 2 * INR (Z.to_nat k) * PI)%R
      by ring.
    apply cos_period.
  - rewrite <- (cos_period (x + 2 * PI * IZR k) (Z.to_nat (- k))).
    rewrite INR_IZR_INZ, Z2Nat.id, opp_IZR by lia.
    f_equal. ring.
Qed.

Lemma sin_period_Z (x : R) (k : Z) : sin (x + 2 * PI * IZR k) = sin x.
Proof.
  destruct (Z_le_gt_dec 0 k) as [Hk|Hk].
  - rewrite <- (Z2Nat.id k Hk), <- INR_IZR_INZ.
    replace (x + 2 * PI * INR (Z.to_nat k))%R with (x + 2 * INR (Z.to_nat k) * PI)%R
      by ring.
    apply sin_period.
  - rewrite <- (sin_period (x + 2 * PI * IZR k) (Z.to_nat (- k))).
    rewrite INR_IZR_INZ, Z2Nat.id, opp_IZR by lia.
    f_equal. ring.
Qed.

(** The field as the sum over the modes. *)
Lemma turb_vector_sum (x y z : R) (t : TurbGenData) :
  TurbGen_get_turb_vector x y z t =
  (sum_upto (Z.to_nat (n_modes t)) (fourier_term t Axis.X x y z),
   sum_upto (Z.to_nat (n_modes t)) (fourier_term t Axis.Y x y z),
   sum_upto (Z.to_nat (n_modes t)) (fourier_term t Axis.Z x y z)).
Proof.
  unfold TurbGen_get_turb_vector, TurbGen_get_turb_vector_from.
  apply accumulate_modes. intros m Hm. now apply fill_tables_ok.
Qed.

(** A displacement along which every mode advances by a whole number of
    periods leaves the field unchanged. *)
Lemma turb_vector_periodic (t : TurbGenData) (x y z dx dy dz : R) :
  (forall m, 0 <= m < n_modes t ->
     exists k : Z,
       (mode t Axis.X m * dx + mode t Axis.Y m * dy + mode t Axis.Z m * dz
        = 2 * PI * IZR k)%R) ->
  TurbGen_get_turb_vector (x + dx) (y + dy) (z + dz) t
  = TurbGen_get_turb_vector x y z t.
Proof.
  intros H. rewrite !turb_vector_sum.
  assert (Hterm : forall c m, 0 <= m < Z.of_nat (Z.to_nat (n_modes t)) ->
            fourier_term t c (x + dx) (y + dy) (z + dz) m = fourier_term t c x y z m).
  { intros c m Hm. destruct (H m ltac:(lia)) as [k Hk].
    unfold fourier_term.
    replace (mode_phase t m (x + dx) (y + dy) (z + dz))
      with (mode_phase t m x y z + 2 * PI * IZR k)%R
      by (unfold mode_phase; rewrite <- Hk; ring).
    now rewrite cos_period_Z, sin_period_Z. }
  f_equal; [f_equal |]; apply sum_upto_ext; intros m Hm; now apply Hterm.
Qed.

Lemma wavenumber_opp (L : R) (i : Z) : (- wavenumber L i)%R = wavenumber L (- i).
Proof. unfold wavenumber, CMath.of_int. rewrite opp_IZR. unfold Rdiv. ring. Qed.

Lemma wavenumber_period (L : R) (i : Z) :
  L <> 0%R -> (wavenumber L i * L = 2 * PI * IZR i)%R.
Proof. intros HL. unfold wavenumber, CMath.of_int, CMath.M_PI. field. exact HL. Qed.

Lemma mode_sequence_lattice (amplitude0 : R) (t : TurbGenData) :
  Forall (fun m => lattice_vector t (m_kx m) (m_ky m) (m_kz m))
    (mode_sequence amplitude0 t).
Proof.
  apply mode_sequence_Forall.
  - intros a kx ky kz (ix & iy & iz & Hx & Hy & Hz). cbn [m_kx m_ky m_kz] in *.
    split.
    + exists ix, (- iy), iz. rewrite <- wavenumber_opp, Hy. auto.
    + exists ix, iy, (- iz). rewrite <- wavenumber_opp, Hz. auto.
  - intros ikx iky ikz a _ _ _ kx ky kz _. cbn [m_kx m_ky m_kz].
    exists ikx, iky, ikz. auto.
Qed.

(** The mode table after the whole initialisation is the one that
    [TurbGen_init_modes] leaves. *)
Lemma init_mode_table (file : string) (pe : Z) (p : ParameterFile) (w0 w : World) :
  TurbGen_init_turbulence_generator file pe p w0 = Ok w ->
  exists w1,
    TurbGen_init_modes_from 0 (set_tgd w0 (init_parameters file pe p (tgd w0))) = Ok w1 /\
    n_modes (tgd w) = n_modes (tgd w1) /\
    mode (tgd w) = mode (tgd w1) /\
    ampl (tgd w) = ampl (tgd w1) /\
    w = TurbGen_get_decomposition_coeffs (TurbGen_OU_noise_init w1).
Proof.
  unfold TurbGen_init_turbulence_generator, TurbGen_init_modes.
  destruct (TurbGen_init_modes_from 0 _) as [w1|] eqn:Hmodes;
    cbn [bind]; [| discriminate].
  intros Hrun. injection Hrun as <-. exists w1. split; [reflexivity |].
  unfold TurbGen_get_decomposition_coeffs. cbn [tgd set_tgd].
  destruct (get_decomposition_coeffs_spec (tgd (TurbGen_OU_noise_init w1)))
    as (a & b & E & _).
  rewrite E.
  destruct (tgd_OU_noise_init w1) as (ph & s & ->).
  repeat split; reflexivity.
Qed.

(** X20.  After a successful initialisation with a Band or Parabola
    spectrum and any sequence of calls of [TurbGen_check_for_update], the
    field returned by [TurbGen_get_turb_vector] is periodic with the box:
    shifting [x] by [xmax - xmin], [y] by [ymax - ymin] or [z] by
    [zmax - zmin] (each when that length is not zero) does not change the
    vector. *)
Theorem field_is_periodic_in_the_box
  (file : string) (pe : Z) (p : ParameterFile) (w0 w : World)
  (times : list R) (x y z : R) :
  p_spect_form p <> 2 ->
  TurbGen_init_turbulence_generator file pe p w0 = Ok w ->
  let t := tgd (check_for_update_seq times w) in
  ((p_xmax p - p_xmin p <> 0)%R ->
   TurbGen_get_turb_vector (x + (p_xmax p - p_xmin p)) y z t
   = TurbGen_get_turb_vector x y z t) /\
  ((p_ymax p - p_ymin p <> 0)%R ->
   TurbGen_get_turb_vector x (y + (p_ymax p - p_ymin p)) z t
   = TurbGen_get_turb_vector x y z t) /\
  ((p_zmax p - p_zmin p <> 0)%R ->
   TurbGen_get_turb_vector x y (z + (p_zmax p - p_zmin p)) t
   = TurbGen_get_turb_vector x y z t).
Proof.
  intros Hsf Hinit. cbv zeta.
  destruct (init_mode_table _ _ _ _ _ Hinit) as (w1 & Hmodes & Hn & Hm & _).
  set (t0 := init_parameters file pe p (tgd w0)) in *.
  assert (Hlat : forall m, 0 <= m < n_modes (tgd w1) ->
            lattice_vector t0 (mode (tgd w1) Axis.X m) (mode (tgd w1) Axis.Y m)
              (mode (tgd w1) Axis.Z m)).
  { intros m Hmr.
    apply (init_modes_band_Forall
             (fun m => lattice_vector t0 (m_kx m) (m_ky m) (m_kz m))
             0 (set_tgd w0 t0) w1 Hsf Hmodes (mode_sequence_lattice 0 t0) m Hmr). }
  destruct (check_for_update_seq_shape times w) as [(ph & a & b & s & stp & E) _].
  rewrite E.
  change (xmax t0) with (p_xmax p) in Hlat. change (xmin t0) with (p_xmin p) in Hlat.
  change (ymax t0) with (p_ymax p) in Hlat. change (ymin t0) with (p_ymin p) in Hlat.
  change (zmax t0) with (p_zmax p) in Hlat. change (zmin t0) with (p_zmin p) in Hlat.
  unfold lattice_vector in Hlat.
  split; [| split]; intros HL.
  - replace (TurbGen_get_turb_vector (x + (p_xmax p - p_xmin p)) y z)
      with (TurbGen_get_turb_vector (x + (p_xmax p - p_xmin p)) (y + 0) (z + 0))
      by (now rewrite !Rplus_0_r).
    apply turb_vector_periodic. intros m Hmr.
    change (n_modes (with_dynamic (tgd w) ph a b s stp)) with (n_modes (tgd w)) in Hmr.
    change (mode (with_dynamic (tgd w) ph a b s stp)) with (mode (tgd w)).
    rewrite Hn in Hmr. rewrite Hm.
    destruct (Hlat m Hmr) as (ix & iy & iz & Hx & Hy & Hz).
    exists ix. rewrite Hx, wavenumber_period by exact HL. ring.
  - replace (TurbGen_get_turb_vector x (y + (p_ymax p - p_ymin p)) z)
      with (TurbGen_get_turb_vector (x + 0) (y + (p_ymax p - p_ymin p)) (z + 0))
      by (now rewrite !Rplus_0_r).
    apply turb_vector_periodic. intros m Hmr.
    change (n_modes (with_dynamic (tgd w) ph a b s stp)) with (n_modes (tgd w)) in Hmr.
    change (mode (with_dynamic (tgd w) ph a b s stp)) with (mode (tgd w)).
    rewrite Hn in Hmr. rewrite Hm.
    destruct (Hlat m Hmr) as (ix & iy & iz & Hx & Hy & Hz).
    exists iy. rewrite Hy, wavenumber_period by exact HL. ring.
  - replace (TurbGen_get_turb_vector x y (z + (p_zmax p - p_zmin p)))
      with (TurbGen_get_turb_vector (x + 0) (y + 0) (z + (p_zmax p - p_zmin p)))
      by (now rewrite !Rplus_0_r).
    apply turb_vector_periodic. intros m Hmr.
    change (n_modes (with_dynamic (tgd w) ph a b s stp)) with (n_modes (tgd w)) in Hmr.
    change (mode (with_dynamic (tgd w) ph a b s stp)) with (mode (tgd w)).
    rewrite Hn in Hmr. rewrite Hm.
    destruct (Hlat m Hmr) as (ix & iy & iz & Hx & Hy & Hz).
    exists iz. rewrite Hz, wavenumber_period by exact HL. ring.
Qed.

Lemma field_is_periodic_in_the_box_witness :
  exists w,
    TurbGen_init_turbulence_generator "turbulence_generator.inp" 0
      example_parameters world_start = Ok w /\
    TurbGen_get_turb_vector (/ 3 + (p_xmax example_parameters - p_xmin example_parameters))
      0 0 (tgd (check_for_update_seq [1%R] w))
    = TurbGen_get_turb_vector (/ 3) 0 0 (tgd (check_for_update_seq [1%R] w)).
Proof.
  destruct init_example_succeeds as [w Hw]. exists w. split; [exact Hw |].
  assert (Hsf : p_spect_form example_parameters <> 2) by discriminate.
  apply (field_is_periodic_in_the_box _ _ _ _ _ [1%R] (/ 3)%R 0%R 0%R Hsf Hw).
  cbn [example_parameters p_xmax p_xmin]. lra.
Defined.

(** ** The derived parameters *)

Lemma pow_2_square (x : R) : CMath.pow x 2 = (x * x)%R.
Proof. rewrite pow_int. change (powerRZ x 2) with (x * (x * 1))%R. ring. Qed.

Lemma sqrt_sqrt_div (a q : R) :
  (0 < a)%R -> (0 < q)%R ->
  (0 < sqrt a * sqrt 3 * 1 / sqrt q)%R /\
  ((sqrt a * sqrt 3 * 1 / sqrt q) * (sqrt a * sqrt 3 * 1 / sqrt q) * q = 3 * a)%R.
Proof.
  intros Ha Hq.
  pose proof (sqrt_lt_R0 a Ha) as H1.
  pose proof (sqrt_lt_R0 3 ltac:(lra)) as H2.
  pose proof (sqrt_lt_R0 q Hq) as H3.
  split.
  - apply Rdiv_lt_0_compat; [| exact H3].
    rewrite Rmult_1_r. now apply Rmult_lt_0_compat.
  - rewrite <- (sqrt_sqrt q) at 3 by lra.
    transitivity ((sqrt a * sqrt a) * (sqrt 3 * sqrt 3))%R; [field; lra |].
    rewrite !sqrt_sqrt by lra. ring.
Qed.

(** X21.  For [ndim] 1, 2 or 3, and [sol_weight] other than 1 when
    [ndim = 1] (where the code divides by zero), the value assigned to
    [tgd.sol_weight_norm] is positive and is
    [3 / sqrt (ndim * (1 - 2 sol_weight + ndim * sol_weight^2))]: its
    square times [ndim * (1 - 2 sol_weight + ndim * sol_weight^2)] is
    9. *)
Theorem sol_weight_norm_is_positive (n : Z) (sw old : R) :
  1 <= n <= 3 -> (n = 1 -> sw <> 1%R) ->
  let norm := sol_weight_norm_of n sw old in
  (0 < norm)%R /\
  (norm * norm * (IZR n * (1 - 2 * sw + IZR n * (sw * sw))) = 9)%R.
Proof.
  intros Hn H1. cbv zeta. unfold sol_weight_norm_of. rewrite !pow_2_square.
  assert (Hc : n = 1 \/ n = 2 \/ n = 3) by lia.
  destruct Hc as [-> | [-> | ->]]; cbn [Z.eqb Pos.eqb].
  - assert (Hq : (0 < 1 - 2 * sw + 1 * (sw * sw))%R).
    { specialize (H1 eq_refl). assert (sw - 1 <> 0)%R by lra.
      assert (0 < (sw - 1) * (sw - 1))%R by (apply Rsqr_pos_lt; assumption). lra. }
    destruct (sqrt_sqrt_div (3 / 1) _ ltac:(lra) Hq) as [Hp He].
    split; [exact Hp | nra].
  - assert (Hq : (0 < 1 - 2 * sw + 2 * (sw * sw))%R) by nra.
    destruct (sqrt_sqrt_div (3 / 2) _ ltac:(lra) Hq) as [Hp He].
    split; [exact Hp | nra].
  - assert (Hq : (0 < 1 - 2 * sw + 3 * (sw * sw))%R) by nra.
    destruct (sqrt_sqrt_div (3 / 3) _ ltac:(lra) Hq) as [Hp He].
    split; [exact Hp | nra].
Qed.

Lemma sol_weight_norm_is_positive_witness :
  (0 < sol_weight_norm_of 3 (/ 2) 0)%R.
Proof.
  apply (sol_weight_norm_is_positive 3 (/ 2) 0); lia.
Defined.

(** *** The band and the integer wavenumbers *)

Lemma DBL_EPSILON_pos : (0 < CMath.DBL_EPSILON)%R.
Proof. unfold CMath.DBL_EPSILON. apply powerRZ_lt. lra. Qed.

Lemma magnitude_axis (kx : R) : (0 <= kx)%R -> magnitude kx 0 0 = kx.
Proof.
  intros H. unfold magnitude.
  replace (kx * kx + 0 * 0 + 0 * 0)%R with (kx * kx)%R by ring.
  now apply sqrt_square.
Qed.

(** The wavevector [(2 pi k / Lx, 0, 0)] of an integer [k] between
    [k_min] and [k_max] passes the band test of the initialised state. *)
Lemma axis_mode_in_band (file : string) (pe : Z) (p : ParameterFile) (t : TurbGenData)
  (k : Z) :
  (0 < p_xmax p - p_xmin p)%R -> 0 <= k ->
  (p_k_min p <= IZR k <= p_k_max p)%R ->
  let t0 := init_parameters file pe p t in
  in_band t0
    (magnitude (wavenumber (xmax t0 - xmin t0) k) (wavenumber (ymax t0 - ymin t0) 0)
       (wavenumber (zmax t0 - zmin t0) 0)) = true.
Proof.
  intros HL Hk Hband. cbv zeta.
  rewrite !wavenumber_0.
  change (xmax (init_parameters file pe p t)) with (p_xmax p).
  change (xmin (init_parameters file pe p t)) with (p_xmin p).
  set (L := (p_xmax p - p_xmin p)%R) in *.
  pose proof PI_RGT_0 as Hpi. pose proof DBL_EPSILON_pos as Heps.
  assert (HLi : (0 < / L)%R) by now apply Rinv_0_lt_compat.
  assert (Hc : (0 < 2 * PI * / L)%R) by (apply Rmult_lt_0_compat; lra).
  assert (Hk0 : (0 <= IZR k)%R) by (apply IZR_le; exact Hk).
  assert (Hw : wavenumber L k = (IZR k * (2 * PI * / L))%R).
  { unfold wavenumber, CMath.of_int, CMath.M_PI, Rdiv. ring. }
  rewrite magnitude_axis by (rewrite Hw; apply Rmult_le_pos; lra).
  apply in_band_true.
  change (stir_min (init_parameters file pe p t))
    with ((p_k_min p - CMath.DBL_EPSILON) * 2 * CMath.M_PI / L)%R.
  change (stir_max (init_parameters file pe p t))
    with ((p_k_max p + CMath.DBL_EPSILON) * 2 * CMath.M_PI / L)%R.
  rewrite Hw. unfold CMath.M_PI, Rdiv.
  replace ((p_k_min p - CMath.DBL_EPSILON) * 2 * PI * / L)%R
    with ((p_k_min p - CMath.DBL_EPSILON) * (2 * PI * / L))%R by ring.
  replace ((p_k_max p + CMath.DBL_EPSILON) * 2 * PI * / L)%R
    with ((p_k_max p + CMath.DBL_EPSILON) * (2 * PI * / L))%R by ring.
  split; apply Rmult_le_compat_r; lra.
Qed.

Lemma n_modes_after_init_modes_band (amplitude0 : R) (w w' : World) :
  spect_form (tgd w) <> 2 ->
  TurbGen_init_modes_from amplitude0 w = Ok w' ->
  n_modes (tgd w') = Z.of_nat (List.length (mode_sequence amplitude0 (tgd w))) /\
  n_modes (tgd w') < tgd_max_n_modes /\
  seed (tgd w') = seed (tgd w) /\
  OUvar (tgd w') = OUvar (tgd w).
Proof.
  intros Hsf Hrun.
  pose proof (init_modes_band amplitude0 w Hsf) as H. cbv zeta in H.
  destruct (too_many_modes _ _) eqn:Hguard; [congruence |].
  apply too_many_modes_false in Hguard.
  destruct H as (am & md & Heq & _).
  rewrite Heq in Hrun. injection Hrun as <-.
  repeat split. exact Hguard.
Qed.

Lemma init_band_nonempty (file : string) (pe : Z) (p : ParameterFile) (w0 w : World)
  (k : Z) :
  p_spect_form p <> 2 ->
  (0 < p_xmax p - p_xmin p)%R ->
  0 <= k <= 256 ->
  (p_k_min p <= IZR k <= p_k_max p)%R ->
  TurbGen_init_turbulence_generator file pe p w0 = Ok w ->
  0 < n_modes (tgd w) < tgd_max_n_modes.
Proof.
  intros Hsf HL Hk Hband Hinit.
  destruct (init_mode_table _ _ _ _ _ Hinit) as (w1 & Hmodes & Hn & _).
  destruct (n_modes_after_init_modes_band 0
              (set_tgd w0 (init_parameters file pe p (tgd w0))) w1 Hsf Hmodes)
    as (Hlen & Hcap & _).
  rewrite Hn. split; [| exact Hcap]. rewrite Hlen.
  cbn [tgd set_tgd].
  apply (mode_sequence_nonempty 0 _ k 0 0); try lia.
  - unfold ikymax_of. destruct (_ >? 1); lia.
  - unfold ikzmax_of. destruct (_ >? 2); lia.
  - apply axis_mode_in_band; [exact HL | lia | exact Hband].
Qed.

(** X22.  For Band and Parabola with a box of positive length in x and
    of non-zero length in y and z (the code divides by all three lengths
    when it forms the wavenumbers [2 pi ik / L] of a lattice point, also
    for [ik = 0] and in one dimension): if some integer [k] between 0 and
    256 lies between [k_min] and [k_max], then a successful initialisation
    leaves at least one mode (and fewer than [tgd_max_n_modes]), and the
    wavevector [(2 pi k / Lx, 0, 0)] passes the band test of the
    initialised state, the bounds [k_min] and [k_max] themselves
    included. *)
Theorem integer_wavenumber_in_band_gives_a_mode
  (file : string) (pe : Z) (p : ParameterFile) (w0 w : World) (k : Z) :
  p_spect_form p <> 2 ->
  (0 < p_xmax p - p_xmin p)%R ->
  (p_ymax p - p_ymin p <> 0)%R ->
  (p_zmax p - p_zmin p <> 0)%R ->
  0 <= k <= 256 ->
  (p_k_min p <= IZR k <= p_k_max p)%R ->
  TurbGen_init_turbulence_generator file pe p w0 = Ok w ->
  0 < n_modes (tgd w) < tgd_max_n_modes /\
  in_band (tgd w)
    (magnitude (wavenumber (p_xmax p - p_xmin p) k) 0%R 0%R) = true.
Proof.
  intros Hsf HL _ _ Hk Hband Hinit.
  split; [now apply (init_band_nonempty file pe p w0 w k) |].
  pose proof (axis_mode_in_band file pe p (tgd w0) k HL ltac:(lia) Hband) as H.
  cbv zeta in H. rewrite !wavenumber_0 in H.
  destruct (init_shape _ _ _ _ _ Hinit) as (n & am & md & s & ph & a & b & ->).
  exact H.
Qed.

Lemma example_parameters_band : (p_k_min example_parameters <= IZR 1
                                 <= p_k_max example_parameters)%R.
Proof. cbn [example_parameters p_k_min p_k_max]. lra. Qed.

Lemma example_parameters_box :
  (0 < p_xmax example_parameters - p_xmin example_parameters)%R.
Proof. cbn [example_parameters p_xmax p_xmin]. lra. Qed.

Lemma example_parameters_box_yz :
  (p_ymax example_parameters - p_ymin example_parameters <> 0)%R /\
  (p_zmax example_parameters - p_zmin example_parameters <> 0)%R.
Proof. cbn [example_parameters p_ymax p_ymin p_zmax p_zmin]. split; lra. Qed.

Lemma integer_wavenumber_in_band_gives_a_mode_witness :
  exists w,
    TurbGen_init_turbulence_generator "turbulence_generator.inp" 0
      example_parameters world_start = Ok w /\
    0 < n_modes (tgd w) < tgd_max_n_modes.
Proof.
  destruct init_example_succeeds as [w Hw]. exists w. split; [exact Hw |].
  assert (Hsf : p_spect_form example_parameters <> 2) by discriminate.
  apply (integer_wavenumber_in_band_gives_a_mode _ _ _ _ w 1 Hsf
           example_parameters_box (proj1 example_parameters_box_yz)
           (proj2 example_parameters_box_yz) ltac:(lia) example_parameters_band Hw).
Defined.

Lemma init_modes_band_uses_no_randomness_aux (amplitude0 : R) (w w' : World) :
  spect_form (tgd w) <> 2 ->
  TurbGen_init_modes_from amplitude0 w = Ok w' ->
  rng_calls w' = rng_calls w.
Proof.
  intros Hsf Hrun.
  pose proof (init_modes_band amplitude0 w Hsf) as H. cbv zeta in H.
  destruct (too_many_modes _ _); [congruence |].
  destruct H as (am & md & Heq & _).
  rewrite Heq in Hrun. injection Hrun as <-. reflexivity.
Qed.

(** *** The initial phases *)

(** X23.  After a successful initialisation with a Band or Parabola
    spectrum, every phase slot [i < 6 n_modes] holds [OUvar] times the
    [i]-th Gaussian deviate of the stream started at [random_seed];
    [tgd.seed] is [random_seed] advanced by [12 n_modes] steps of
    [TurbGen_ran1s]; and the initialisation has made exactly [12 n_modes]
    calls of [TurbGen_ran1s] and none of [TurbGen_ran2]. *)
Theorem init_phases_come_from_the_seed
  (file : string) (pe : Z) (p : ParameterFile) (w0 w : World) :
  p_spect_form p <> 2 ->
  TurbGen_init_turbulence_generator file pe p w0 = Ok w ->
  let t0 := init_parameters file pe p (tgd w0) in
  (forall i, 0 <= i < 6 * n_modes (tgd w) ->
     OUphases (tgd w) i = (OUvar t0 * nth_grn (Z.to_nat i) (set_tgd w0 t0))%R) /\
  seed (tgd w)
  = Nat.iter (Z.to_nat (12 * n_modes (tgd w))) Ran1s.next (p_random_seed p) /\
  rng_calls w = rng_calls w0 ++ repeat call_ran1s (Z.to_nat (12 * n_modes (tgd w))).
Proof.
  intros Hsf Hinit. cbv zeta.
  destruct (init_mode_table _ _ _ _ _ Hinit) as (w1 & Hmodes & Hn & _ & _ & Hw).
  destruct (n_modes_after_init_modes_band 0
              (set_tgd w0 (init_parameters file pe p (tgd w0))) w1 Hsf Hmodes)
    as (Hlen & Hcap & Hseed & Hvar).
  pose proof (init_modes_band_uses_no_randomness_aux 0
                (set_tgd w0 (init_parameters file pe p (tgd w0))) w1 Hsf Hmodes)
    as Hcalls.
  cbn [tgd set_tgd] in Hseed, Hvar.
  assert (Hn1 : 0 <= n_modes (tgd w1) <= tgd_max_n_modes) by lia.
  destruct (OU_noise_init_shape w1) as (ph & Hou & Hin & _).
  rewrite mul6_n_modes in Hou, Hin by exact Hn1.
  unfold TurbGen_get_decomposition_coeffs in Hw.
  destruct (get_decomposition_coeffs_spec (tgd (TurbGen_OU_noise_init w1)))
    as (a & b & E & _).
  rewrite E, Hou in Hw. rewrite Hn. subst w.
  cbn [tgd set_tgd].
  change (OUphases (with_coeffs _ a b)) with ph.
  split; [| split].
  - intros i Hi. rewrite (Hin i Hi), Hvar. f_equal.
    apply nth_grn_seed_only. exact Hseed.
  - transitivity (seed (tgd (after_grn (Z.to_nat (6 * n_modes (tgd w1))) w1)));
      [reflexivity |].
    rewrite seed_after_grn, Hseed. f_equal. lia.
  - transitivity (rng_calls (after_grn (Z.to_nat (6 * n_modes (tgd w1))) w1));
      [reflexivity |].
    rewrite after_grn_shape. cbn [rng_calls]. rewrite Hcalls. cbn [rng_calls set_tgd].
    f_equal. f_equal. lia.
Qed.

Lemma init_phases_come_from_the_seed_witness :
  exists w,
    TurbGen_init_turbulence_generator "turbulence_generator.inp" 0
      example_parameters world_start = Ok w /\
    OUphases (tgd w) 0
    = (OUvar (init_parameters "turbulence_generator.inp" 0 example_parameters
                (tgd world_start))
       * nth_grn 0
           (set_tgd world_start
              (init_parameters "turbulence_generator.inp" 0 example_parameters
                 (tgd world_start))))%R.
Proof.
  destruct init_example_succeeds as [w Hw]. exists w. split; [exact Hw |].
  assert (Hsf : p_spect_form example_parameters <> 2) by discriminate.
  pose proof (init_band_nonempty _ _ _ _ w 1 Hsf example_parameters_box ltac:(lia)
                example_parameters_band Hw) as Hn.
  destruct (init_phases_come_from_the_seed _ _ _ _ _ Hsf Hw) as (Hin & _).
  apply (Hin 0). lia.
Defined.

(** ** The generators in the power-law sampling *)

Lemma rng_calls_ran2 (idum : Z) (w : World) :
  rng_calls (snd (TurbGen_ran2 idum w)) = rng_calls w ++ [call_ran2].
Proof.
  unfold TurbGen_ran2.
  destruct (idum <=? 0).
  - destruct (for_down _ _ _) as [i1 iv1]. reflexivity.
  - reflexivity.
Qed.

(** An initialising call leaves the statics in range. *)
Lemma ran2_init_ok (idum : Z) (w : World) :
  - Ran2.IM2 < idum <= 0 ->
  ran2_state_ok (ran2_static (snd (TurbGen_ran2 idum w))) /\
  (0 < fst (fst (TurbGen_ran2 idum w)) < 1)%R.
Proof.
  intros Hid.
  assert (Hle : idum <= 0) by lia.
  pose proof (ran2_init_call idum w Hle) as E1.
  cbv zeta in E1. rewrite ran2_warm_count in E1.
  pose proof (ran2_first_state idum Hid) as Hi0.
  set (i0 := CInt.MAX (CInt.neg idum) 1) in *.
  assert (Hi0' : 1 <= i0 <= Ran2.IM1 - 1) by (unfold Ran2.IM1, Ran2.IM2 in *; lia).
  assert (Hn : Ran2.NTAB <= Z.of_nat 40) by (unfold Ran2.NTAB; lia).
  destruct (ran2_warm_up_range 40 i0 (iv (ran2_static w)) Hi0' Hn) as [Hf1 Ht1].
  destruct (for_down 40 Ran2.warm_body (i0, iv (ran2_static w))) as [a1 t1].
  cbn [fst snd] in *.
  rewrite E1 by lia. clear E1.
  assert (H0 : 0 <= 0 < Ran2.NTAB) by (unfold Ran2.NTAB; lia).
  assert (Hok1 : ran2_state_ok
                   (ran2_static (set_ran2_static w {| idum2 := i0; iy := t1 0; iv := t1 |}))).
  { unfold ran2_state_ok. cbn [ran2_static set_ran2_static idum2 iy iv].
    split; [exact Hi0 |]. split.
    - rewrite IMM1_value. specialize (Ht1 0 H0). unfold Ran2.IM1 in Ht1. lia.
    - intros j Hj. specialize (Ht1 j Hj). lia. }
  destruct (ran2_regular_ok a1 _ Hok1 Hf1) as (_ & Hr & _ & _ & Hok' & _ & _).
  split; [exact Hok' | exact Hr].
Qed.

Lemma iter_step1_range (k : nat) (s : Z) :
  1 <= s <= Ran2.IM1 - 1 -> 1 <= Nat.iter k Ran2.step1 s <= Ran2.IM1 - 1.
Proof.
  intros Hs. induction k as [|k IH]; [exact Hs |].
  rewrite Nat.iter_succ. now apply ran2_step1_range.
Qed.

Lemma iter_step1_lehmer (k : nat) (s : Z) :
  1 <= s <= Ran2.IM1 - 1 ->
  Nat.iter k Ran2.step1 s = (Ran2.IA1 ^ Z.of_nat k * s) mod Ran2.IM1.
Proof.
  intros Hs. induction k as [|k IH].
  - cbn [Nat.iter nat_rect]. change (Z.of_nat 0) with 0.
    rewrite Z.pow_0_r, Z.mul_1_l, Z.mod_small; [reflexivity | lia].
  - rewrite Nat.iter_succ.
    rewrite ran2_step1_mod by (pose proof (iter_step1_range k s Hs); lia).
    rewrite IH, Nat2Z.inj_succ, Z.pow_succ_r by lia.
    rewrite Z.mul_mod_idemp_r by (unfold Ran2.IM1; lia).
    f_equal. ring.
Qed.

Lemma repeat_snoc {A : Type} (x : A) (n : nat) : repeat x n ++ [x] = repeat x (S n).
Proof.
  induction n as [|n IH]; [reflexivity |].
  cbn [repeat app]. now rewrite IH.
Qed.

(** A call [TurbGen_ran2(&tgd.seed)] during the sampling. *)
Lemma powerlaw_rng_draw (w0 w : World) :
  1 <= seed (tgd w0) <= Ran2.IM1 - 1 ->
  powerlaw_rng_inv w0 w ->
  powerlaw_rng_inv w0 (snd (ran2_tgd_seed w)) /\
  (0 < fst (ran2_tgd_seed w) < 1)%R.
Proof.
  intros Hs0 (k & Hcalls & Hok & Hseed).
  assert (Hs : 1 <= seed (tgd w) <= Ran2.IM1 - 1)
    by (rewrite Hseed; now apply iter_step1_range).
  destruct (ran2_regular_ok (seed (tgd w)) w Hok Hs) as (_ & Hr & Hst & _ & Hok' & _).
  cbv zeta in Hr, Hst, Hok'.
  pose proof (rng_calls_ran2 (seed (tgd w)) w) as Hc.
  unfold ran2_tgd_seed.
  destruct (TurbGen_ran2 (seed (tgd w)) w) as [[r s] w1].
  cbn [fst snd] in *. split; [| exact Hr].
  exists (S k). cbn [rng_calls ran2_static tgd set_tgd seed set_seed].
  split; [| split].
  - rewrite Hc, Hcalls, <- app_assoc, repeat_snoc. reflexivity.
  - exact Hok'.
  - rewrite Nat.iter_succ, <- Hseed. exact Hst.
Qed.

(** The last stage of one angular sample does not touch the generators. *)
Lemma powerlaw_rng_store (w0 w w' : World) (amplitude kx ky kz : R) :
  powerlaw_rng_inv w0 w ->
  (if in_band (tgd w) (magnitude kx ky kz)
   then if too_many_modes (tgd w) (n_modes (tgd w)) then Exit
        else Ok (set_tgd w (store_mode (tgd w) amplitude kx ky kz))
   else Ok w) = Ok w' ->
  powerlaw_rng_inv w0 w'.
Proof.
  intros Hinv Hrun.
  destruct (in_band _ _).
  - destruct (too_many_modes _ _); [discriminate |].
    injection Hrun as <-. destruct Hinv as (k & Hc & Hok & Hs).
    exists k. split; [exact Hc | split; [exact Hok |]].
    rewrite <- Hs. reflexivity.
  - injection Hrun as <-. exact Hinv.
Qed.

Lemma powerlaw_angle_body_rng (w0 : World) (kc Lx Ly Lz : R) (ik nang iang : Z)
  (w w' : World) :
  1 <= seed (tgd w0) <= Ran2.IM1 - 1 ->
  powerlaw_rng_inv w0 w ->
  powerlaw_angle_body kc Lx Ly Lz ik nang iang w = Ok w' ->
  powerlaw_rng_inv w0 w'.
Proof.
  intros Hs0 Hinv. unfold powerlaw_angle_body.
  pose proof (proj1 (powerlaw_rng_draw w0 w Hs0 Hinv)) as H1.
  destruct (ran2_tgd_seed w) as [u1 w1]. cbn [snd] in H1. cbv beta iota zeta.
  destruct (ndim (tgd w1) >? 2) eqn:H3d.
  - pose proof (proj1 (powerlaw_rng_draw w0 w1 Hs0 H1)) as H2.
    destruct (ran2_tgd_seed w1) as [u2 w2]. cbn [snd] in H2. cbv beta iota zeta.
    pose proof (proj1 (powerlaw_rng_draw w0 w2 Hs0 H2)) as H3.
    destruct (ran2_tgd_seed w2) as [u3 w3]. cbn [snd] in H3. cbv beta iota zeta.
    apply powerlaw_rng_store. exact H3.
  - pose proof (proj1 (powerlaw_rng_draw w0 w1 Hs0 H1)) as H3.
    destruct (ran2_tgd_seed w1) as [u3 w3]. cbn [snd] in H3. cbv beta iota zeta.
    apply powerlaw_rng_store. exact H3.
Qed.

Lemma neg_seed (s : Z) : 1 <= s <= Ran2.IM2 - 1 -> - Ran2.IM2 < CInt.neg s <= 0.
Proof.
  unfold Ran2.IM2. intros H. unfold CInt.neg.
  rewrite wrap_id by (unfold CInt.in_int, CInt.int_min, CInt.int_max; lia). lia.
Qed.

Lemma powerlaw_pass_rng (kc Lx Ly Lz : R) (w w' : World) :
  1 <= seed (tgd w) <= Ran2.IM2 - 1 ->
  powerlaw_pass kc Lx Ly Lz w = Ok w' ->
  powerlaw_rng_inv w w'.
Proof.
  intros Hs. unfold powerlaw_pass.
  pose proof (ran2_tgd (CInt.neg (seed (tgd w))) w) as Ht.
  pose proof (rng_calls_ran2 (CInt.neg (seed (tgd w))) w) as Hc.
  pose proof (proj1 (ran2_init_ok (CInt.neg (seed (tgd w))) w (neg_seed _ Hs))) as Hok.
  destruct (TurbGen_ran2 (CInt.neg (seed (tgd w))) w) as [[r s0] wa].
  cbn [snd] in Ht, Hc, Hok. cbv beta iota zeta.
  assert (Hs1 : 1 <= seed (tgd w) <= Ran2.IM1 - 1)
    by (unfold Ran2.IM1, Ran2.IM2 in *; lia).
  assert (H0 : powerlaw_rng_inv w wa).
  { exists 0%nat. split; [exact Hc | split; [exact Hok |]]. now rewrite Ht. }
  apply for_loopM_inv; [exact H0 |].
  intros ik a a' _ Ha. unfold powerlaw_shell_body.
  apply for_loopM_inv; [exact Ha |].
  intros iang b b' _ Hb. now apply powerlaw_angle_body_rng.
Qed.

(** [TurbGen_init_modes] for the power-law spectrum, in terms of the
    sampling pass. *)
Lemma init_modes_powerlaw (amplitude0 : R) (w : World) :
  spect_form (tgd w) = 2 ->
  exists c,
    TurbGen_init_modes_from amplitude0 w =
    (w2 <- powerlaw_pass (kc_of (tgd w)) (xmax (tgd w) - xmin (tgd w))
             (ymax (tgd w) - ymin (tgd w)) (zmax (tgd w) - zmin (tgd w))
             (set_tgd w (set_n_modes (set_n_modes (tgd w) c) (-1))) ;;
     Ok (set_tgd w2 (set_n_modes (tgd w2) (CInt.add (n_modes (tgd w2)) 1)))).
Proof.
  intros Hpl. rewrite init_modes_unfold. cbv zeta.
  set (t := tgd w) in *.
  destruct (enum_pass_init amplitude0 t) as (_ & Hc & _). cbv zeta in Hc.
  rewrite Hc. clear Hc.
  set (c := Z.of_nat (List.length _)).
  exists c.
  change (spect_form (set_n_modes t c)) with (spect_form t).
  change (spect_form (set_n_modes (set_n_modes t c) (-1))) with (spect_form t).
  rewrite Hpl. cbn [Z.eqb Pos.eqb negb andb].
  change (spect_form (set_n_modes (set_n_modes t c) (-1))) with (spect_form t).
  rewrite Hpl. cbn [Z.eqb Pos.eqb]. reflexivity.
Qed.

(** X24.  For the power-law spectrum with a seed between 1 and
    [IM2 - 1], a successful [TurbGen_init_modes] calls only [TurbGen_ran2],
    [k + 1] times for some [k]; it leaves the statics of [TurbGen_ran2] in
    range and [tgd.seed] equal to [40014^k * seed mod 2147483563]: the
    first call works on a local copy of the seed, each later one advances
    [tgd.seed] by one step. *)
Theorem init_modes_powerlaw_draws_from_ran2 (amplitude0 : R) (w w' : World) :
  spect_form (tgd w) = 2 ->
  1 <= seed (tgd w) <= Ran2.IM2 - 1 ->
  TurbGen_init_modes_from amplitude0 w = Ok w' ->
  exists k : nat,
    rng_calls w' = rng_calls w ++ repeat call_ran2 (S k) /\
    ran2_state_ok (ran2_static w') /\
    seed (tgd w') = (40014 ^ Z.of_nat k * seed (tgd w)) mod 2147483563.
Proof.
  intros Hpl Hs Hrun.
  destruct (init_modes_powerlaw amplitude0 w Hpl) as (c & E).
  rewrite E in Hrun. clear E.
  destruct (powerlaw_pass _ _ _ _ _) as [w2|] eqn:Hpass; cbn [bind] in Hrun;
    [| discriminate].
  injection Hrun as <-.
  apply powerlaw_pass_rng in Hpass; [| exact Hs].
  destruct Hpass as (k & Hc & Hok & Hseed).
  exists k. cbn [rng_calls ran2_static set_tgd tgd] in *.
  split; [exact Hc | split; [exact Hok |]].
  change (seed (set_n_modes (tgd w2) _)) with (seed (tgd w2)).
  rewrite Hseed.
  change (seed (set_n_modes (set_n_modes (tgd w) c) (-1))) with (seed (tgd w)).
  apply iter_step1_lehmer. unfold Ran2.IM1, Ran2.IM2 in *. lia.
Qed.

(** *** The capacity of the mode table in the power-law sampling *)

Lemma powerlaw_bound_ran2 (t : TurbGenData) (w : World) :
  powerlaw_bound_inv t w -> powerlaw_bound_inv t (snd (ran2_tgd_seed w)).
Proof.
  intros (n & am & md & s & Ht & Hn & Hout).
  destruct (ran2_tgd_seed_tgd w) as [s' Hs'].
  exists n, am, md, s'. split; [| split; assumption].
  rewrite Hs', Ht. reflexivity.
Qed.

Lemma powerlaw_bound_store (t : TurbGenData) (w w' : World) (amplitude kx ky kz : R) :
  1 <= ndim t <= 3 ->
  powerlaw_bound_inv t w ->
  (if in_band (tgd w) (magnitude kx ky kz)
   then if too_many_modes (tgd w) (n_modes (tgd w)) then Exit
        else Ok (set_tgd w (store_mode (tgd w) amplitude kx ky kz))
   else Ok w) = Ok w' ->
  powerlaw_bound_inv t w'.
Proof.
  intros Hnd (n & am & md & s & Ht & Hn & Hout) Hrun.
  rewrite Ht in Hrun.
  change (in_band (set_seed (with_modes t n am md) s)) with (in_band t) in Hrun.
  change (n_modes (set_seed (with_modes t n am md) s)) with n in Hrun.
  change (too_many_modes (set_seed (with_modes t n am md) s))
    with (too_many_modes t) in Hrun.
  destruct (in_band t (magnitude kx ky kz)).
  - destruct (too_many_modes t n) eqn:Hguard; [discriminate |].
    assert (Hcap : ~ n + 2 ^ (ndim t - 1) > tgd_max_n_modes).
    { intros Hgt. apply (too_many_modes_Z t n Hnd) in Hgt. congruence. }
    injection Hrun as <-.
    assert (Hp : 0 < 2 ^ (ndim t - 1)) by (apply Z.pow_pos_nonneg; lia).
    assert (Hadd : CInt.add n 1 = n + 1)
      by (apply add_small; unfold CInt.int_max, tgd_max_n_modes in *; lia).
    destruct (store_wavevector_at md (n + 1) kx ky kz) as (_ & _ & _ & Hother).
    cbv zeta in Hother.
    exists (n + 1), (aset am (n + 1) amplitude),
      (aset2 (aset2 (aset2 md Axis.X (n + 1) kx) Axis.Y (n + 1) ky) Axis.Z (n + 1) kz),
      s.
    split; [| split; [lia |]].
    + cbn [tgd set_tgd].
      transitivity (set_seed (store_mode (with_modes t n am md) amplitude kx ky kz) s);
        [reflexivity |].
      rewrite store_mode_spec, Hadd. reflexivity.
    + intros i Hi. assert (Hne : i <> n + 1) by lia.
      rewrite aset_neq by exact Hne. split.
      * apply Hout. lia.
      * intros c. rewrite Hother by exact Hne. apply Hout. lia.
  - injection Hrun as <-. exists n, am, md, s. auto.
Qed.

Lemma powerlaw_bound_ndim (t : TurbGenData) (w : World) :
  powerlaw_bound_inv t w -> ndim (tgd w) = ndim t.
Proof. intros (n & am & md & s & -> & _). reflexivity. Qed.

Lemma powerlaw_angle_body_bound (t : TurbGenData) (kc Lx Ly Lz : R) (ik nang iang : Z)
  (w w' : World) :
  1 <= ndim t <= 3 ->
  powerlaw_bound_inv t w ->
  powerlaw_angle_body kc Lx Ly Lz ik nang iang w = Ok w' ->
  powerlaw_bound_inv t w'.
Proof.
  intros Hnd Hinv. unfold powerlaw_angle_body.
  pose proof (powerlaw_bound_ran2 t w Hinv) as H1.
  destruct (ran2_tgd_seed w) as [u1 w1]. cbn [snd] in H1. cbv beta iota zeta.
  destruct (ndim (tgd w1) >? 2) eqn:H3d.
  - pose proof (powerlaw_bound_ran2 t w1 H1) as H2.
    destruct (ran2_tgd_seed w1) as [u2 w2]. cbn [snd] in H2. cbv beta iota zeta.
    pose proof (powerlaw_bound_ran2 t w2 H2) as H3.
    destruct (ran2_tgd_seed w2) as [u3 w3]. cbn [snd] in H3. cbv beta iota zeta.
    now apply powerlaw_bound_store.
  - pose proof (powerlaw_bound_ran2 t w1 H1) as H3.
    destruct (ran2_tgd_seed w1) as [u3 w3]. cbn [snd] in H3. cbv beta iota zeta.
    now apply powerlaw_bound_store.
Qed.

Lemma powerlaw_pass_bound (t : TurbGenData) (kc Lx Ly Lz : R) (w w' : World) :
  1 <= ndim t <= 3 ->
  powerlaw_bound_inv t w ->
  powerlaw_pass kc Lx Ly Lz w = Ok w' ->
  powerlaw_bound_inv t w'.
Proof.
  intros Hnd Hinv. unfold powerlaw_pass.
  pose proof (ran2_tgd (CInt.neg (seed (tgd w))) w) as Hr.
  destruct (TurbGen_ran2 (CInt.neg (seed (tgd w))) w) as [[r s0] w0].
  cbn [snd] in Hr. cbv beta iota zeta.
  assert (H0 : powerlaw_bound_inv t w0).
  { destruct Hinv as (n & am & md & s & Ht & Hrest).
    exists n, am, md, s. rewrite Hr. auto. }
  apply for_loopM_inv; [exact H0 |].
  intros ik a a' _ Ha. unfold powerlaw_shell_body.
  apply for_loopM_inv; [exact Ha |].
  intros iang b b' _ Hb. now apply powerlaw_angle_body_bound.
Qed.

(** X25.  For the power-law spectrum with [ndim] between 1 and 3, a
    successful [TurbGen_init_modes] leaves at most
    [tgd_max_n_modes - 2^(ndim-1) + 2] modes and changes no entry of [ampl]
    and [mode] from the new [n_modes] on.  For [ndim] 2 or 3 that is at
    most [tgd_max_n_modes], so every entry written lies inside the arrays.
    For [ndim = 1] the bound is [tgd_max_n_modes + 1]: the guard does not
    fire when the last index is [tgd_max_n_modes - 1], after which the
    next entry goes to index [tgd_max_n_modes]. *)
Theorem init_modes_powerlaw_capacity (amplitude0 : R) (w w' : World) :
  spect_form (tgd w) = 2 -> 1 <= ndim (tgd w) <= 3 ->
  TurbGen_init_modes_from amplitude0 w = Ok w' ->
  0 <= n_modes (tgd w') <= tgd_max_n_modes - 2 ^ (ndim (tgd w) - 1) + 2 /\
  (forall i, ~ 0 <= i < n_modes (tgd w') ->
     ampl (tgd w') i = ampl (tgd w) i /\
     forall c, mode (tgd w') c i = mode (tgd w) c i) /\
  (2 <= ndim (tgd w) -> n_modes (tgd w') <= tgd_max_n_modes) /\
  (ndim (tgd w) = 1 -> too_many_modes (tgd w) (tgd_max_n_modes - 1) = false).
Proof.
  intros Hpl Hnd Hrun.
  destruct (init_modes_powerlaw amplitude0 w Hpl) as (c & E).
  rewrite E in Hrun. clear E.
  destruct (powerlaw_pass _ _ _ _ _) as [w2|] eqn:Hpass; cbn [bind] in Hrun;
    [| discriminate].
  injection Hrun as <-.
  assert (Hinv : powerlaw_bound_inv (tgd w) w2).
  { refine (powerlaw_pass_bound (tgd w) _ _ _ _ _ _ Hnd _ Hpass).
    exists (-1), (ampl (tgd w)), (mode (tgd w)), (seed (tgd w)).
    split; [destruct w as [t r cs]; destruct t; reflexivity |].
    assert (2 ^ (ndim (tgd w) - 1) <= 2 ^ 2) by (apply Z.pow_le_mono_r; lia).
    split; [unfold tgd_max_n_modes; lia | intros; auto]. }
  destruct Hinv as (n & am & md & s & Ht & Hn & Hout).
  cbn [tgd set_tgd]. rewrite Ht.
  change (n_modes (set_seed (with_modes (tgd w) n am md) s)) with n.
  assert (Hp : 2 ^ (ndim (tgd w) - 1) <= 2 ^ 2) by (apply Z.pow_le_mono_r; lia).
  assert (Hp0 : 0 < 2 ^ (ndim (tgd w) - 1)) by (apply Z.pow_pos_nonneg; lia).
  rewrite add_small by (unfold CInt.int_max, tgd_max_n_modes in *; lia).
  change (n_modes (set_n_modes _ (n + 1))) with (n + 1).
  change (ampl (set_n_modes (set_seed (with_modes (tgd w) n am md) s) (n + 1))) with am.
  change (mode (set_n_modes (set_seed (with_modes (tgd w) n am md) s) (n + 1))) with md.
  split; [lia | split; [| split]].
  - intros i Hi. apply Hout. lia.
  - intros H2.
    assert (2 ^ 1 <= 2 ^ (ndim (tgd w) - 1)) by (apply Z.pow_le_mono_r; lia).
    lia.
  - intros H1. apply too_many_modes_1d; [exact H1 | lia].
Qed.

(** *** The power-law sampling in one dimension

    In one dimension the angle [phi] is set to 0 or to pi, [theta] is
    pi/2, and [rand] lies strictly between [ik - 1/2] and [ik + 1/2]:
    every angular sample of the shell [ik] gives the wavevector
    [+-2 pi ik / Lx], whatever the generator returns. *)

Lemma to_int_IZR (z : Z) : CInt.in_int z -> CMath.to_int (IZR z) = z.
Proof. intros H. unfold CMath.to_int. rewrite Ztrunc_IZR. now apply wrap_id. Qed.

Lemma round_near (z : Z) (x : R) :
  (IZR z - / 2 < x < IZR z + / 2)%R -> CMath.round x = IZR z.
Proof.
  intros Hx. unfold CMath.round, CMath.leb.
  destruct (Rle_dec 0 x) as [_|_]; f_equal.
  - apply Zfloor_eq. lra.
  - apply Zceil_eq. lra.
Qed.

Lemma round_IZR (z : Z) : CMath.round (IZR z) = IZR z.
Proof. apply round_near. lra. Qed.

(** The two assignments to [phi] for [ndim == 1]. *)
Lemma phi_1d (u : R) :
  (0 < u < 1)%R ->
  let phi := (2 * CMath.M_PI * u)%R in
  let phi := if CMath.ltb phi CMath.M_PI then 0%R else phi in
  let phi := if CMath.geb phi CMath.M_PI then CMath.M_PI else phi in
  cos phi = 1%R \/ cos phi = (-1)%R.
Proof.
  intros Hu. cbv zeta. unfold CMath.M_PI, CMath.geb, CMath.leb, CMath.ltb.
  pose proof PI_RGT_0 as Hpi.
  destruct (Rlt_dec (2 * PI * u) PI) as [Hlt|Hge].
  - destruct (Rle_dec PI 0) as [Hle|_]; [lra |]. left. apply cos_0.
  - destruct (Rle_dec PI (2 * PI * u)) as [_|Hn]; [| lra]. right. apply cos_PI.
Qed.

(** [round(rand*sin(theta)*cos(phi))] for [theta = pi/2] and [phi] 0 or
    pi. *)
Lemma round_sample (ik : Z) (u c : R) :
  (0 < u < 1)%R -> c = 1%R \/ c = (-1)%R ->
  exists z, (z = ik \/ z = - ik) /\
    CMath.round ((CMath.of_int ik + u - / 2) * sin (CMath.M_PI / 2) * c) = IZR z.
Proof.
  intros Hu Hc. unfold CMath.M_PI, CMath.of_int. rewrite sin_PI2.
  destruct Hc as [-> | ->].
  - exists ik. split; [now left |]. apply round_near. lra.
  - exists (- ik). split; [now right |]. apply round_near. rewrite opp_IZR. lra.
Qed.

Lemma magnitude_x (kx : R) : magnitude kx 0 0 = Rabs kx.
Proof.
  unfold magnitude. rewrite <- sqrt_Rsqr_abs. f_equal. unfold Rsqr. ring.
Qed.

Lemma wavenumber_abs (Lx : R) (ik z : Z) :
  (0 < Lx)%R -> 0 <= ik -> z = ik \/ z = - ik ->
  Rabs (2 * CMath.M_PI * IZR z / Lx) = wavenumber Lx ik.
Proof.
  intros HL Hik Hz. unfold wavenumber, CMath.M_PI, CMath.of_int.
  pose proof PI_RGT_0 as Hpi.
  assert (Hk : (0 <= IZR ik)%R) by (apply IZR_le; exact Hik).
  assert (Hpos : (0 <= 2 * PI * IZR ik / Lx)%R).
  { apply Rmult_le_pos; [| left; now apply Rinv_0_lt_compat].
    apply Rmult_le_pos; [lra | exact Hk]. }
  destruct Hz as [-> | ->].
  - now apply Rabs_pos_eq.
  - rewrite opp_IZR.
    replace (2 * PI * - IZR ik / Lx)%R with (- (2 * PI * IZR ik / Lx))%R
      by (unfold Rdiv; ring).
    rewrite Rabs_Ropp. now apply Rabs_pos_eq.
Qed.

(** One call [TurbGen_ran2(&tgd.seed)] during the sampling. *)
Lemma powerlaw_1d_draw (t : TurbGenData) (n : Z) (am : array R) (md : Z -> array R)
  (s : Z) (w : World) :
  tgd w = set_seed (with_modes t n am md) s ->
  1 <= s <= Ran2.IM1 - 1 ->
  ran2_state_ok (ran2_static w) ->
  exists u s' w1,
    ran2_tgd_seed w = (u, w1) /\
    (0 < u < 1)%R /\
    tgd w1 = set_seed (with_modes t n am md) s' /\
    1 <= s' <= Ran2.IM1 - 1 /\
    ran2_state_ok (ran2_static w1) /\
    rng_calls w1 = rng_calls w ++ [call_ran2].
Proof.
  intros Ht Hs Hok.
  assert (Hs' : 1 <= seed (tgd w) <= Ran2.IM1 - 1) by (rewrite Ht; exact Hs).
  destruct (ran2_regular_ok (seed (tgd w)) w Hok Hs') as (_ & Hr & _ & Hst & Hok' & _).
  cbv zeta in Hr, Hst, Hok'.
  pose proof (rng_calls_ran2 (seed (tgd w)) w) as Hc.
  pose proof (ran2_tgd (seed (tgd w)) w) as Htg.
  unfold ran2_tgd_seed.
  destruct (TurbGen_ran2 (seed (tgd w)) w) as [[r s1] w1].
  cbn [fst snd] in *.
  exists r, s1, (set_tgd w1 (set_seed (tgd w1) s1)).
  split; [reflexivity |]. split; [exact Hr |].
  cbn [tgd set_tgd ran2_static rng_calls].
  split; [rewrite Htg, Ht; reflexivity |].
  split; [exact Hst |]. split; [exact Hok' | exact Hc].
Qed.

(** One angular sample of the shell [ik], when the shell is in the band
    and the guard does not fire: it returns, having drawn twice and stored
    one mode. *)
Lemma powerlaw_angle_body_1d (t : TurbGenData) (kc Lx Ly Lz : R) (ik nang iang n0 : Z)
  (calls : list rng_call) (c : nat) (w : World) :
  ndim t = 1 -> (0 < Lx)%R -> 0 <= ik -> -1 <= n0 ->
  in_band t (wavenumber Lx ik) = true ->
  n0 + Z.of_nat c < tgd_max_n_modes ->
  powerlaw_1d_inv t Lx ik n0 calls c w ->
  exists w',
    powerlaw_angle_body kc Lx Ly Lz ik nang iang w = Ok w' /\
    powerlaw_1d_inv t Lx ik n0 calls (S c) w'.
Proof.
  intros Hnd HL Hik Hn0 Hband Hcap (am & md & s & Ht & Hs & Hok & Hcalls & Hmodes).
  unfold powerlaw_angle_body.
  destruct (powerlaw_1d_draw t _ am md s w Ht Hs Hok)
    as (u1 & s1 & w1 & E1 & Hu1 & Ht1 & Hs1 & Hok1 & Hc1).
  rewrite E1. cbv beta iota zeta.
  rewrite Ht1.
  change (ndim (set_seed (with_modes t (n0 + Z.of_nat c) am md) s1)) with (ndim t).
  rewrite Hnd. cbn [Z.eqb Z.gtb Z.compare Pos.eqb Pos.compare Pos.compare_cont].
  destruct (powerlaw_1d_draw t _ am md s1 w1 Ht1 Hs1 Hok1)
    as (u2 & s2 & w2 & E2 & Hu2 & Ht2 & Hs2 & Hok2 & Hc2).
  rewrite E2. cbv beta iota zeta.
  rewrite Ht2.
  change (ndim (set_seed (with_modes t (n0 + Z.of_nat c) am md) s2)) with (ndim t).
  rewrite Hnd. cbn [Z.eqb Z.gtb Z.compare Pos.eqb Pos.compare Pos.compare_cont].
  destruct (round_sample ik u2 _ Hu2 (phi_1d u1 Hu1)) as (z & Hz & Hround).
  cbv zeta in Hround. rewrite Hround.
  rewrite magnitude_x, (wavenumber_abs Lx ik z HL Hik Hz).
  change (in_band (set_seed (with_modes t (n0 + Z.of_nat c) am md) s2)) with (in_band t).
  rewrite Hband.
  change (n_modes (set_seed (with_modes t (n0 + Z.of_nat c) am md) s2))
    with (n0 + Z.of_nat c).
  change (too_many_modes (set_seed (with_modes t (n0 + Z.of_nat c) am md) s2))
    with (too_many_modes t).
  rewrite (too_many_modes_1d t _ Hnd Hcap).
  eexists. split; [reflexivity |].
  set (amp := (sqrt _ * _)%R).
  assert (Hadd : CInt.add (n0 + Z.of_nat c) 1 = n0 + Z.of_nat (S c)).
  { rewrite add_small by (unfold CInt.int_max, tgd_max_n_modes in *; lia). lia. }
  set (kx := (2 * CMath.M_PI * IZR z / Lx)%R) in *.
  destruct (store_wavevector_at md (n0 + Z.of_nat (S c)) kx 0 0)
    as (HX & HY & HZ & Hother).
  cbv zeta in HX, HY, HZ, Hother.
  exists (aset am (n0 + Z.of_nat (S c)) amp),
    (aset2 (aset2 (aset2 md Axis.X (n0 + Z.of_nat (S c)) kx)
              Axis.Y (n0 + Z.of_nat (S c)) 0%R) Axis.Z (n0 + Z.of_nat (S c)) 0%R),
    s2.
  cbn [tgd set_tgd ran2_static rng_calls].
  split; [| split; [exact Hs2 | split; [exact Hok2 | split]]].
  - transitivity
      (set_seed (store_mode (with_modes t (n0 + Z.of_nat c) am md) amp kx 0 0) s2);
      [reflexivity |].
    rewrite store_mode_spec, Hadd. reflexivity.
  - rewrite Hc2, Hc1, Hcalls, <- !app_assoc. f_equal.
    replace (2 * S c)%nat with (2 * c + 2)%nat by lia.
    rewrite repeat_app. reflexivity.
  - intros i Hi.
    destruct (Z.eq_dec i (n0 + Z.of_nat (S c))) as [->|Hne].
    + rewrite HX, HY, HZ. split; [| split; reflexivity].
      unfold kx. now apply wavenumber_abs.
    + rewrite !Hother by exact Hne. apply Hmodes. lia.
Qed.

(** A counted loop whose body returns under the invariant [P] returns. *)
Lemma for_countM_steps {St : Type} (P : nat -> St -> Prop) (body : Z -> St -> result St)
  (n : nat) :
  forall (i : Z) (c : nat) (s : St),
    P c s ->
    (forall j m a, (c <= m < c + n)%nat -> P m a ->
       exists a', body j a = Ok a' /\ P (S m) a') ->
    exists s', for_countM n i body s = Ok s' /\ P (c + n)%nat s'.
Proof.
  induction n as [|n IH]; intros i c s H0 Hstep.
  - exists s. rewrite Nat.add_0_r. split; [reflexivity | exact H0].
  - destruct (Hstep i c s ltac:(lia) H0) as (s1 & Hb & H1).
    destruct (IH (i + 1) (S c) s1 H1) as (s' & Hrun & Hs').
    { intros j m a Hm. apply Hstep. lia. }
    exists s'. cbn [for_countM]. rewrite Hb. cbn [bind].
    split; [exact Hrun |]. replace (c + S n)%nat with (S c + n)%nat by lia. exact Hs'.
Qed.

(** The sampling of one shell that lies in the band, with room for its
    [N] angles in the mode table. *)
Lemma powerlaw_shell_body_1d (t : TurbGenData) (kc Lx Ly Lz : R) (ik n0 : Z)
  (calls : list rng_call) (N : nat) (w : World) :
  ndim t = 1 -> (0 < Lx)%R -> 0 <= ik -> -1 <= n0 ->
  in_band t (wavenumber Lx ik) = true ->
  CMath.to_int (CMath.pow 2 (CMath.of_int (ndim t))
                * CMath.ceil (CMath.pow (CMath.of_int ik) (angles_exp t)))%R
  = Z.of_nat N ->
  n0 + Z.of_nat N <= tgd_max_n_modes ->
  powerlaw_1d_inv t Lx ik n0 calls 0 w ->
  exists w',
    powerlaw_shell_body kc Lx Ly Lz ik w = Ok w' /\
    powerlaw_1d_inv t Lx ik n0 calls N w'.
Proof.
  intros Hnd HL Hik Hn0 Hband Hnang Hcap Hinv.
  unfold powerlaw_shell_body.
  assert (Ht : exists am md s, tgd w = set_seed (with_modes t (n0 + 0) am md) s).
  { destruct Hinv as (am & md & s & Ht & _). now exists am, md, s. }
  destruct Ht as (am & md & s & ->).
  change (ndim (set_seed (with_modes t (n0 + 0) am md) s)) with (ndim t).
  change (angles_exp (set_seed (with_modes t (n0 + 0) am md) s)) with (angles_exp t).
  rewrite Hnang. cbv zeta. unfold for_loopM.
  replace (Z.to_nat (Z.of_nat N + 1 - 1)) with N by lia.
  apply (for_countM_steps (powerlaw_1d_inv t Lx ik n0 calls) _ N 1 0%nat w Hinv).
  intros j m a Hm Ha.
  apply powerlaw_angle_body_1d; try assumption. lia.
Qed.

(** The [spect_form == 2] block when the band holds the single shell
    [ik]: the first call restarts [TurbGen_ran2] on the negated seed,
    then the [N] angles of the shell are sampled. *)
Lemma powerlaw_pass_one_shell_1d (t : TurbGenData) (kc Lx Ly Lz : R) (ik : Z)
  (N : nat) (am : array R) (md : Z -> array R) (w : World) :
  ndim t = 1 -> (0 < Lx)%R -> 0 <= ik ->
  in_band t (wavenumber Lx ik) = true ->
  CMath.to_int (CMath.MAX 1 (CMath.round (stir_min t * Lx / (2 * CMath.M_PI)))) = ik ->
  CMath.to_int (CMath.round (stir_max t * Lx / (2 * CMath.M_PI))) = ik ->
  CMath.to_int (CMath.pow 2 (CMath.of_int (ndim t))
                * CMath.ceil (CMath.pow (CMath.of_int ik) (angles_exp t)))%R
  = Z.of_nat N ->
  Z.of_nat N <= tgd_max_n_modes ->
  1 <= seed t <= Ran2.IM2 - 1 ->
  tgd w = set_seed (with_modes t (-1) am md) (seed t) ->
  exists w',
    powerlaw_pass kc Lx Ly Lz w = Ok w' /\
    powerlaw_1d_inv t Lx ik (-1) (rng_calls w ++ [call_ran2]) N w'.
Proof.
  intros Hnd HL Hik Hband Hmin Hmax Hnang Hcap Hs Ht.
  unfold powerlaw_pass.
  assert (Hsw : seed (tgd w) = seed t) by (rewrite Ht; reflexivity).
  rewrite Hsw.
  pose proof (ran2_tgd (CInt.neg (seed t)) w) as Hr.
  pose proof (rng_calls_ran2 (CInt.neg (seed t)) w) as Hc.
  pose proof (proj1 (ran2_init_ok (CInt.neg (seed t)) w (neg_seed _ Hs))) as Hok.
  destruct (TurbGen_ran2 (CInt.neg (seed t)) w) as [[r s0] wa].
  cbn [snd] in Hr, Hc, Hok. cbv beta iota zeta.
  rewrite Hr, Ht.
  change (stir_min (set_seed (with_modes t (-1) am md) (seed t))) with (stir_min t).
  change (stir_max (set_seed (with_modes t (-1) am md) (seed t))) with (stir_max t).
  rewrite Hmin, Hmax. unfold for_loopM.
  replace (Z.to_nat (ik + 1 - ik)) with 1%nat by lia.
  cbn [for_countM].
  assert (H0 : powerlaw_1d_inv t Lx ik (-1) (rng_calls w ++ [call_ran2]) 0 wa).
  { exists am, md, (seed t).
    split; [rewrite Hr, Ht; reflexivity |].
    split; [unfold Ran2.IM1, Ran2.IM2 in *; lia |].
    split; [exact Hok |].
    split; [rewrite Hc; cbn [Nat.mul repeat]; now rewrite app_nil_r |].
    intros i Hi. lia. }
  destruct (powerlaw_shell_body_1d t kc Lx Ly Lz ik (-1) _ N wa Hnd HL Hik
              ltac:(lia) Hband Hnang ltac:(lia) H0) as (w' & Hrun & Hinv).
  exists w'. rewrite Hrun. cbn [bind]. split; [reflexivity | exact Hinv].
Qed.

(** The example: band [[6, 8]] in the unit box. *)
Lemma inv_PI_bounds : (/ 4 <= / PI < / 3)%R.
Proof.
  pose proof PI2_3_2 as Hlo. pose proof PI_4 as Hhi. pose proof PI_RGT_0 as Hpos.
  split.
  - apply Rinv_le_contravar; lra.
  - apply Rinv_lt_contravar; [| lra]. apply Rmult_lt_0_compat; lra.
Qed.

Lemma example_powerlaw_band :
  in_band example_powerlaw_tgd (wavenumber (1 - 0) 1) = true.
Proof.
  pose proof PI2_3_2 as Hlo. pose proof PI_4 as Hhi.
  unfold in_band, CMath.geb, CMath.leb, wavenumber, CMath.M_PI, CMath.of_int.
  cbn [stir_min stir_max example_powerlaw_tgd].
  replace (2 * PI * 1 / (1 - 0))%R with (2 * PI)%R by field.
  destruct (Rle_dec 6 (2 * PI)) as [_|Hn]; [| lra].
  destruct (Rle_dec (2 * PI) 8) as [_|Hn]; [reflexivity | lra].
Qed.

Lemma example_powerlaw_ikmin :
  CMath.to_int
    (CMath.MAX 1 (CMath.round (stir_min example_powerlaw_tgd * (1 - 0)
                               / (2 * CMath.M_PI)))) = 1.
Proof.
  pose proof inv_PI_bounds as Hb. pose proof PI_RGT_0 as Hpos.
  cbn [stir_min example_powerlaw_tgd]. unfold CMath.M_PI.
  replace (6 * (1 - 0) / (2 * PI))%R with (3 * / PI)%R by (field; lra).
  rewrite (round_near 1) by lra.
  unfold CMath.MAX, CMath.gtb, CMath.ltb.
  destruct (Rlt_dec 1 1) as [Hlt|_]; [lra |].
  apply to_int_IZR, in_int_small. lia.
Qed.

Lemma example_powerlaw_ikmax :
  CMath.to_int
    (CMath.round (stir_max example_powerlaw_tgd * (1 - 0) / (2 * CMath.M_PI))) = 1.
Proof.
  pose proof inv_PI_bounds as Hb. pose proof PI_RGT_0 as Hpos.
  cbn [stir_max example_powerlaw_tgd]. unfold CMath.M_PI.
  replace (8 * (1 - 0) / (2 * PI))%R with (4 * / PI)%R by (field; lra).
  rewrite (round_near 1) by lra.
  apply to_int_IZR, in_int_small. lia.
Qed.

Lemma example_powerlaw_nang :
  CMath.to_int (CMath.pow 2 (CMath.of_int (ndim example_powerlaw_tgd))
                * CMath.ceil (CMath.pow (CMath.of_int 1)
                                (angles_exp example_powerlaw_tgd)))%R
  = Z.of_nat 2.
Proof.
  cbn [ndim angles_exp example_powerlaw_tgd]. unfold CMath.of_int, CMath.ceil.
  rewrite !pow_int.
  change (powerRZ 2 1) with (2 * 1)%R. change (powerRZ 1 2) with (1 * (1 * 1))%R.
  replace (1 * (1 * 1))%R with (IZR 1) by ring.
  rewrite (Zceil_eq 1) by lra.
  replace (2 * 1 * 1)%R with (IZR 2) by ring.
  apply to_int_IZR, in_int_small. lia.
Qed.

(** [TurbGen_init_modes] returns in the example: the shell [ik = 1] is
    sampled at two angles, each of which stores the wavenumber
    [+-2 pi]; the generator [TurbGen_ran2] has been called five times. *)
Lemma init_modes_powerlaw_example (amplitude0 : R) :
  exists w',
    TurbGen_init_modes_from amplitude0 example_powerlaw_world = Ok w' /\
    n_modes (tgd w') = 2 /\
    rng_calls w' = repeat call_ran2 5 /\
    forall i, 0 <= i < 2 -> Rabs (mode (tgd w') Axis.X i) = (2 * PI)%R.
Proof.
  destruct (init_modes_powerlaw amplitude0 example_powerlaw_world eq_refl) as (c & ->).
  destruct (powerlaw_pass_one_shell_1d example_powerlaw_tgd
              (kc_of (tgd example_powerlaw_world)) (1 - 0) (1 - 0) (1 - 0) 1 2
              (ampl example_powerlaw_tgd) (mode example_powerlaw_tgd)
              (set_tgd example_powerlaw_world
                 (set_n_modes (set_n_modes (tgd example_powerlaw_world) c) (-1))))
    as (w2 & Hrun & am & md & s & Ht & _ & _ & Hcalls & Hmodes).
  - reflexivity.
  - lra.
  - lia.
  - exact example_powerlaw_band.
  - exact example_powerlaw_ikmin.
  - exact example_powerlaw_ikmax.
  - exact example_powerlaw_nang.
  - unfold tgd_max_n_modes. lia.
  - change (seed example_powerlaw_tgd) with 140281. unfold Ran2.IM2. lia.
  - reflexivity.
  - change (xmax (tgd example_powerlaw_world) - xmin (tgd example_powerlaw_world))%R
      with (1 - 0)%R.
    change (ymax (tgd example_powerlaw_world) - ymin (tgd example_powerlaw_world))%R
      with (1 - 0)%R.
    change (zmax (tgd example_powerlaw_world) - zmin (tgd example_powerlaw_world))%R
      with (1 - 0)%R.
    rewrite Hrun. cbn [bind]. eexists. split; [reflexivity |].
    cbn [tgd set_tgd rng_calls]. rewrite Ht.
    change (n_modes (set_seed (with_modes example_powerlaw_tgd (-1 + Z.of_nat 2) am md) s))
      with (-1 + Z.of_nat 2).
    split; [reflexivity |]. split; [exact Hcalls |].
    intros i Hi.
    change (mode (set_n_modes
                    (set_seed (with_modes example_powerlaw_tgd (-1 + Z.of_nat 2) am md) s)
                    (CInt.add (-1 + Z.of_nat 2) 1))) with md.
    destruct (Hmodes i ltac:(lia)) as (HX & _). rewrite HX.
    unfold wavenumber, CMath.M_PI, CMath.of_int. field.
Qed.

Lemma init_modes_powerlaw_draws_from_ran2_witness :
  exists w' (k : nat),
    TurbGen_init_modes_from 0 example_powerlaw_world = Ok w' /\
    k = 4%nat /\
    n_modes (tgd w') = 2 /\
    rng_calls w' = rng_calls example_powerlaw_world ++ repeat call_ran2 (S k) /\
    ran2_state_ok (ran2_static w') /\
    seed (tgd w') = (40014 ^ Z.of_nat k * seed (tgd example_powerlaw_world)) mod 2147483563.
Proof.
  destruct (init_modes_powerlaw_example 0) as (w' & Hrun & Hn & Hcalls & _).
  assert (Hs : 1 <= seed (tgd example_powerlaw_world) <= Ran2.IM2 - 1).
  { change (seed (tgd example_powerlaw_world)) with 140281. unfold Ran2.IM2. lia. }
  destruct (init_modes_powerlaw_draws_from_ran2 0 example_powerlaw_world w' eq_refl Hs Hrun)
    as (k & Hc & Hok & Hseed).
  exists w', k. split; [exact Hrun |]. split.
  - rewrite Hcalls in Hc. cbn [rng_calls example_powerlaw_world app] in Hc.
    apply (f_equal (@List.length rng_call)) in Hc. rewrite !repeat_length in Hc. lia.
  - split; [exact Hn |]. split; [exact Hc |]. split; [exact Hok | exact Hseed].
Defined.

Lemma init_modes_powerlaw_capacity_witness :
  exists w',
    TurbGen_init_modes_from 0 example_powerlaw_world = Ok w' /\
    n_modes (tgd w') = 2 /\
    0 <= n_modes (tgd w') <= tgd_max_n_modes + 1 /\
    (forall i, 2 <= i -> ampl (tgd w') i = 0%R /\ mode (tgd w') Axis.X i = 0%R) /\
    too_many_modes (tgd example_powerlaw_world) (tgd_max_n_modes - 1) = false.
Proof.
  destruct (init_modes_powerlaw_example 0) as (w' & Hrun & Hn & _).
  exists w'. split; [exact Hrun |]. split; [exact Hn |].
  assert (Hnd : 1 <= ndim (tgd example_powerlaw_world) <= 3).
  { change (ndim (tgd example_powerlaw_world)) with 1. lia. }
  destruct (init_modes_powerlaw_capacity 0 example_powerlaw_world w' eq_refl Hnd Hrun)
    as (Hbound & Hout & _ & H1).
  change (ndim (tgd example_powerlaw_world)) with 1 in Hbound.
  split; [unfold tgd_max_n_modes in *; cbn in Hbound; lia |]. split.
  - intros i Hi. destruct (Hout i ltac:(lia)) as (Ha & Hm).
    split; [exact Ha | exact (Hm Axis.X)].
  - apply H1. reflexivity.
Defined.

(** ** Reading the parameter file *)

Lemma strstr_nil (c : ascii) : strstr EmptyString (String c EmptyString) = None.
Proof. reflexivity. Qed.

Lemma strstr_cons (c a : ascii) (rest : string) :
  strstr (String a rest) (String c EmptyString) =
  if Ascii.eqb a c then Some (String a rest) else strstr rest (String c EmptyString).
Proof.
  cbn [strstr String.prefix].
  destruct (ascii_dec c a) as [->|Hne].
  - rewrite Ascii.eqb_refl.
    replace (String.prefix EmptyString rest) with true by (destruct rest; reflexivity).
    reflexivity.
  - destruct (Ascii.eqb_spec a c) as [->|_]; [contradiction | reflexivity].
Qed.

(** [strstr] for a needle of one character: the result starts with the
    character, and the part of the text before it is free of it. *)
Lemma strstr_split (c : ascii) (s : string) :
  match strstr s (String c EmptyString) with
  | Some s2 =>
    exists pre rest, s = (pre ++ s2)%string /\ s2 = String c rest /\ occurs c pre = false
  | None => occurs c s = false
  end.
Proof.
  induction s as [|a s IH].
  - reflexivity.
  - rewrite strstr_cons. cbn [occurs].
    destruct (Ascii.eqb_spec a c) as [->|Hne].
    + exists EmptyString, s. repeat split.
    + cbn [orb]. destruct (strstr s (String c EmptyString)) as [s2|].
      * destruct IH as (pre & rest & -> & -> & Hpre).
        exists (String a pre), rest. repeat split.
        cbn [occurs]. destruct (Ascii.eqb_spec a c); [contradiction | exact Hpre].
      * exact IH.
Qed.

Lemma strstr_skip (c : ascii) (pre s : string) :
  occurs c pre = false ->
  strstr (pre ++ s) (String c EmptyString) = strstr s (String c EmptyString).
Proof.
  induction pre as [|a pre IH]; intros H; [reflexivity |].
  cbn [occurs] in H. apply orb_false_iff in H. destruct H as [Ha Hpre].
  cbn [append]. rewrite strstr_cons, Ha. now apply IH.
Qed.

Lemma strstr_hit (c : ascii) (rest : string) :
  strstr (String c rest) (String c EmptyString) = Some (String c rest).
Proof. rewrite strstr_cons, Ascii.eqb_refl. reflexivity. Qed.

Lemma strstr_none (c : ascii) (s : string) :
  occurs c s = false -> strstr s (String c EmptyString) = None.
Proof.
  induction s as [|a s IH]; intros H; [reflexivity |].
  cbn [occurs] in H. apply orb_false_iff in H. destruct H as [Ha Hs].
  rewrite strstr_cons, Ha. now apply IH.
Qed.

Lemma length_append (a b : string) :
  String.length (a ++ b) = (String.length a + String.length b)%nat.
Proof. induction a as [|c a IH]; cbn [append String.length]; [reflexivity | now rewrite IH]. Qed.

Lemma occurs_append (c : ascii) (a b : string) :
  occurs c (a ++ b) = occurs c a || occurs c b.
Proof.
  induction a as [|x a IH]; cbn [append occurs]; [reflexivity |].
  now rewrite IH, orb_assoc.
Qed.

Lemma substring_prefix (a b : string) :
  substring 0 (String.length a) (a ++ b) = a.
Proof.
  induction a as [|c a IH]; cbn [append String.length substring].
  - destruct b; reflexivity.
  - now rewrite IH.
Qed.

Lemma append_assoc (a b c : string) : ((a ++ b) ++ c = a ++ (b ++ c))%string.
Proof. induction a as [|x a IH]; cbn [append]; [reflexivity | now rewrite IH]. Qed.

Lemma append_nil_r (a : string) : (a ++ EmptyString)%string = a.
Proof. induction a as [|x a IH]; cbn [append]; [reflexivity | now rewrite IH]. Qed.

Lemma append_inj_length (a b a' b' : string) :
  (a ++ b = a' ++ b')%string -> String.length a = String.length a' -> a = a' /\ b = b'.
Proof.
  revert a'. induction a as [|x a IH]; intros [|x' a'] H Hl; cbn in *; try discriminate.
  - auto.
  - injection H as -> H. injection Hl as Hl. destruct (IH a' H Hl) as [-> ->]. auto.
Qed.

Lemma strstr_length (c : ascii) (s s2 : string) :
  strstr s (String c EmptyString) = Some s2 -> (String.length s2 <= String.length s)%nat.
Proof.
  intros H. pose proof (strstr_split c s) as Hs. rewrite H in Hs.
  destruct Hs as (pre & rest & -> & _). rewrite length_append. lia.
Qed.

(** A text is its value part followed by nothing or by a comment. *)
Lemma value_text_split (s : string) :
  exists rest,
    s = (value_text s ++ rest)%string /\
    occurs "!" (value_text s) = false /\
    occurs "#" (value_text s) = false /\
    (rest = EmptyString \/ exists r, rest = String "!" r \/ rest = String "#" r).
Proof.
  induction s as [|a s (rest & Hs & H1 & H2 & Hr)].
  - exists EmptyString. repeat split. now left.
  - cbn [value_text].
    destruct (Ascii.eqb_spec a "!") as [->|Hn1]; cbn [orb].
    + exists (String "!" s). repeat split. right. exists s. now left.
    + destruct (Ascii.eqb_spec a "#") as [->|Hn2].
      * exists (String "#" s). repeat split. right. exists s. now right.
      * exists rest. cbn [append occurs].
        destruct (Ascii.eqb_spec a "!"); [contradiction |].
        destruct (Ascii.eqb_spec a "#"); [contradiction |].
        cbn [orb]. rewrite <- Hs. repeat split; assumption.
Qed.

Lemma substring_1_cons (n : nat) (c : ascii) (s : string) :
  substring 1 n (String c s) = substring 0 n s.
Proof. reflexivity. Qed.

(** The computation of [end_index] and [dest], for the text [v ++ rest]
    after the ['=']. *)
Lemma extract_value_body (key v rest : string) :
  occurs "=" key = false ->
  occurs "!" v = false -> occurs "#" v = false ->
  (rest = EmptyString \/ exists r, rest = String "!" r \/ rest = String "#" r) ->
  Z.of_nat (String.length (key ++ String "=" (v ++ rest))) <= CInt.int_max ->
  extract_value (key ++ String "=" (v ++ rest)) =
  if 100 <? Z.of_nat (String.length v) then Undefined
  else Returns (v, Z.of_nat (String.length v)).
Proof.
  intros Hkey Hv1 Hv2 Hrest Hlen.
  rewrite length_append in Hlen. cbn [String.length] in Hlen.
  rewrite length_append in Hlen. unfold CInt.int_max in Hlen.
  assert (Hw : forall z, 0 <= z <= 2 ^ 31 - 1 -> CInt.wrap z = z).
  { intros z Hz. apply wrap_id. unfold CInt.in_int, CInt.int_min, CInt.int_max. lia. }
  unfold extract_value.
  rewrite strstr_skip, strstr_hit by exact Hkey.
  rewrite !(strstr_cons _ "="). cbn [Ascii.eqb Bool.eqb andb].
  rewrite !strstr_skip by assumption.
  cbn [String.length]. rewrite length_append.
  assert (Hfin : forall e, e = Z.of_nat (S (String.length v)) ->
            (let count := CInt.sub e 1 in
             if (count <? 0) || (100 <? count) then Undefined
             else Returns (substring 1 (Z.to_nat count) (String "=" (v ++ rest)), count))
            = if 100 <? Z.of_nat (String.length v) then Undefined
              else Returns (v, Z.of_nat (String.length v))).
  { intros e ->. cbv zeta. unfold CInt.sub. rewrite Hw by lia.
    replace (Z.of_nat (S (String.length v)) - 1) with (Z.of_nat (String.length v)) by lia.
    destruct (Z.ltb_spec (Z.of_nat (String.length v)) 0); [lia |]. cbn [orb].
    destruct (Z.ltb_spec 100 (Z.of_nat (String.length v))); [reflexivity |].
    rewrite substring_1_cons, Nat2Z.id, substring_prefix. reflexivity. }
  destruct Hrest as [-> | (r & [-> | ->])].
  - cbn [strstr String.prefix]. apply Hfin.
    rewrite Hw by (cbn [String.length]; lia). cbn [String.length]. lia.
  - rewrite strstr_hit, (strstr_cons "#" "!"). cbn [Ascii.eqb Bool.eqb andb].
    destruct (strstr r "#") as [s3|] eqn:H3.
    + apply strstr_length in H3. apply Hfin.
      unfold MAX_size. cbn [String.length] in *.
      destruct (Nat.ltb_spec (String.length s3) (S (String.length r))); [| lia].
      rewrite (Hw (Z.of_nat _)) by lia. rewrite Hw by lia. lia.
    + apply Hfin. cbn [String.length] in *.
      rewrite (Hw (Z.of_nat _)) by lia. rewrite Hw by lia. lia.
  - rewrite strstr_hit, (strstr_cons "!" "#"). cbn [Ascii.eqb Bool.eqb andb].
    destruct (strstr r "!") as [s2|] eqn:H2.
    + apply strstr_length in H2. apply Hfin.
      unfold MAX_size. cbn [String.length] in *.
      destruct (Nat.ltb_spec (S (String.length r)) (String.length s2)); [lia |].
      rewrite (Hw (Z.of_nat _)) by lia. rewrite Hw by lia. lia.
    + apply Hfin. cbn [String.length] in *.
      rewrite (Hw (Z.of_nat _)) by lia. rewrite Hw by lia. lia.
Qed.

Lemma extract_value_is_the_text_before_the_comment_aux (key body : string) :
  occurs "=" key = false ->
  Z.of_nat (String.length (key ++ String "=" body)) <= CInt.int_max ->
  extract_value (key ++ String "=" body) =
  if 100 <? Z.of_nat (String.length (value_text body)) then Undefined
  else Returns (value_text body, Z.of_nat (String.length (value_text body))).
Proof.
  intros Hkey Hlen.
  destruct (value_text_split body) as (rest & Hb & H1 & H2 & Hrest).
  remember (value_text body) as v eqn:Hv. clear Hv.
  subst body. now apply extract_value_body.
Qed.

(** X26.  For a line [key = body] whose [key] holds no ['='] (the line
    being shorter than [2^31] characters), the text copied into [dest] is
    the part of [body] before its first ['!'] or ['#'], or all of [body]
    when it holds neither, whichever of the two characters comes first;
    [dest] holds no comment character; and the copy is undefined when that
    text is longer than 100 characters. *)
Theorem extract_value_is_the_text_before_the_comment (key body : string) :
  occurs "=" key = false ->
  Z.of_nat (String.length (key ++ String "=" body)) <= CInt.int_max ->
  (extract_value (key ++ String "=" body) =
   if 100 <? Z.of_nat (String.length (value_text body)) then Undefined
   else Returns (value_text body, Z.of_nat (String.length (value_text body)))) /\
  occurs "!" (value_text body) = false /\
  occurs "#" (value_text body) = false /\
  exists rest,
    body = (value_text body ++ rest)%string /\
    (rest = EmptyString \/ exists r, rest = String "!" r \/ rest = String "#" r).
Proof.
  intros Hkey Hlen.
  split; [now apply extract_value_is_the_text_before_the_comment_aux |].
  destruct (value_text_split body) as (rest & Hb & H1 & H2 & Hrest).
  split; [exact H1 | split; [exact H2 |]].
  exists rest. split; assumption.
Qed.

Lemma extract_value_is_the_text_before_the_comment_witness :
  extract_value ("ndim " ++ String "=" " 3 ! dimensions") = Returns (" 3 "%string, 3).
Proof.
  apply (extract_value_is_the_text_before_the_comment "ndim " " 3 ! dimensions").
  - reflexivity.
  - cbn. unfold CInt.int_max. lia.
Defined.

Lemma extract_value_no_equals (line : string) :
  occurs "=" line = false -> extract_value line = Undefined.
Proof. intros H. unfold extract_value. now rewrite strstr_none. Qed.

Lemma extract_value_not_exits (line : string) : extract_value line <> Exits.
Proof.
  unfold extract_value.
  destruct (strstr line "="); [| discriminate].
  cbv zeta. destruct (_ || _); discriminate.
Qed.

Section Reading.

Variable atoi : string -> Z.
Variable atof : string -> R.

Lemma convert_value_not_exits (type : ascii) (line : string) :
  convert_value atoi atof type line <> Exits.
Proof.
  unfold convert_value.
  pose proof (extract_value_not_exits line) as H.
  destruct (extract_value line) as [[dest count]| |]; try discriminate; try contradiction.
  destruct (Ascii.eqb type "i"); [destruct (count =? 100); discriminate |].
  destruct (Ascii.eqb type "d"); [destruct (count =? 100); discriminate |].
  discriminate.
Qed.

Lemma read_lines_first_match (before after : list string) (line search : string)
  (type : ascii) :
  Forall (fun l => String.prefix search l = false) before ->
  String.prefix search line = true ->
  read_lines atoi atof (before ++ line :: after) search type
  = convert_value atoi atof type line.
Proof.
  intros Hb Hl. induction Hb as [|l before Hl' _ IH]; cbn [app read_lines].
  - now rewrite Hl.
  - now rewrite Hl'.
Qed.

Lemma read_lines_exits_iff (lines : list string) (search : string) (type : ascii) :
  read_lines atoi atof lines search type = Exits <->
  Forall (fun l => String.prefix search l = false) lines.
Proof.
  induction lines as [|l lines IH]; cbn [read_lines].
  - split; [intros _; constructor | reflexivity].
  - destruct (String.prefix search l) eqn:Hp.
    + split.
      * intros H. now apply convert_value_not_exits in H.
      * intros H. inversion H; congruence.
    + rewrite IH. split.
      * intros H. now constructor.
      * intros H. now inversion H.
Qed.

(** X27.  [TurbGen_read_from_parameter_file] calls [exit] if and only
    if the file cannot be opened or none of its lines starts with the name
    searched for. *)
Theorem read_exits_iff_the_parameter_is_missing
  (file : option (list string)) (search : string) (type : ascii) :
  TurbGen_read_from_parameter_file atoi atof file search type = Exits <->
  file = None \/
  exists lines,
    file = Some lines /\ Forall (fun l => String.prefix search l = false) lines.
Proof.
  destruct file as [lines|]; cbn [TurbGen_read_from_parameter_file].
  - rewrite read_lines_exits_iff. split.
    + intros H. right. exists lines. auto.
    + intros [H | (lines' & H & HF)]; [discriminate |]. now injection H as ->.
  - split; [now left | reflexivity].
Qed.

(** X28.  If the first line that starts with the name searched for
    holds no ['='], [TurbGen_read_from_parameter_file] passes a null
    pointer to [strstr]: its behaviour is undefined, whatever the lines
    that follow. *)
Theorem matching_line_without_equals_is_undefined
  (before after : list string) (line search : string) (type : ascii) :
  Forall (fun l => String.prefix search l = false) before ->
  String.prefix search line = true ->
  occurs "=" line = false ->
  TurbGen_read_from_parameter_file atoi atof (Some (before ++ line :: after)) search type
  = Undefined.
Proof.
  intros Hb Hl Heq. cbn [TurbGen_read_from_parameter_file].
  rewrite read_lines_first_match by assumption.
  unfold convert_value. now rewrite extract_value_no_equals.
Qed.

(** X29.  The value read is that of the first line that starts with
    the name searched for, even when that line sets a parameter with a
    longer name or a later line starts with the name too: with the text
    between the ['='] of that line and its comment shorter than 100
    characters, type ['i'] stores [atoi] of that text and type ['d'] stores
    [atof] of it. *)
Theorem read_returns_the_value_of_the_first_matching_line
  (before after : list string) (key body search : string) :
  Forall (fun l => String.prefix search l = false) before ->
  String.prefix search (key ++ String "=" body) = true ->
  occurs "=" key = false ->
  Z.of_nat (String.length (key ++ String "=" body)) <= CInt.int_max ->
  Z.of_nat (String.length (value_text body)) < 100 ->
  let file := Some (before ++ (key ++ String "=" body)%string :: after) in
  TurbGen_read_from_parameter_file atoi atof file search "i"
  = Returns (int_value (atoi (value_text body))) /\
  TurbGen_read_from_parameter_file atoi atof file search "d"
  = Returns (double_value (atof (value_text body))).
Proof.
  intros Hb Hl Hkey Hlen Hv. cbv zeta. cbn [TurbGen_read_from_parameter_file].
  rewrite !read_lines_first_match by assumption.
  unfold convert_value.
  rewrite extract_value_is_the_text_before_the_comment_aux by assumption.
  destruct (Z.ltb_spec 100 (Z.of_nat (String.length (value_text body)))); [lia |].
  cbn [Ascii.eqb Bool.eqb andb].
  destruct (Z.eqb_spec (Z.of_nat (String.length (value_text body))) 100); [lia |].
  split; reflexivity.
Qed.

End Reading.

Lemma matching_line_without_equals_is_undefined_witness :
  TurbGen_read_from_parameter_file (fun _ => 0) (fun _ => 0%R)
    (Some (["# comment"%string] ++ "ndim 3"%string :: ["ndim = 3"%string]))
    "ndim" "i"
  = Undefined.
Proof.
  apply (matching_line_without_equals_is_undefined (fun _ => 0) (fun _ => 0%R)
           ["# comment"%string] ["ndim = 3"%string] "ndim 3" "ndim" "i").
  - apply Forall_cons; [reflexivity | apply Forall_nil].
  - reflexivity.
  - reflexivity.
Defined.

Lemma read_returns_the_value_of_the_first_matching_line_witness :
  TurbGen_read_from_parameter_file (fun _ => 3) (fun _ => 0%R)
    (Some (["# comment"%string]
             ++ ("ndim " ++ String "=" " 3 ! dimensions")%string
             :: ["ndimension = 7"%string]))
    "ndim" "i"
  = Returns (int_value 3).
Proof.
  apply (read_returns_the_value_of_the_first_matching_line
           (fun _ => 3) (fun _ => 0%R)
           ["# comment"%string] ["ndimension = 7"%string]
           "ndim " " 3 ! dimensions" "ndim").
  - apply Forall_cons; [reflexivity | apply Forall_nil].
  - reflexivity.
  - reflexivity.
  - cbn. unfold CInt.int_max. lia.
  - cbn. lia.
Defined.

Lemma bind_outcome_returns {A B : Type} (o : outcome A) (f : A -> outcome B) (b : B) :
  bind_outcome o f = Returns b -> exists a, o = Returns a /\ f a = Returns b.
Proof.
  destruct o as [a| |]; cbn [bind_outcome]; intros H; try discriminate.
  exists a. auto.
Qed.

Section InitialisationFromFile.

Variable atoi : string -> Z.
Variable atof : string -> R.

Lemma read_returns_has_line (lines : list string) (search : string) (type : ascii)
  (v : parameter_value) :
  TurbGen_read_from_parameter_file atoi atof (Some lines) search type = Returns v ->
  Exists (fun l => String.prefix search l = true) lines.
Proof.
  cbn [TurbGen_read_from_parameter_file].
  induction lines as [|l lines IH]; cbn [read_lines]; [discriminate |].
  destruct (String.prefix search l) eqn:Hp.
  - intros _. now apply Exists_cons_hd.
  - intros H. apply Exists_cons_tl. now apply IH.
Qed.

Lemma read_parameters_needs_every_parameter (lines : list string) (t : TurbGenData)
  (local0 : R) (p : ParameterFile) :
  read_parameters atoi atof (Some lines) t local0 = Returns p ->
  Forall (fun kt => Exists (fun l => String.prefix (fst kt) l = true) lines)
    parameter_names.
Proof.
  unfold read_parameters. cbv zeta. intros H.
  repeat (apply bind_outcome_returns in H;
          let v := fresh "v" in let Hv := fresh "Hv" in
          destruct H as (v & Hv & H);
          apply read_returns_has_line in Hv).
  unfold parameter_names.
  repeat (apply Forall_cons; [cbn [fst]; assumption |]).
  apply Forall_nil.
Qed.

(** X30.  If [TurbGen_init_turbulence_generator] returns, then the
    parameter file could be opened, each of the eighteen parameter names
    starts some line of it, and the state is the one that the
    initialisation computes from the eighteen values read. *)
Theorem init_needs_the_file_and_every_parameter
  (files : string -> option (list string)) (parameter_file : string) (pe : Z)
  (local0 : R) (w w' : World) :
  TurbGen_init_turbulence_generator_file atoi atof files parameter_file pe local0 w
  = Returns w' ->
  exists lines p,
    files parameter_file = Some lines /\
    Forall (fun kt => Exists (fun l => String.prefix (fst kt) l = true) lines)
      parameter_names /\
    read_parameters atoi atof (Some lines) (tgd w) local0 = Returns p /\
    TurbGen_init_turbulence_generator parameter_file pe p w = Ok w'.
Proof.
  unfold TurbGen_init_turbulence_generator_file.
  destruct (files parameter_file) as [lines|]; [| discriminate].
  intros H. apply bind_outcome_returns in H. destruct H as (p & Hp & H).
  exists lines, p. split; [reflexivity |].
  split; [now apply (read_parameters_needs_every_parameter lines (tgd w) local0 p) |].
  split; [exact Hp |].
  destruct (TurbGen_init_turbulence_generator parameter_file pe p w) as [w1|];
    [| discriminate].
  now injection H as ->.
Qed.

End InitialisationFromFile.

Lemma init_1d_succeeds (file : string) (pe : Z) (p : ParameterFile) (w : World) :
  p_ndim p = 1 -> p_spect_form p <> 2 ->
  exists w', TurbGen_init_turbulence_generator file pe p w = Ok w'.
Proof.
  intros Hnd Hsf.
  unfold TurbGen_init_turbulence_generator, TurbGen_init_modes.
  destruct (init_modes_1d_succeeds 0 (set_tgd w (init_parameters file pe p (tgd w))))
    as [w1 ->].
  - exact Hnd.
  - exact Hsf.
  - cbn [bind]. eexists. reflexivity.
Qed.

Lemma read_example_parameter_file :
  exists p,
    read_parameters (fun _ => 1) (fun _ => 1%R) (Some example_parameter_file)
      (tgd world_start) 0 = Returns p /\
    p_ndim p = 1 /\ p_spect_form p = 1.
Proof.
  eexists. split; [vm_compute; reflexivity |]. split; reflexivity.
Qed.

Lemma init_from_example_file_succeeds :
  exists w',
    TurbGen_init_turbulence_generator_file (fun _ => 1) (fun _ => 1%R)
      (fun _ => Some example_parameter_file) "turbulence_generator.inp" 0 0 world_start
    = Returns w'.
Proof.
  destruct read_example_parameter_file as (p & Hp & Hnd & Hsf).
  destruct (init_1d_succeeds "turbulence_generator.inp" 0 p world_start Hnd
              ltac:(rewrite Hsf; discriminate)) as [w' Hw'].
  exists w'. unfold TurbGen_init_turbulence_generator_file.
  rewrite Hp. cbn [bind_outcome]. rewrite Hw'. reflexivity.
Qed.

Lemma init_needs_the_file_and_every_parameter_witness :
  exists w',
    TurbGen_init_turbulence_generator_file (fun _ => 1) (fun _ => 1%R)
      (fun _ => Some example_parameter_file) "turbulence_generator.inp" 0 0 world_start
    = Returns w' /\
    Forall (fun kt => Exists (fun l => String.prefix (fst kt) l = true)
                        example_parameter_file)
      parameter_names.
Proof.
  destruct init_from_example_file_succeeds as [w' Hrun].
  exists w'. split; [exact Hrun |].
  destruct (init_needs_the_file_and_every_parameter _ _ _ _ _ _ _ _ Hrun)
    as (lines & p & Hfile & HF & _).
  injection Hfile as <-. exact HF.
Defined.
